(** * CPU stress-test controller and worker of [main.py]

    A shallow embedding of the load generator of [main.py]: the worker
    [cpu_worker], the three endpoints [start_cpu_stress], [stop_cpu_stress]
    and [stress_status], and the module-level globals they share.

    Conventions of the embedding.
    - Readings of [time.time()] and the other Python floats are rationals
      ([Q]); every reading is an explicit argument of the function that takes
      it, in the order the source takes them. The end time of a test is
      rounded to a double as line 95 computes it; comparisons and the
      differences of two readings are taken exactly.
    - Python [int]s are [Z]. A [multiprocessing.Value] is a cell of shared
      memory holding a C integer of the width of its typecode, with the
      wrap-around of ctypes written out, and the lock that comes with it.
    - The module globals are the fields of [World]; an endpoint maps a world
      to an outcome (a response or a raised exception), the next world and
      the list of operating-system effects it performed on worker processes.
    - A worker process is a small machine, one transition per access to the
      clock or to shared memory, so that workers and endpoints interleave. *)

From Stdlib Require Import ZArith QArith Qround Ascii String List Bool Lia Lqa.
From stdpp Require Import gmap strings.
Import ListNotations.

Local Open Scope string_scope.
Local Open Scope Z_scope.

(** ** Python values, exceptions *)

Module Py.

(** The values that the status dictionary holds. *)
Inductive pyval :=
| VBool (b : bool)
| VInt (z : Z)
| VFloat (q : Q).

(** Truth value of an object, as [if x] and [not x] compute it. *)
Definition truthy (v : pyval) : bool :=
  match v with
  | VBool b => b
  | VInt z => negb (z =? 0)
  | VFloat q => negb (Qeq_bool q 0)
  end.

(** Numeric value of an object in float arithmetic ([bool] is an [int]). *)
Definition num (v : pyval) : Q :=
  match v with
  | VBool b => if b then 1%Q else 0%Q
  | VInt z => inject_Z z
  | VFloat q => q
  end.

(** [x < y] and [x >= y] on floats. *)
Definition ltb (x y : Q) : bool := negb (Qle_bool y x).
Definition geb (x y : Q) : bool := Qle_bool y x.

(** [max(0, x)]: the first argument wins unless the second is larger. *)
Definition max0 (x : Q) : Q := if ltb 0 x then x else 0%Q.

(** [int(x)]: truncation toward zero. *)
Definition int (x : Q) : Z := Z.quot (Qnum x) (Zpos (Qden x)).

(** [s.lower()] on ASCII text. *)
Definition lower_ascii (c : ascii) : ascii :=
  let n := nat_of_ascii c in
  if ((65 <=? n) && (n <=? 90))%nat then ascii_of_nat (n + 32) else c.

Fixpoint lower (s : string) : string :=
  match s with
  | EmptyString => EmptyString
  | String c s' => String (lower_ascii c) (lower s')
  end.

(** *** Conversion to [float] and float addition *)

(** The double nearest to an integer, ties to even: below [2 ^ 53] the
    integer itself, beyond it the 53 leading bits rounded. *)
Definition nearest_double (z : Z) : Z :=
  let n := Z.abs z in
  if n <? 2 ^ 53 then z
  else
    let e := Z.log2 n - 52 in
    let q := n / 2 ^ e in
    let r := n mod 2 ^ e in
    let q' := if (2 ^ (e - 1) <? r) || ((r =? 2 ^ (e - 1)) && Z.odd q)
              then q + 1 else q in
    Z.sgn z * (q' * 2 ^ e).

(** [float(n)] for an [int], also where an [int] meets a [float] in an
    addition: the nearest double, and [None] where that is beyond the
    largest double and Python raises [OverflowError] (int too large to
    convert to float). *)
Definition float_of_int (z : Z) : option Q :=
  if Z.abs (nearest_double z) <? 2 ^ 1024
  then Some (inject_Z (nearest_double z))
  else None.

(** Whether a rational is a double: an integer of at most 53 bits times a
    power of two. *)
Definition is_double (q : Q) : bool :=
  let r := Qred q in
  let n := Z.abs (Qnum r) in
  let d := Zpos (Qden r) in
  (d =? 2 ^ Z.log2 d) && (n mod 2 ^ Z.max 0 (Z.log2 n - 52) =? 0).

(** The double nearest to a rational, ties to even: with [k] the binary
    exponent of [q], the quotient of [q] by [2 ^ (k - 52)] rounded to an
    integer, times [2 ^ (k - 52)]. *)
Definition nearest (q : Q) : Q :=
  let n := Z.abs (Qnum q) in
  let d := Zpos (Qden q) in
  let k0 := Z.log2 n - Z.log2 d in
  let k := if n * 2 ^ Z.max 0 (- k0) <? d * 2 ^ Z.max 0 k0 then k0 - 1 else k0 in
  let e := k - 52 in
  let num := n * 2 ^ Z.max 0 (- e) in
  let den := d * 2 ^ Z.max 0 e in
  let m := num / den in
  let r := num mod den in
  let m' := if (den <? 2 * r) || ((2 * r =? den) && Z.odd m) then m + 1 else m in
  Qred (inject_Z (Z.sgn (Qnum q) * m' * 2 ^ Z.max 0 e) / inject_Z (2 ^ Z.max 0 (- e))).

(** Rounding to a double: a double is left as it is. *)
Definition round_double (q : Q) : Q :=
  if is_double q then q else nearest q.

(** [x + y] on floats: the exact sum rounded to the nearest double. The
    range of the exponent is left out: a reading of the clock is within
    [2 ^ 63] seconds of the epoch, so that its sum with a double is below
    [2 ^ 1024 - 2 ^ 970] and rounds to a finite double. *)
Definition float_add (x y : Q) : Q := round_double (x + y).

Inductive exn :=
| HTTPException (status_code : Z) (detail : string)
| KeyError (key : string)
| OverflowError.

Inductive outcome (A : Type) :=
| Return (a : A)
| Raise (e : exn).
Arguments Return {A} a.
Arguments Raise {A} e.

End Py.
Import Py.

(** ** Shared memory: [multiprocessing.Value] *)

Definition loc := nat.
Definition pid := nat.

(** Typecodes used by the program: ['i'] is a C [int], ['b'] a [signed char]. *)
Inductive typecode := TInt | TByte.

Definition bits (t : typecode) : Z :=
  match t with TInt => 32 | TByte => 8 end.

(** Storing a Python integer in a C integer: ctypes does no overflow check,
    the value is reduced to the signed range of the type. *)
Definition wrap (t : typecode) (z : Z) : Z :=
  let m := 2 ^ bits t in
  let r := z mod m in
  if r <? m / 2 then r else r - m.

Definition INT_MAX : Z := 2147483647.
Definition INT_MIN : Z := -2147483648.

(** A synchronized value: the C integer and the owner of its lock. *)
Record Cell := {
  ctype : typecode;
  cval : Z;
  owner : option pid
}.

Definition Value (t : typecode) (init : Z) : Cell :=
  {| ctype := t; cval := wrap t init; owner := None |}.

Definition set_value (c : Cell) (z : Z) : Cell :=
  {| ctype := ctype c; cval := wrap (ctype c) z; owner := owner c |}.

Definition set_owner (c : Cell) (o : option pid) : Cell :=
  {| ctype := ctype c; cval := cval c; owner := o |}.

Abbreviation Shm := (gmap loc Cell).

(** [x.value]: in Python a reference always points to a live object; the
    default is for the addresses of the model that are not allocated. *)
Definition value_at (m : Shm) (l : loc) : Z :=
  match m !! l with Some c => cval c | None => 0 end.

Definition store_at (m : Shm) (l : loc) (z : Z) : Shm :=
  match m !! l with Some c => <[l := set_value c z]> m | None => m end.

(** Allocation of a new object: an address not in use. *)
Definition new_loc (m : Shm) : loc := fresh (dom m).

(** ** Worker processes *)

(** The arguments [cpu_worker] is started with. *)
Record WorkerArgs := {
  end_time : Q;
  load : Z;
  cycle_time : Q;
  iterations_ref : loc;
  stop_ref : loc
}.

(** A [multiprocessing.Process] handle. *)
Record Process := {
  proc_id : pid;
  proc_args : WorkerArgs
}.

(** Effects of the endpoints on processes and on shared memory. *)
Inductive event :=
| EStart (p : Process)
| ETerminate (p : pid)
| EJoin (p : pid) (timeout : Z)
| ENew (l : loc) (t : typecode).

(** ** The module globals and the environment of the process *)

Record Env := {
  STRESS_TEST_FLAG : option string;   (* os.environ.get("STRESS_TEST_FLAG") *)
  os_cpu_count : option Z             (* os.cpu_count() *)
}.

Record World := {
  cpu_stress_processes : list Process;
  global_iterations : option loc;
  stop_flag : option loc;
  cpu_stress_end_time : option Q;
  cpu_stress_status_data : gmap string pyval;
  shm : gmap loc Cell;       (* the Value objects created so far *)
  next_pid : pid             (* identity of the next Process object *)
}.

(** The globals as the module initialises them (lines 18-22). *)
Definition initial_world : World := {|
  cpu_stress_processes := [];
  global_iterations := None;
  stop_flag := None;
  cpu_stress_end_time := None;
  cpu_stress_status_data := ∅;
  shm := ∅;
  next_pid := 0%nat
|}.

(** [os.environ.get("STRESS_TEST_FLAG", "").lower() == "true"] *)
Definition stress_test_enabled (e : Env) : bool :=
  String.eqb (lower (default "" (STRESS_TEST_FLAG e))) "true".

Definition disabled : exn :=
  HTTPException 403 "CPU stress test feature is disabled".

Definition invalid_parameter : exn :=
  HTTPException 400 "Invalid duration or load parameter".

(** [d.get(k, dflt)] *)
Definition dict_get (d : gmap string pyval) (k : string) (dflt : pyval) : pyval :=
  default dflt (d !! k).

(** ** The endpoints *)

Module Endpoint.

Record StartResponse := {
  start_message : string;
  start_duration : Z;
  start_load : Z;
  start_workers : Z
}.

Record StopResponse := { stop_message : string }.

Record StatusResponse := {
  running : pyval;
  remaining_seconds : Z;
  iterations : Z
}.

Definition result (A : Type) : Type := outcome A * World * list event.

(** [for p in ps: p.terminate()] *)
Definition terminate_all (ps : list Process) : list event :=
  map (fun p => ETerminate (proc_id p)) ps.

(** [for p in ps: p.join(timeout=1)] *)
Definition join_all (ps : list Process) : list event :=
  map (fun p => EJoin (proc_id p) 1) ps.

(** The spawning loop of lines 112-116: [n] new processes, all with the
    same arguments, in the order they are started and appended. *)
Fixpoint spawn (n : nat) (a : WorkerArgs) (next : pid) : list Process :=
  match n with
  | O => []
  | S n' => {| proc_id := next; proc_args := a |} :: spawn n' a (S next)
  end.

(** [os.cpu_count() or 1] *)
Definition worker_count (e : Env) : Z :=
  match os_cpu_count e with
  | Some n => if n =? 0 then 1 else n
  | None => 1
  end.

(** [start_cpu_stress(duration, load)]; [t_end] and [t_start] are the two
    clock readings of lines 95 and 104. The sum of line 95 converts
    [duration] to a float: where that overflows the call ends there, with
    the old handles terminated and dropped and the counter and the stop flag
    already replaced, and nothing else changed. *)
Definition start_cpu_stress (e : Env) (t_end t_start : Q) (duration load : Z)
    (w : World) : result StartResponse :=
  if negb (stress_test_enabled e) then (Raise disabled, w, [])
  else if (duration <=? 0) || negb ((0 <=? load) && (load <=? 100)) then
    (Raise invalid_parameter, w, [])
  else
    (* Stop any existing stress test first. *)
    let killed :=
      match cpu_stress_processes w with
      | [] => []
      | ps => terminate_all ps
      end in
    (* Setup shared variables. *)
    let l_iter := new_loc (shm w) in
    let m1 := <[l_iter := Value TInt 0]> (shm w) in
    let l_stop := new_loc m1 in
    let m2 := <[l_stop := Value TByte 0]> m1 in
    match float_of_int duration with
    | None =>
    (Raise OverflowError,
     {| cpu_stress_processes := [];
        global_iterations := Some l_iter;
        stop_flag := Some l_stop;
        cpu_stress_end_time := cpu_stress_end_time w;
        cpu_stress_status_data := cpu_stress_status_data w;
        shm := m2;
        next_pid := next_pid w |},
     (killed ++ [ENew l_iter TInt; ENew l_stop TByte])%list)
    | Some d =>
    let t := float_add t_end d in
    let workers := worker_count e in
    let cycle := (1 # 10)%Q in
    let data : gmap string pyval :=
      <["running" := VBool true]>
      (<["start_time" := VFloat t_start]>
      (<["duration" := VInt duration]>
      (<["end_time" := VFloat t]>
      (<["load" := VInt load]>
      (<["workers" := VInt workers]> ∅))))) in
    let a := {| end_time := t; load := load; cycle_time := cycle;
                iterations_ref := l_iter; stop_ref := l_stop |} in
    let ps := spawn (Z.to_nat workers) a (next_pid w) in
    (Return {| start_message := "CPU stress test started";
               start_duration := duration;
               start_load := load;
               start_workers := workers |},
     {| cpu_stress_processes := ps;
        global_iterations := Some l_iter;
        stop_flag := Some l_stop;
        cpu_stress_end_time := Some t;
        cpu_stress_status_data := data;
        shm := m2;
        next_pid := (next_pid w + List.length ps)%nat |},
     (killed ++ [ENew l_iter TInt; ENew l_stop TByte] ++ map EStart ps)%list)
    end.

Definition stop_response : StopResponse :=
  {| stop_message := "CPU stress test stopped" |}.

(** [stop_cpu_stress()] *)
Definition stop_cpu_stress (e : Env) (w : World) : result StopResponse :=
  if negb (stress_test_enabled e) then (Raise disabled, w, [])
  else
    let m :=
      match stop_flag w with
      | Some l => store_at (shm w) l 1      (* stop_flag.value = True *)
      | None => shm w
      end in
    (Return stop_response,
     {| cpu_stress_processes := [];
        global_iterations := global_iterations w;
        stop_flag := stop_flag w;
        cpu_stress_end_time := cpu_stress_end_time w;
        cpu_stress_status_data :=
          <["running" := VBool false]> (cpu_stress_status_data w);
        shm := m;
        next_pid := next_pid w |},
     join_all (cpu_stress_processes w)).

(** [stress_status()]; [now] is the clock reading of line 155. Reading
    [global_iterations.value] takes the lock of the counter for the time of
    the read: the value seen is the one before or the one after the write of
    a worker, which is what reading the cell gives. *)
Definition stress_status (e : Env) (now : Q) (w : World) : result StatusResponse :=
  if negb (stress_test_enabled e) then (Raise disabled, w, [])
  else
    let d := cpu_stress_status_data w in
    let remaining : outcome Q :=
      if truthy (dict_get d "running" (VBool false)) then
        match d !! "end_time" with
        | Some v => Return (max0 (num v - now)%Q)
        | None => Raise (KeyError "end_time")
        end
      else Return 0%Q in
    match remaining with
    | Raise x => (Raise x, w, [])
    | Return remaining =>
      let iters :=
        match global_iterations w with
        | Some l => value_at (shm w) l
        | None => 0
        end in
      let d' :=
        if geb now (num (dict_get d "end_time" (VInt 0)))
        then <["running" := VBool false]> d
        else d in
      (Return {| running := dict_get d' "running" (VBool false);
                 remaining_seconds := int remaining;
                 iterations := iters |},
       {| cpu_stress_processes := cpu_stress_processes w;
          global_iterations := global_iterations w;
          stop_flag := stop_flag w;
          cpu_stress_end_time := cpu_stress_end_time w;
          cpu_stress_status_data := d';
          shm := shm w;
          next_pid := next_pid w |},
       [])
    end.

(** The two entries of the status dictionary that [stress_status] reads, as
    it reads them. *)
Definition running_now (w : World) : bool :=
  truthy (dict_get (cpu_stress_status_data w) "running" (VBool false)).

Definition deadline (w : World) : Q :=
  num (dict_get (cpu_stress_status_data w) "end_time" (VInt 0)).

(** What the endpoints maintain of the globals: ["running"] is absent or a
    [bool], a running test has its ["end_time"], and the counter and the
    stop flag are two objects. *)
Record consistent (w : World) : Prop := {
  running_bool :
    cpu_stress_status_data w !! "running" = None \/
    exists b, cpu_stress_status_data w !! "running" = Some (VBool b);
  running_end_time :
    running_now w = true -> is_Some (cpu_stress_status_data w !! "end_time");
  refs_distinct :
    forall l, global_iterations w = Some l -> stop_flag w <> Some l
}.

(** The state [stop_cpu_stress] leaves the flag in. *)
Definition stopped (w : World) : Prop :=
  cpu_stress_status_data w !! "running" = Some (VBool false).

End Endpoint.

(** ** The worker [cpu_worker] *)

Module Worker.

(** [busy_time = cycle_time * (load / 100)] and
    [idle_time = cycle_time - busy_time] (lines 30-31). *)
Definition busy_time (a : WorkerArgs) : Q :=
  (cycle_time a * (inject_Z (load a) / 100))%Q.

Definition idle_time (a : WorkerArgs) : Q :=
  (cycle_time a - busy_time a)%Q.

(** Program points of [cpu_worker], one per access to the clock, to shared
    memory or to the scheduler. [start_busy] is the local of line 33, [tmp]
    the value read by [global_iterations.value += 1] before it is written
    back. The computation of line 36 touches nothing shared and is part of
    the transition that enters the locked block. *)
Inductive pc :=
| OuterTime                          (* line 32: time.time() < end_time *)
| OuterStop                          (* line 32: not stop_flag.value *)
| BusyStart                          (* line 33 *)
| InnerTime (start_busy : Q)         (* line 35: time.time() - start_busy < busy_time *)
| InnerStop (start_busy : Q)         (* line 35: not stop_flag.value *)
| Acquire (start_busy : Q)           (* line 37: enter the lock *)
| ReadCtr (start_busy : Q)           (* line 38: read .value *)
| WriteCtr (start_busy : Q) (tmp : Z)  (* line 38: write .value *)
| Release (start_busy : Q)           (* line 37: leave the lock *)
| IdleStop                           (* line 39: not stop_flag.value *)
| Sleep                              (* line 40 *)
| Exited.

(** What a worker does that is not a memory access. *)
Inductive wevent :=
| WSleep (seconds : Q).

(** [stop_flag.value] as a condition. *)
Definition stop_set (a : WorkerArgs) (m : Shm) : bool :=
  negb (value_at m (stop_ref a) =? 0).

(** Line 39, first conjunct: [idle_time > 0] reads nothing shared, so the
    exit of the busy loop goes straight to the stop test or to the next
    cycle. *)
Definition after_busy (a : WorkerArgs) : pc :=
  if ltb 0 (idle_time a) then IdleStop else OuterTime.

Definition lock_free (m : Shm) (l : loc) : bool :=
  match m !! l with
  | Some c => match owner c with None => true | Some _ => false end
  | None => true
  end.

Definition with_owner (m : Shm) (l : loc) (o : option pid) : Shm :=
  match m !! l with Some c => <[l := set_owner c o]> m | None => m end.

(** One transition of worker [me]; [now] is what [time.time()] returns if
    the transition calls it. A worker waiting for the lock stays where it
    is. *)
Definition cpu_worker_step (a : WorkerArgs) (me : pid) (now : Q) (m : Shm)
    (s : pc) : pc * Shm * list wevent :=
  match s with
  | OuterTime =>
      (if ltb now (end_time a) then OuterStop else Exited, m, [])
  | OuterStop =>
      (if stop_set a m then Exited else BusyStart, m, [])
  | BusyStart =>
      (InnerTime now, m, [])
  | InnerTime sb =>
      (if ltb (now - sb)%Q (busy_time a) then InnerStop sb else after_busy a, m, [])
  | InnerStop sb =>
      (if stop_set a m then after_busy a else Acquire sb, m, [])
  | Acquire sb =>
      if lock_free m (iterations_ref a)
      then (ReadCtr sb, with_owner m (iterations_ref a) (Some me), [])
      else (Acquire sb, m, [])
  | ReadCtr sb =>
      (WriteCtr sb (value_at m (iterations_ref a)), m, [])
  | WriteCtr sb tmp =>
      (Release sb, store_at m (iterations_ref a) (tmp + 1), [])
  | Release sb =>
      (InnerTime sb, with_owner m (iterations_ref a) None, [])
  | IdleStop =>
      (if stop_set a m then OuterTime else Sleep, m, [])
  | Sleep =>
      (OuterTime, m, [WSleep (idle_time a)])
  | Exited =>
      (Exited, m, [])
  end.

(** A worker running alone: one clock reading per transition. *)
Fixpoint cpu_worker (a : WorkerArgs) (me : pid) (clock : list Q) (m : Shm)
    (s : pc) : pc * Shm * list wevent :=
  match clock with
  | [] => (s, m, [])
  | now :: clock' =>
      let '(s1, m1, ev1) := cpu_worker_step a me now m s in
      let '(s2, m2, ev2) := cpu_worker a me clock' m1 s1 in
      (s2, m2, (ev1 ++ ev2)%list)
  end.

(** A bound on the number of transitions left before the worker exits once
    the stop flag is set: the longest path is from the entry of the locked
    block through the end of the current cycle to the test of line 32. *)
Definition steps_to_exit (s : pc) : nat :=
  match s with
  | Exited => 0
  | OuterStop => 1
  | OuterTime => 2
  | IdleStop => 3
  | Sleep => 3
  | InnerStop _ => 4
  | InnerTime _ => 5
  | Release _ => 6
  | BusyStart => 6
  | WriteCtr _ _ => 7
  | ReadCtr _ => 8
  | Acquire _ => 9
  end.

(** The readings of the transitions to come are past the busy phase the
    worker at [s] is in or is about to enter: each is at least [busy_time]
    after [start_busy], which a worker before line 33 has yet to read (on
    its first transition from line 33, on its second from the stop test of
    line 32). *)
Definition busy_phase_over (a : WorkerArgs) (s : pc) (clock : list Q) : Prop :=
  let over (sb : Q) := Forall (fun now => (busy_time a <= now - sb)%Q) in
  match s with
  | OuterStop =>
      match clock with _ :: sb :: rest => over sb rest | _ => True end
  | BusyStart =>
      match clock with sb :: rest => over sb rest | [] => True end
  | InnerTime sb | InnerStop sb | Acquire sb
  | ReadCtr sb | WriteCtr sb _ | Release sb => over sb clock
  | _ => True
  end.

(** A bound on the number of transitions left before the worker exits once
    the clock is past the end time and past the busy phase: the longest path
    is from the stop test of line 35 through the locked block and the idle
    phase to the test of line 32. *)
Definition steps_past_deadline (s : pc) : nat :=
  match s with
  | Exited => 0
  | OuterTime => 1
  | Sleep => 2
  | IdleStop => 3
  | InnerTime _ => 4
  | Release _ => 5
  | BusyStart => 5
  | WriteCtr _ _ => 6
  | OuterStop => 6
  | ReadCtr _ => 7
  | Acquire _ => 8
  | InnerStop _ => 9
  end.

End Worker.

(** ** The whole system: the endpoints and the worker processes *)

Module System.
Import Endpoint Worker.

(** A process of the operating system running [cpu_worker]. [terminate()]
    is taken to kill at once: a process that is not [alive] makes no more
    transitions. *)
Record Proc := {
  args : WorkerArgs;
  at_pc : pc;
  alive : bool
}.

Record System := {
  world : World;
  procs : gmap pid Proc;
  clock : Q                 (* the last reading any process took *)
}.

Definition initial : System :=
  {| world := initial_world; procs := ∅; clock := 0%Q |}.

(** What can happen next: a worker makes one transition, or a request is
    served by an endpoint. *)
Inductive action :=
| Tick (p : pid) (now : Q)
| CallStart (e : Env) (t_end t_start : Q) (duration load : Z)
| CallStop (e : Env)
| CallStatus (e : Env) (now : Q).

Definition killed (pr : Proc) : Proc :=
  {| args := args pr; at_pc := at_pc pr; alive := false |}.

Definition apply_event (ps : gmap pid Proc) (ev : event) : gmap pid Proc :=
  match ev with
  | EStart p =>
      <[proc_id p := {| args := proc_args p; at_pc := OuterTime; alive := true |}]> ps
  | ETerminate p => alter killed p ps
  | EJoin _ _ => ps
  | ENew _ _ => ps
  end.

Definition with_shm (w : World) (m : Shm) : World :=
  {| cpu_stress_processes := cpu_stress_processes w;
     global_iterations := global_iterations w;
     stop_flag := stop_flag w;
     cpu_stress_end_time := cpu_stress_end_time w;
     cpu_stress_status_data := cpu_stress_status_data w;
     shm := m;
     next_pid := next_pid w |}.

Definition served {A} (r : result A) (s : System) (now : Q) : System :=
  {| world := snd (fst r);
     procs := foldl apply_event (procs s) (snd r);
     clock := now |}.

Definition exec (s : System) (a : action) : System :=
  match a with
  | Tick p now =>
      match procs s !! p with
      | Some pr =>
          if alive pr then
            let r := cpu_worker_step (args pr) p now (shm (world s)) (at_pc pr) in
            {| world := with_shm (world s) (snd (fst r));
               procs := <[p := {| args := args pr; at_pc := fst (fst r); alive := true |}]> (procs s);
               clock := now |}
          else s
      | None => s
      end
  | CallStart e t_end t_start duration load =>
      served (start_cpu_stress e t_end t_start duration load (world s)) s t_start
  | CallStop e =>
      served (stop_cpu_stress e (world s)) s (clock s)
  | CallStatus e now =>
      served (stress_status e now (world s)) s now
  end.

Definition run (s : System) (sched : list action) : System :=
  foldl exec s sched.

(** The clock does not run backwards: every reading an action takes is at
    least the last one taken. *)
Definition timely (s : System) (a : action) : Prop :=
  match a with
  | Tick _ now => (clock s <= now)%Q
  | CallStart _ t_end t_start _ _ => (clock s <= t_end)%Q /\ (t_end <= t_start)%Q
  | CallStop _ => True
  | CallStatus _ now => (clock s <= now)%Q
  end.

Definition is_start (a : action) : bool :=
  match a with
  | CallStart _ _ _ _ _ => true
  | _ => false
  end.

Inductive reachable : System -> Prop :=
| reach_initial : reachable initial
| reach_exec (s : System) (a : action) :
    reachable s -> timely s a -> reachable (exec s a).

(** *** Invariants of the system *)

(** A shared cell of a given typecode. *)
Definition has_type (m : Shm) (l : loc) (t : typecode) : Prop :=
  exists c, m !! l = Some c /\ ctype c = t.

(** [start_busy] was read from the clock. *)
Definition started_before (now : Q) (s : pc) : Prop :=
  match s with
  | InnerTime sb | InnerStop sb | Acquire sb
  | ReadCtr sb | WriteCtr sb _ | Release sb => (sb <= now)%Q
  | _ => True
  end.

(** Inside the block of line 37 the worker owns the lock of the counter,
    and what it read is what the counter holds; outside it does not own the
    lock. *)
Definition lock_ok (p : pid) (m : Shm) (a : WorkerArgs) (s : pc) : Prop :=
  match s with
  | ReadCtr _ | Release _ =>
      (m !! iterations_ref a) ≫= owner = Some p
  | WriteCtr _ tmp =>
      (m !! iterations_ref a) ≫= owner = Some p /\
      tmp = value_at m (iterations_ref a)
  | _ => (m !! iterations_ref a) ≫= owner <> Some p
  end.

(** Program points inside the block of line 37. *)
Definition holds_lock (s : pc) : bool :=
  match s with
  | ReadCtr _ | WriteCtr _ _ | Release _ => true
  | _ => false
  end.

(** Program points outside the body of the busy loop. *)
Definition outside_busy_body (s : pc) : Prop :=
  match s with
  | InnerStop _ | Acquire _ | ReadCtr _ | WriteCtr _ _ | Release _ => False
  | _ => True
  end.

(** Program points outside the idle phase. *)
Definition outside_idle (s : pc) : Prop :=
  match s with
  | IdleStop | Sleep => False
  | _ => True
  end.

Record invariant (s : System) : Prop := {
  inv_consistent : consistent (world s);
  inv_counter :
    forall l, global_iterations (world s) = Some l ->
      has_type (shm (world s)) l TInt;
  inv_flag :
    forall l, stop_flag (world s) = Some l ->
      has_type (shm (world s)) l TByte;
  inv_refs :
    forall p pr, procs s !! p = Some pr ->
      has_type (shm (world s)) (iterations_ref (args pr)) TInt /\
      has_type (shm (world s)) (stop_ref (args pr)) TByte;
  inv_clock :
    forall p pr, procs s !! p = Some pr ->
      started_before (clock s) (at_pc pr);
  inv_lock :
    forall p pr, procs s !! p = Some pr ->
      lock_ok p (shm (world s)) (args pr) (at_pc pr);
  inv_load_0 :
    forall p pr, procs s !! p = Some pr ->
      load (args pr) = 0 -> outside_busy_body (at_pc pr);
  inv_load_100 :
    forall p pr, procs s !! p = Some pr ->
      load (args pr) = 100 -> outside_idle (at_pc pr)
}.

(** What [stress_status] answers in a state of the system. *)
Definition status_of (e : Env) (now : Q) (s : System) : outcome StatusResponse :=
  fst (fst (stress_status e now (world s))).

End System.

(** ** Scenarios

    Concrete environments and states, used to run the model. *)

Module Scenario.
Import Endpoint Worker System.

(** The environment of the test-suite: the feature flag is set to ["true"]
    (fixture [set_stress_flag] of [test_main.py]); two cores. *)
Definition test_env : Env :=
  {| STRESS_TEST_FLAG := Some "true"; os_cpu_count := Some 2 |}.

(** [start_cpu_stress(duration=2, load=50)] at time 0 on a fresh module. *)
Definition started_2_50 : World :=
  snd (fst (start_cpu_stress test_env 0 0 2 50 initial_world)).


(** One core and a long test at full load:
    [start_cpu_stress(duration=1000000, load=100)] at time 0, after which
    the only worker passes the two tests of line 32, reads [start_busy] and
    goes [n] times round the busy loop (six transitions each) while the
    clock still reads 0. *)
Definition one_core : Env :=
  {| STRESS_TEST_FLAG := Some "true"; os_cpu_count := Some 1 |}.

Definition long_run : System :=
  exec initial (CallStart one_core 0 0 1000000 100).

Definition long_args : WorkerArgs :=
  {| end_time := 0 + inject_Z 1000000; load := 100; cycle_time := 1 # 10;
     iterations_ref := 0%nat; stop_ref := 1%nat |}.

Definition counting (n : nat) : list action :=
  CallStart one_core 0 0 1000000 100 :: map (Tick 0%nat) (repeat 0%Q (3 + 6 * n)).

Definition counted (n : nat) : System := run initial (counting n).

(** [start_cpu_stress(duration=2, load=0)] at time 0: one idle worker. *)
Definition idle_run : System :=
  exec initial (CallStart one_core 0 0 2 0).

Definition idle_args : WorkerArgs :=
  {| end_time := 0 + inject_Z 2; load := 0; cycle_time := 1 # 10;
     iterations_ref := 0%nat; stop_ref := 1%nat |}.

(** The long test, stopped. *)
Definition long_run_stopped : System := exec long_run (CallStop one_core).

(** One more turn of the busy loop. *)
Definition one_more : list action := map (Tick 0%nat) (repeat 0%Q 6).

End Scenario.

(** ** The home page *)

Module Home.

(** What [home] hands to the template engine: the name of the template and
    the flag of the context (the request object aside). *)
Record TemplateResponse := {
  template : string;
  context_stress_test_enabled : bool
}.

(** [home(request)] (lines 43-46) *)
Definition home (e : Env) : TemplateResponse :=
  {| template := "index.html";
     context_stress_test_enabled :=
       String.eqb (lower (default "" (STRESS_TEST_FLAG e))) "true" |}.

End Home.

(** ** The weather endpoint *)

Module Weather.

(** A Python [float]: a finite number, or one of [inf], [-inf] and [nan]. *)
Inductive pyfloat :=
| Finite (q : Q)
| NonFinite.

(** What [response.json()] returns: the Python objects a JSON text decodes
    to. A float that is not finite is what the decoder makes of the literals
    [NaN] and [Infinity] and of a number beyond the range of a double, such
    as [1e999]. A [str] is held as the bytes of its UTF-8 encoding; a lone
    surrogate, which a [str] can hold and JSON can spell (as in ["\ud800"]),
    as the three bytes that scheme gives a code point of its range, [ED A0
    80] to [ED BF BF]. *)
#[warnings="-register-all"]
Inductive json :=
| JNone
| JBool (b : bool)
| JInt (z : Z)
| JFloat (f : pyfloat)
| JStr (s : string)
| JList (l : list json)
| JDict (d : gmap string json).

(** The exceptions the endpoint can end with: those of [Py.exn] (an
    [HTTPException], a [KeyError] for a text key, an [OverflowError]),
    [KeyError: 0] for a dictionary subscripted with 0, and the others by
    their Python names; [RequestException] is any failure of [requests.get]
    itself. *)
Inductive raised :=
| Exn (x : exn)
| KeyError0
| IndexError
| TypeError
| AttributeError
| ValueError
| UnicodeEncodeError
| JSONDecodeError
| RequestException.

Inductive res (A : Type) :=
| Ok (a : A)
| Err (x : raised).
Arguments Ok {A} a.
Arguments Err {A} x.

Definition bind {A B : Type} (m : res A) (k : A -> res B) : res B :=
  match m with
  | Ok a => k a
  | Err x => Err x
  end.

Notation "x <- m ;; k" := (bind m (fun x => k))
  (at level 200, m at level 99, k at level 200, only parsing).

(** The answer of wttr.in as [requests.get] hands it over; [json_body] is
    [None] when the body is not JSON and [response.json()] raises. *)
Record Response := {
  status_code : Z;
  json_body : option json
}.

(** [v[k]] for a text key [k]. *)
Definition subscript (v : json) (k : string) : res json :=
  match v with
  | JDict d =>
      match d !! k with
      | Some x => Ok x
      | None => Err (Exn (KeyError k))
      end
  | _ => Err TypeError
  end.

(** The first character of a text: one to four bytes, by the first byte. *)
Definition first_char (s : string) : string :=
  match s with
  | EmptyString => EmptyString
  | String c _ =>
      let n := nat_of_ascii c in
      substring 0 (if (n <? 192)%nat then 1
                   else if (n <? 224)%nat then 2
                   else if (n <? 240)%nat then 3 else 4) s
  end.

(** [v[0]] *)
Definition subscript_0 (v : json) : res json :=
  match v with
  | JList (x :: _) => Ok x
  | JList [] => Err IndexError
  | JDict _ => Err KeyError0
  | JStr (String c s) => Ok (JStr (first_char (String c s)))
  | JStr EmptyString => Err IndexError
  | _ => Err TypeError
  end.

(** [v.get(k, dflt)]; [v.get(k)] is [v.get(k, None)]. Only dictionaries have
    the method. *)
Definition get (v : json) (k : string) (dflt : json) : res json :=
  match v with
  | JDict d => Ok (default dflt (d !! k))
  | _ => Err AttributeError
  end.

(** Truth value of an object. *)
Definition truthy (v : json) : bool :=
  match v with
  | JNone => false
  | JBool b => b
  | JInt z => negb (z =? 0)
  | JFloat (Finite q) => negb (Qeq_bool q 0)
  | JFloat NonFinite => true
  | JStr s => negb (String.eqb s "")
  | JList l => match l with [] => false | _ => true end
  | JDict d => negb (bool_decide (d = ∅))
  end.

(** Whether an object holds no float that is not finite, at any depth: what
    [json.dumps(..., allow_nan=False)] accepts. *)
Fixpoint finite (v : json) : bool :=
  match v with
  | JFloat NonFinite => false
  | JList l => forallb finite l
  | JDict d => map_fold (fun _ x b => finite x && b) true d
  | _ => true
  end.

Definition finite_float (f : pyfloat) : bool :=
  match f with Finite _ => true | NonFinite => false end.

(** Whether [s.encode("utf-8")] succeeds: the text holds no surrogate. The
    byte [ED] only ever starts a character, and that character is a
    surrogate when the next byte is [A0] or more. *)
Fixpoint encodable (s : string) : bool :=
  match s with
  | String c1 (String c2 _ as rest) =>
      if ((nat_of_ascii c1 =? 237) && (160 <=? nat_of_ascii c2))%nat
      then false
      else encodable rest
  | _ => true
  end.

(** Whether every text of an object, the keys of its dictionaries among
    them, can be encoded. *)
Fixpoint encodable_json (v : json) : bool :=
  match v with
  | JStr s => encodable s
  | JList l => forallb encodable_json l
  | JDict d => map_fold (fun k x b => encodable k && encodable_json x && b) true d
  | _ => true
  end.

Section Float.

(** [float(s)] on text is the parser of the Python runtime, taken as given:
    [None] where it raises [ValueError]. *)
Variable parse_float : string -> option pyfloat.

(** [float(v)]. An [int] converts to the nearest double unless that is
    beyond the range of a double ([OverflowError]); a [bool] is an [int]. *)
Definition float (v : json) : res pyfloat :=
  match v with
  | JStr s =>
      match parse_float s with
      | Some f => Ok f
      | None => Err ValueError
      end
  | JInt z =>
      match float_of_int z with
      | Some q => Ok (Finite q)
      | None => Err (Exn OverflowError)
      end
  | JFloat f => Ok f
  | JBool b => Ok (Finite (if b then 1%Q else 0%Q))
  | _ => Err TypeError
  end.

(** The content of the JSON response (lines 63-69). *)
Record WeatherData := {
  location : json;
  temperature : json;
  description : json;
  lat : pyfloat;
  lon : pyfloat
}.

(** [JSONResponse(content=weather_data)] (line 70) renders the content when
    it is built: [json.dumps(content, ensure_ascii=False, allow_nan=False)]
    refuses a float that is not finite, anywhere in the content, with
    [ValueError], and the UTF-8 encoding of its result then refuses a
    surrogate with [UnicodeEncodeError]. *)
Definition json_response (content : WeatherData) : res WeatherData :=
  if negb (finite (location content) && finite (temperature content)
           && finite (description content)
           && finite_float (lat content) && finite_float (lon content))
  then Err ValueError
  else if negb (encodable_json (location content)
                && encodable_json (temperature content)
                && encodable_json (description content))
  then Err UnicodeEncodeError
  else Ok content.

(** [f"http://wttr.in/{location}?format=j1"] *)
Definition url (place : string) : string :=
  ("http://wttr.in/" ++ place ++ "?format=j1")%string.

Definition not_found (code : Z) : raised :=
  Exn (HTTPException code "Weather data not found").

Definition unexpected_format : raised :=
  Exn (HTTPException 500 "Unexpected response format from weather service").

(** The two assignments of the [try] block (lines 59-60). *)
Definition condition_and_area (data : json) : res (json * json) :=
  conditions <- subscript data "current_condition" ;;
  current <- subscript_0 conditions ;;
  area <- get data "nearest_area" JNone ;;
  nearest_area <-
    (if truthy area
     then areas <- subscript data "nearest_area" ;; subscript_0 areas
     else Ok (JDict ∅)) ;;
  Ok (current, nearest_area).

(** The dictionary built on lines 63-69, its values computed in order. *)
Definition weather_data (place : string) (current nearest_area : json)
    : res WeatherData :=
  names <- get nearest_area "areaName" (JList [JDict ∅]) ;;
  name <- subscript_0 names ;;
  loc <- get name "value" (JStr place) ;;
  temp <- get current "temp_C" JNone ;;
  descs <- get current "weatherDesc" (JList [JDict ∅]) ;;
  desc <- subscript_0 descs ;;
  text <- get desc "value" JNone ;;
  la <- get nearest_area "latitude" (JInt 0) ;;
  la <- float la ;;
  lo <- get nearest_area "longitude" (JInt 0) ;;
  lo <- float lo ;;
  Ok {| location := loc; temperature := temp; description := text;
        lat := la; lon := lo |}.

(** [weather(location)]; [requests_get] is the network as the call finds
    it. *)
Definition weather (requests_get : string -> res Response) (place : string)
    : res WeatherData :=
  response <- requests_get (url place) ;;
  if negb (status_code response =? 200) then Err (not_found (status_code response))
  else
    data <- match json_body response with
            | Some data => Ok data
            | None => Err JSONDecodeError
            end ;;
    match condition_and_area data with
    | Err (Exn (KeyError _)) | Err KeyError0 | Err IndexError =>
        Err unexpected_format
    | Err x => Err x
    | Ok (current, nearest_area) =>
        content <- weather_data place current nearest_area ;;
        json_response content
    end.

End Float.

(** The decoded bodies on which the [try] block of lines 58-62 ends with a
    [KeyError] or an [IndexError]: a dictionary whose ["current_condition"]
    is absent, an empty list, an empty text or a dictionary, or else whose
    ["nearest_area"] is a dictionary that is not empty. *)
Definition malformed (data : json) : Prop :=
  exists d, data = JDict d /\
    match d !! "current_condition" with
    | None | Some (JList []) | Some (JStr EmptyString) | Some (JDict _) => True
    | Some (JList (_ :: _)) | Some (JStr (String _ _)) =>
        exists d', d !! "nearest_area" = Some (JDict d') /\ d' <> ∅
    | Some _ => False
    end.

(** The answer the test-suite feeds the endpoint ([dummy_get] of
    [test_weather_endpoint]), and a [float] that knows its two numbers. *)
Definition dummy_data : json :=
  JDict (<["current_condition" :=
             JList [JDict (<["temp_C" := JStr "20"]>
                          (<["weatherDesc" :=
                               JList [JDict (<["value" := JStr "Sunny"]> ∅)]]> ∅))]]>
        (<["nearest_area" :=
             JList [JDict (<["areaName" :=
                               JList [JDict (<["value" := JStr "TestCity"]> ∅)]]>
                          (<["latitude" := JStr "40.0"]>
                          (<["longitude" := JStr "-74.0"]> ∅)))]]> ∅)).

Definition dummy_get (u : string) : res Response :=
  Ok {| status_code := 200; json_body := Some dummy_data |}.

Definition dummy_float (s : string) : option pyfloat :=
  if String.eqb s "40.0" then Some (Finite 40)
  else if String.eqb s "-74.0" then Some (Finite (-74))
  else None.

End Weather.

(** ** Requests and states used to state further properties *)

Module Requests.
Import Endpoint Worker System.

(** An action that cannot start a test: anything but a call of
    [start_cpu_stress] that passes the gate and the validation. *)
Definition starts_nothing (a : action) : Prop :=
  match a with
  | CallStart e _ _ duration load =>
      stress_test_enabled e = false \/ duration <= 0 \/ load < 0 \/ 100 < load
  | _ => True
  end.

(** What [stress_status] answers on a module that has no test to report. *)
Definition nothing_to_report : StatusResponse :=
  {| running := VBool false; remaining_seconds := 0; iterations := 0 |}.

(** The value of the counter the globals refer to, 0 without one (line 160). *)
Definition current_count (w : World) : Z :=
  match global_iterations w with
  | Some l => value_at (shm w) l
  | None => 0
  end.

(** The three shapes of the globals: before any call of [start_cpu_stress]
    got past the validation; after calls that did and ended on line 95,
    which have replaced the counter and the stop flag and recorded nothing;
    and once a test was started. Its [end_time] is the float sum of a clock
    reading, taken before the one stored as [start_time], and the
    duration. *)
Definition never_started (w : World) : Prop :=
  cpu_stress_end_time w = None /\
  global_iterations w = None /\
  stop_flag w = None /\
  forall k, k <> "running" -> cpu_stress_status_data w !! k = None.

Definition start_failed (w : World) : Prop :=
  cpu_stress_end_time w = None /\
  (exists li ls,
     global_iterations w = Some li /\ stop_flag w = Some ls /\ li <> ls) /\
  forall k, k <> "running" -> cpu_stress_status_data w !! k = None.

Definition started (w : World) : Prop :=
  exists t ts dur ld n li ls t0 d,
    cpu_stress_end_time w = Some t /\
    cpu_stress_status_data w !! "end_time" = Some (VFloat t) /\
    cpu_stress_status_data w !! "start_time" = Some (VFloat ts) /\
    cpu_stress_status_data w !! "duration" = Some (VInt dur) /\
    cpu_stress_status_data w !! "load" = Some (VInt ld) /\
    cpu_stress_status_data w !! "workers" = Some (VInt n) /\
    0 < dur < 2 ^ 1024 - 2 ^ 970 /\ 0 <= ld <= 100 /\
    float_of_int dur = Some d /\ t = float_add t0 d /\ (t0 <= ts)%Q /\
    global_iterations w = Some li /\ stop_flag w = Some ls /\ li <> ls.

(** Program points from which the write of line 38 is still to come without
    another test of the stop flag. *)
Definition increment_pending (s : pc) : bool :=
  match s with
  | Acquire _ | ReadCtr _ | WriteCtr _ _ => true
  | _ => false
  end.

(** The first worker of the test below, after six transitions at time 0:
    through the two tests of line 32, line 33, the two tests of line 35 and
    into the locked block. *)
Definition in_locked_block : list action :=
  map (Tick 0%nat) (repeat 0%Q 6).

(** A test of 2 seconds at half load started at time 0 on two cores. *)
Definition two_workers : System :=
  exec initial (CallStart Scenario.test_env 0 0 2 50).

End Requests.

(** * Properties *)

Import Endpoint Worker System Scenario.

(** ** Arithmetic of the embedding *)

Lemma ltb_lt (x y : Q) : ltb x y = true <-> (x < y)%Q.
Proof.
  unfold ltb. rewrite negb_true_iff, <- not_true_iff_false, Qle_bool_iff.
  split; [apply Qnot_le_lt | apply Qlt_not_le].
Qed.

Lemma ltb_ge (x y : Q) : ltb x y = false <-> (y <= x)%Q.
Proof. unfold ltb. rewrite negb_false_iff. apply Qle_bool_iff. Qed.

Lemma geb_le (x y : Q) : geb x y = true <-> (y <= x)%Q.
Proof. apply Qle_bool_iff. Qed.


Lemma max0_nonneg (x : Q) : (0 <= max0 x)%Q.
Proof.
  unfold max0. destruct (ltb 0 x) eqn:E.
  - apply Qlt_le_weak, ltb_lt, E.
  - apply Qle_refl.
Qed.

(** On a non-negative float [int] is the floor. *)
Lemma int_floor (x : Q) : (0 <= x)%Q -> int x = Qfloor x.
Proof.
  destruct x as [n d]. unfold Qle, int, Qfloor. simpl. intros H.
  apply Z.quot_div_nonneg; lia.
Qed.

Lemma int_nonneg (x : Q) : (0 <= x)%Q -> 0 <= int x.
Proof.
  destruct x as [n d]. unfold Qle, int. simpl. intros H.
  apply Z.quot_pos; lia.
Qed.

Lemma wrap_small (t : typecode) (z : Z) :
  - 2 ^ (bits t - 1) <= z < 2 ^ (bits t - 1) -> wrap t z = z.
Proof.
  intros H. unfold wrap.
  destruct t; simpl bits in *;
    change (2 ^ 32) with 4294967296 in *; change (2 ^ (32 - 1)) with 2147483648 in *;
    change (2 ^ 8) with 256 in *; change (2 ^ (8 - 1)) with 128 in *;
    cbv zeta; case Z.ltb_spec; intros; Z.to_euclidean_division_equations; lia.
Qed.

Lemma wrap_one (t : typecode) : wrap t 1 = 1.
Proof. destruct t; reflexivity. Qed.


(** ** Conversion of an [int] to a [float] *)

Lemma nearest_double_small (z : Z) : Z.abs z < 2 ^ 53 -> nearest_double z = z.
Proof.
  intros H. unfold nearest_double.
  destruct (Z.ltb_spec (Z.abs z) (2 ^ 53)); [reflexivity | lia].
Qed.

(** The rounded integer is below [2 ^ 1024] exactly when the integer is
    below [2 ^ 1024 - 2 ^ 970], the midpoint between the largest double and
    [2 ^ 1024]. *)
Lemma nearest_double_range (z : Z) :
  Z.abs (nearest_double z) < 2 ^ 1024 <-> Z.abs z < 2 ^ 1024 - 2 ^ 970.
Proof.
  assert (E1024 : 2 ^ 1024 = 2 ^ 970 * 18014398509481984).
  { change 18014398509481984 with (2 ^ 54). rewrite <- Z.pow_add_r by lia. reflexivity. }
  assert (E1023 : 2 ^ 1023 = 2 ^ 970 * 9007199254740992).
  { change 9007199254740992 with (2 ^ 53). rewrite <- Z.pow_add_r by lia. reflexivity. }
  assert (E971 : 2 ^ 971 = 2 ^ 970 * 2).
  { change 2 with (2 ^ 1) at 3. rewrite <- Z.pow_add_r by lia. reflexivity. }
  assert (E53 : 9007199254740992 <= 2 ^ 970).
  { change 9007199254740992 with (2 ^ 53). apply Z.pow_le_mono_r; lia. }
  unfold nearest_double. rewrite E1024.
  change (2 ^ 53) with 9007199254740992.
  set (n := Z.abs z).
  destruct (Z.ltb_spec n 9007199254740992) as [Hs | Hs].
  { fold n. set (h := 2 ^ 970) in *. clearbody h. lia. }
  assert (Hn : 0 < n) by lia.
  pose proof (Z.log2_spec n Hn) as [Hlo Hhi].
  set (L := Z.log2 n) in *.
  assert (HL : 53 <= L).
  { destruct (Z.le_gt_cases 53 L) as [|Hlt]; [assumption|].
    assert (H : 2 ^ Z.succ L <= 2 ^ 53) by (apply Z.pow_le_mono_r; lia).
    change (2 ^ 53) with 9007199254740992 in H. lia. }
  set (e := L - 52).
  assert (He : 2 ^ L = 2 ^ e * 4503599627370496).
  { change 4503599627370496 with (2 ^ 52). rewrite <- Z.pow_add_r by lia.
    f_equal. lia. }
  assert (He' : 2 ^ Z.succ L = 2 ^ e * 9007199254740992).
  { change 9007199254740992 with (2 ^ 53). rewrite <- Z.pow_add_r by lia.
    f_equal. lia. }
  assert (Hpe : 0 < 2 ^ e) by (apply Z.pow_pos_nonneg; lia).
  pose proof (Z.div_mod n (2 ^ e) ltac:(lia)) as Hdm.
  pose proof (Z.mod_pos_bound n (2 ^ e) Hpe) as Hr.
  set (q := n / 2 ^ e) in *. set (r := n mod 2 ^ e) in *.
  assert (Hq : 4503599627370496 <= q < 9007199254740992).
  { rewrite He in Hlo. rewrite He' in Hhi. split.
    - destruct (Z.le_gt_cases 4503599627370496 q) as [|Hlt]; [assumption|].
      assert (H : 2 ^ e * (q + 1) <= 2 ^ e * 4503599627370496)
        by (apply Z.mul_le_mono_nonneg_l; lia).
      lia.
    - destruct (Z.lt_ge_cases q 9007199254740992) as [|Hge]; [assumption|].
      assert (H : 2 ^ e * 9007199254740992 <= 2 ^ e * q)
        by (apply Z.mul_le_mono_nonneg_l; lia).
      lia. }
  set (q' := if (2 ^ (e - 1) <? r) || ((r =? 2 ^ (e - 1)) && Z.odd q) then q + 1 else q).
  assert (Hq' : q <= q' <= q + 1).
  { unfold q'. destruct (_ || _); lia. }
  assert (Hnn : 0 <= q' * 2 ^ e) by (apply Z.mul_nonneg_nonneg; lia).
  assert (Habs : Z.abs (Z.sgn z * (q' * 2 ^ e)) = q' * 2 ^ e).
  { destruct z as [|z0|z0]; cbn [Z.sgn].
    - unfold n in Hn. cbn in Hn. lia.
    - lia.
    - lia. }
  rewrite Habs.
  assert (Hup : q' * 2 ^ e <= 9007199254740992 * 2 ^ e)
    by (apply Z.mul_le_mono_nonneg_r; lia).
  assert (Hdn : 4503599627370496 * 2 ^ e <= q' * 2 ^ e)
    by (apply Z.mul_le_mono_nonneg_r; lia).
  destruct (Z.lt_trichotomy L 1023) as [Hlt | [Heq | Hgt]].
  - (* below the last binade *)
    assert (H1 : 2 ^ Z.succ L <= 2 ^ 1023) by (apply Z.pow_le_mono_r; lia).
    rewrite He', E1023 in H1. rewrite He' in Hhi.
    set (h := 2 ^ 970) in *. clearbody h.
    set (pe := 2 ^ e) in *. clearbody pe q' r q.
    split; intros _; lia.
  - (* the last binade *)
    assert (Ee : e = 971) by lia.
    assert (Ee1 : e - 1 = 970) by lia.
    unfold q' in *. clear Habs. rewrite Ee1 in *. rewrite Ee in *.
    rewrite E971 in *.
    set (h := 2 ^ 970) in *. clearbody h. clearbody r.
    destruct (Z.le_gt_cases q 9007199254740990) as [Hsmall | Hbig].
    + assert (Ha : (h * 2) * q <= (h * 2) * 9007199254740990)
        by (apply Z.mul_le_mono_nonneg_l; lia).
      clear Hup Hdn Hnn.
      set (q1 := if (h <? r) || (r =? h) && Z.odd q then q + 1 else q) in *.
      assert (Hb : q1 * (h * 2) <= 9007199254740991 * (h * 2))
        by (apply Z.mul_le_mono_nonneg_r; lia).
      clearbody q1. split; intros _; lia.
    + assert (Eq : q = 9007199254740991) by lia.
      clear Hup Hdn Hnn Hq'. clearbody q. subst q.
      change (Z.odd 9007199254740991) with true. rewrite andb_true_r.
      destruct (Z.ltb_spec h r) as [Hc | Hc]; cbn [orb].
      * split; intros H; lia.
      * destruct (Z.eqb_spec r h) as [-> | Hc']; split; intros H; lia.
  - (* beyond *)
    assert (H1 : 2 ^ 1024 <= 2 ^ L) by (apply Z.pow_le_mono_r; lia).
    rewrite E1024, He in H1. rewrite He in Hlo.
    set (h := 2 ^ 970) in *. clearbody h.
    set (pe := 2 ^ e) in *. clearbody pe q' r q.
    split; intros H; lia.
Qed.

Lemma float_of_int_overflow (z : Z) :
  float_of_int z = None <-> 2 ^ 1024 - 2 ^ 970 <= Z.abs z.
Proof.
  unfold float_of_int. pose proof (nearest_double_range z) as H.
  destruct (Z.ltb_spec (Z.abs (nearest_double z)) (2 ^ 1024)) as [Hlt | Hge].
  - split; [discriminate | lia].
  - split; [lia | reflexivity].
Qed.

Lemma float_of_int_small (z : Z) :
  Z.abs z < 2 ^ 53 -> float_of_int z = Some (inject_Z z).
Proof.
  intros H. unfold float_of_int. rewrite (nearest_double_small z H).
  destruct (Z.ltb_spec (Z.abs z) (2 ^ 1024)) as [|Hge]; [reflexivity|].
  assert (2 ^ 53 <= 2 ^ 1024) by (apply Z.pow_le_mono_r; lia). lia.
Qed.

(** ** Validation of the parameters of [start_cpu_stress] *)

(** C1. With the feature enabled, [start_cpu_stress(duration, load)] with
    [duration <= 0] or [load] outside [0,100] raises the 400 error for an
    invalid parameter, leaves every global and the shared memory as they
    were and performs no effect (no process started, terminated or joined).
    With [duration > 0] and [0 <= load <= 100] the validation passes: the
    call does not raise that error; it goes on to return a response when
    [duration] is below [2 ^ 1024 - 2 ^ 970], and to the [OverflowError] of
    line 95 when it is not. *)
Theorem start_validation (e : Env) (t_end t_start : Q) (duration load : Z) (w : World) :
  stress_test_enabled e = true ->
  ((duration <= 0 \/ load < 0 \/ 100 < load) ->
     start_cpu_stress e t_end t_start duration load w
     = (Raise invalid_parameter, w, [])) /\
  ((0 < duration /\ 0 <= load <= 100) ->
     fst (fst (start_cpu_stress e t_end t_start duration load w))
     <> Raise invalid_parameter /\
     (duration < 2 ^ 1024 - 2 ^ 970 ->
        exists r w' evs,
          start_cpu_stress e t_end t_start duration load w = (Return r, w', evs)) /\
     (2 ^ 1024 - 2 ^ 970 <= duration ->
        exists w' evs,
          start_cpu_stress e t_end t_start duration load w
          = (Raise OverflowError, w', evs))).
Proof.
  intros He. unfold start_cpu_stress. rewrite He. cbn [negb]. split.
  - intros H.
    assert ((duration <=? 0) || negb ((0 <=? load) && (load <=? 100)) = true) as ->;
      [|reflexivity].
    apply orb_true_iff. rewrite negb_true_iff, andb_false_iff.
    rewrite Z.leb_le, !Z.leb_gt. lia.
  - intros [Hd Hl].
    assert ((duration <=? 0) || negb ((0 <=? load) && (load <=? 100)) = false) as ->.
    { apply orb_false_iff. rewrite negb_false_iff, andb_true_iff.
      rewrite Z.leb_gt, !Z.leb_le. lia. }
    pose proof (float_of_int_overflow duration) as Ho.
    rewrite (Z.abs_eq duration) in Ho by lia.
    destruct (float_of_int duration) as [d|]; cbn [fst].
    + split; [discriminate|]. split; [eauto|].
      intros H. apply Ho in H. discriminate.
    + split; [discriminate|]. split; [|eauto].
      intros H. assert (2 ^ 1024 - 2 ^ 970 <= duration) by now apply Ho.
      lia.
Qed.

(** ** [stress_status] *)

(** The dictionary after the lazy completion test of lines 161-162. *)
Lemma status_total (e : Env) (now : Q) (w : World) :
  stress_test_enabled e = true ->
  consistent w ->
  exists r w',
    stress_status e now w = (Return r, w', []) /\
    remaining_seconds r
      = (if running_now w then int (max0 (deadline w - now)%Q) else 0) /\
    iterations r
      = match global_iterations w with
        | Some l => value_at (shm w) l
        | None => 0
        end /\
    running r = dict_get (cpu_stress_status_data w') "running" (VBool false) /\
    cpu_stress_status_data w'
      = (if geb now (deadline w)
         then <["running" := VBool false]> (cpu_stress_status_data w)
         else cpu_stress_status_data w) /\
    cpu_stress_processes w' = cpu_stress_processes w /\
    global_iterations w' = global_iterations w /\
    stop_flag w' = stop_flag w /\
    cpu_stress_end_time w' = cpu_stress_end_time w /\
    shm w' = shm w /\
    next_pid w' = next_pid w.
Proof.
  intros He [_ Hc _]. unfold stress_status. rewrite He. cbn [negb].
  fold (running_now w). unfold deadline.
  destruct (running_now w) eqn:Hr.
  - destruct (Hc eq_refl) as [v Hv]. rewrite Hv.
    assert (dict_get (cpu_stress_status_data w) "end_time" (VInt 0) = v) as ->
      by (unfold dict_get; now rewrite Hv).
    eexists _, _. split; [reflexivity|]. cbn. repeat split; reflexivity.
  - eexists _, _. split; [reflexivity|]. cbn. repeat split; reflexivity.
Qed.

Lemma world_eq (w w' : World) :
  cpu_stress_processes w' = cpu_stress_processes w ->
  global_iterations w' = global_iterations w ->
  stop_flag w' = stop_flag w ->
  cpu_stress_end_time w' = cpu_stress_end_time w ->
  cpu_stress_status_data w' = cpu_stress_status_data w ->
  shm w' = shm w ->
  next_pid w' = next_pid w ->
  w' = w.
Proof. destruct w, w'; cbn; intros; subst; reflexivity. Qed.



(** C9. With the feature enabled and in every consistent state, the
    [iterations] field answered by [stress_status] is the value held by the
    shared counter [global_iterations], and 0 when no counter has been
    created (no test was ever started). *)
Theorem status_iterations (e : Env) (now : Q) (w : World) :
  stress_test_enabled e = true ->
  consistent w ->
  exists r w',
    stress_status e now w = (Return r, w', []) /\
    (forall l c,
       global_iterations w = Some l -> shm w !! l = Some c ->
       iterations r = cval c) /\
    (global_iterations w = None -> iterations r = 0).
Proof.
  intros He Hc.
  destruct (status_total e now w He Hc) as (r & w' & Hs & _ & Hit & _).
  exists r, w'. split; [exact Hs|]. split.
  - intros l c Hl Hm. rewrite Hit, Hl. unfold value_at. now rewrite Hm.
  - intros Hl. now rewrite Hit, Hl.
Qed.


(** ** [stop_cpu_stress] *)

Lemma value_at_store_at (m : Shm) (l : loc) (z : Z) (c : Cell) :
  m !! l = Some c -> value_at (store_at m l z) l = wrap (ctype c) z.
Proof.
  intros H. unfold value_at, store_at. rewrite H, lookup_insert_eq. reflexivity.
Qed.

Lemma value_at_store_at_ne (m : Shm) (l l' : loc) (z : Z) :
  l <> l' -> value_at (store_at m l z) l' = value_at m l'.
Proof.
  intros H. unfold value_at, store_at. destruct (m !! l); [|reflexivity].
  now rewrite lookup_insert_ne.
Qed.

Lemma store_at_twice (m : Shm) (l : loc) (z : Z) :
  store_at (store_at m l z) l z = store_at m l z.
Proof.
  unfold store_at. destruct (m !! l) as [c|] eqn:H.
  - rewrite lookup_insert_eq, insert_insert_eq. reflexivity.
  - now rewrite H.
Qed.

Lemma stop_total (e : Env) (w : World) :
  stress_test_enabled e = true ->
  stop_cpu_stress e w
  = (Return stop_response,
     {| cpu_stress_processes := [];
        global_iterations := global_iterations w;
        stop_flag := stop_flag w;
        cpu_stress_end_time := cpu_stress_end_time w;
        cpu_stress_status_data :=
          <["running" := VBool false]> (cpu_stress_status_data w);
        shm := match stop_flag w with
               | Some l => store_at (shm w) l 1
               | None => shm w
               end;
        next_pid := next_pid w |},
     join_all (cpu_stress_processes w)).
Proof. intros He. unfold stop_cpu_stress. now rewrite He. Qed.

Lemma stopped_not_running (w : World) : stopped w -> running_now w = false.
Proof. unfold stopped, running_now, dict_get. now intros ->. Qed.

Lemma stopped_consistent (w : World) :
  stopped w ->
  (forall l, global_iterations w = Some l -> stop_flag w <> Some l) ->
  consistent w.
Proof.
  intros H Hd. split.
  - right. now exists false.
  - rewrite (stopped_not_running w H). discriminate.
  - exact Hd.
Qed.

(** Once stopped, a status query answers [running = False] and leaves the
    world stopped, whatever the clock says. *)
Lemma status_when_stopped (e : Env) (now : Q) (w : World) :
  stopped w ->
  stopped (snd (fst (stress_status e now w))) /\
  (stress_test_enabled e = true ->
   exists r, fst (fst (stress_status e now w)) = Return r /\
             running r = VBool false /\ remaining_seconds r = 0).
Proof.
  intros H. unfold stress_status.
  destruct (stress_test_enabled e); cbn [negb].
  2:{ split; [exact H | discriminate]. }
  fold (running_now w). rewrite (stopped_not_running w H).
  cbn [fst snd]. unfold stopped in *. cbn.
  destruct (geb now _).
  - rewrite lookup_insert_eq. split; [reflexivity|]. intros _.
    eexists. split; [reflexivity|]. cbn. unfold dict_get.
    now rewrite lookup_insert_eq.
  - split; [exact H|]. intros _.
    eexists. split; [reflexivity|]. cbn. unfold dict_get. now rewrite H.
Qed.

Lemma exec_stopped (s : System) (a : action) :
  is_start a = false -> stopped (world s) -> stopped (world (exec s a)).
Proof.
  intros Ha H. destruct a as [p now | | e | e now]; try discriminate; cbn.
  - destruct (procs s !! p) as [pr|]; [|exact H].
    destruct (alive pr); exact H.
  - unfold stop_cpu_stress. destruct (stress_test_enabled e); cbn; [|exact H].
    unfold stopped. cbn. apply lookup_insert_eq.
  - apply status_when_stopped, H.
Qed.

Lemma run_stopped (sched : list action) (s : System) :
  Forall (fun a => is_start a = false) sched ->
  stopped (world s) -> stopped (world (run s sched)).
Proof.
  intros Hf. revert s. induction Hf as [|a sched Ha _ IH]; intros s H.
  - exact H.
  - cbn. apply IH, exec_stopped; assumption.
Qed.

Lemma lookup_store_at_ne (m : Shm) (l l' : loc) (z : Z) :
  l <> l' -> store_at m l z !! l' = m !! l'.
Proof.
  intros H. unfold store_at. destruct (m !! l); [|reflexivity].
  now rewrite lookup_insert_ne.
Qed.

Lemma procs_after_joins (ps : gmap pid Proc) (l : list Process) :
  foldl apply_event ps (join_all l) = ps.
Proof. induction l as [|x l IH]; cbn; [reflexivity | exact IH]. Qed.

(** C4. With the feature enabled, [stop_cpu_stress] returns its success
    message; it stores [True] in the stop flag when there is one and leaves
    every other cell of shared memory as it was; its effects are exactly one
    [join(timeout=1)] on each worker handle, in the order of the list, so
    that it waits at most one second per worker and terminates none; it
    stores [running = False] and empties the list of handles whatever the
    workers do; and every later [stress_status], after any transitions of
    the workers, further stops and status queries but no new start, answers
    [running = False]. *)
Theorem stop_effects (e : Env) (s : System) :
  stress_test_enabled e = true ->
  exists w',
    stop_cpu_stress e (world s)
    = (Return stop_response, w',
       map (fun p => EJoin (proc_id p) 1) (cpu_stress_processes (world s))) /\
    world (exec s (CallStop e)) = w' /\
    procs (exec s (CallStop e)) = procs s /\
    (forall l, stop_flag (world s) = Some l -> is_Some (shm (world s) !! l) ->
       value_at (shm w') l = 1) /\
    (forall l, stop_flag (world s) <> Some l -> shm w' !! l = shm (world s) !! l) /\
    cpu_stress_status_data w' !! "running" = Some (VBool false) /\
    cpu_stress_processes w' = [] /\
    (forall sched now,
       Forall (fun a => is_start a = false) sched ->
       exists r,
         status_of e now (run (exec s (CallStop e)) sched) = Return r /\
         running r = VBool false).
Proof.
  intros He. eexists. split; [apply (stop_total e (world s) He)|].
  split; [cbn; now rewrite (stop_total e (world s) He)|].
  split.
  { cbn. rewrite (stop_total e (world s) He). cbn. apply procs_after_joins. }
  cbn [shm cpu_stress_status_data cpu_stress_processes]. repeat split.
  - intros l Hl [c Hc]. rewrite Hl, (value_at_store_at _ _ _ c Hc).
    apply wrap_one.
  - intros l Hl. destruct (stop_flag (world s)) as [l'|]; [|reflexivity].
    apply lookup_store_at_ne. congruence.
  - apply lookup_insert_eq.
  - intros sched now Hf.
    assert (Hst : stopped (world (exec s (CallStop e)))).
    { cbn. rewrite (stop_total e (world s) He). cbn. apply lookup_insert_eq. }
    pose proof (run_stopped sched _ Hf Hst) as Hst'.
    destruct (status_when_stopped e now _ Hst') as [_ Hr].
    destruct (Hr He) as (r & Hr1 & Hr2 & _). now exists r.
Qed.

(** C5. With the feature enabled, [stop_cpu_stress] never raises: on the
    module as initialised it succeeds and joins nothing; a second call
    in a row succeeds, joins nothing and leaves the state of the first;
    [running] is [False] after each; and when no test is running the answer
    of [stress_status] is the same after the call as before it. *)
Theorem stop_idempotent (e : Env) (w : World) :
  stress_test_enabled e = true ->
  exists w1,
    stop_cpu_stress e w = (Return stop_response, w1, join_all (cpu_stress_processes w)) /\
    stop_cpu_stress e w1 = (Return stop_response, w1, []) /\
    running_now w1 = false /\
    (exists w0, stop_cpu_stress e initial_world = (Return stop_response, w0, [])) /\
    (forall now, exists r : StatusResponse,
       fst (fst (stress_status e now w1)) = Return r /\ running r = VBool false) /\
    (forall now,
       consistent w -> running_now w = false ->
       fst (fst (stress_status e now w1)) = fst (fst (stress_status e now w))).
Proof.
  intros He. eexists. split; [apply (stop_total e w He)|].
  set (w1 := {| cpu_stress_processes := [] |}).
  assert (Hst : stopped w1) by apply lookup_insert_eq.
  split; [|split; [|split; [|split]]].
  - rewrite (stop_total e w1 He). cbn [join_all map]. do 2 f_equal.
    apply world_eq; cbn; try reflexivity.
    + apply insert_insert_eq.
    + destruct (stop_flag w); [apply store_at_twice | reflexivity].
  - apply stopped_not_running, Hst.
  - eexists. apply (stop_total e initial_world He).
  - intros now. destruct (status_when_stopped e now w1 Hst) as [_ Hr].
    destruct (Hr He) as (r & Hr1 & Hr2 & _). now exists r.
  - intros now Hc Hrun.
    assert (Hc1 : consistent w1).
    { apply stopped_consistent; [exact Hst|]. cbn. apply (refs_distinct w Hc). }
    destruct (status_total e now w He Hc)
      as (r & w' & Hs & Hrem & Hit & Hr & Hd & _).
    destruct (status_total e now w1 He Hc1)
      as (r1 & w1' & Hs1 & Hrem1 & Hit1 & Hr1 & Hd1 & _).
    rewrite Hs, Hs1. cbn [fst]. f_equal.
    destruct r as [a b c], r1 as [a1 b1 c1]. cbn in *.
    rewrite Hrun in Hrem. rewrite (stopped_not_running w1 Hst) in Hrem1.
    subst b b1. f_equal.
    + rewrite Hr, Hr1, Hd, Hd1.
      assert (Hfalse : dict_get (cpu_stress_status_data w) "running" (VBool false)
                       = VBool false).
      { unfold running_now in Hrun. unfold dict_get in *.
        destruct (running_bool w Hc) as [H | [b H]]; rewrite H in *; cbn in *;
          [reflexivity | now rewrite Hrun]. }
      assert (Hins : forall d : gmap string pyval,
                 dict_get (<["running" := VBool false]> d) "running" (VBool false)
                 = VBool false).
      { intros d. unfold dict_get. now rewrite lookup_insert_eq. }
      destruct (geb now (deadline w1)), (geb now (deadline w));
        rewrite ?Hins, ?Hfalse; reflexivity.
    + rewrite Hit, Hit1. destruct (global_iterations w) as [l|] eqn:Hl; [|reflexivity].
      destruct (stop_flag w) as [l'|] eqn:Hl'; [|reflexivity].
      apply value_at_store_at_ne. intros ->. now apply (refs_distinct w Hc l).
Qed.

(** ** The worker: duty cycle *)

Lemma busy_time_load_0 (a : WorkerArgs) : load a = 0 -> (busy_time a == 0)%Q.
Proof. intros H. unfold busy_time. rewrite H. unfold Qdiv. cbn. ring. Qed.

Lemma idle_time_load_0 (a : WorkerArgs) :
  load a = 0 -> (idle_time a == cycle_time a)%Q.
Proof.
  intros H. unfold idle_time. rewrite (busy_time_load_0 a H). ring.
Qed.

Lemma busy_time_load_100 (a : WorkerArgs) :
  load a = 100 -> (busy_time a == cycle_time a)%Q.
Proof.
  intros H. unfold busy_time. rewrite H.
  assert (E : (inject_Z 100 / 100 == 1)%Q) by reflexivity.
  rewrite E. ring.
Qed.

Lemma idle_time_load_100 (a : WorkerArgs) : load a = 100 -> (idle_time a == 0)%Q.
Proof.
  intros H. unfold idle_time. rewrite (busy_time_load_100 a H). ring.
Qed.

Lemma after_busy_load_100 (a : WorkerArgs) : load a = 100 -> after_busy a = OuterTime.
Proof.
  intros H. unfold after_busy.
  assert (E : ltb 0 (idle_time a) = false); [|now rewrite E].
  apply ltb_ge. rewrite (idle_time_load_100 a H). apply Qle_refl.
Qed.

Lemma busy_test_load_0 (a : WorkerArgs) (sb now : Q) :
  load a = 0 -> (sb <= now)%Q -> ltb (now - sb)%Q (busy_time a) = false.
Proof.
  intros H Hsb. apply ltb_ge. rewrite (busy_time_load_0 a H).
  rewrite <- (Qplus_opp_r sb). apply Qplus_le_compat; [exact Hsb | apply Qle_refl].
Qed.

(** ** Shared memory under the transitions of a worker *)

Lemma lookup_with_owner (m : Shm) (l : loc) (o : option pid) :
  with_owner m l o !! l = (fun c => set_owner c o) <$> (m !! l).
Proof.
  unfold with_owner. destruct (m !! l) as [c|] eqn:H.
  - now rewrite lookup_insert_eq.
  - now rewrite H.
Qed.

Lemma lookup_with_owner_ne (m : Shm) (l l' : loc) (o : option pid) :
  l <> l' -> with_owner m l o !! l' = m !! l'.
Proof.
  intros H. unfold with_owner. destruct (m !! l); [|reflexivity].
  now rewrite lookup_insert_ne.
Qed.

Lemma lookup_store_at (m : Shm) (l : loc) (z : Z) :
  store_at m l z !! l = (fun c => set_value c z) <$> (m !! l).
Proof.
  unfold store_at. destruct (m !! l) as [c|] eqn:H.
  - now rewrite lookup_insert_eq.
  - now rewrite H.
Qed.

Lemma has_type_with_owner (m : Shm) (l l' : loc) (o : option pid) (t : typecode) :
  has_type m l' t -> has_type (with_owner m l o) l' t.
Proof.
  intros (c & Hc & Ht). destruct (decide (l = l')) as [->|Hne].
  - exists (set_owner c o). rewrite lookup_with_owner, Hc. now split.
  - exists c. rewrite lookup_with_owner_ne by exact Hne. now split.
Qed.

Lemma has_type_store_at (m : Shm) (l l' : loc) (z : Z) (t : typecode) :
  has_type m l' t -> has_type (store_at m l z) l' t.
Proof.
  intros (c & Hc & Ht). destruct (decide (l = l')) as [->|Hne].
  - exists (set_value c z). rewrite lookup_store_at, Hc. now split.
  - exists c. rewrite lookup_store_at_ne by exact Hne. now split.
Qed.

Lemma has_type_inj (m : Shm) (l : loc) (t t' : typecode) :
  has_type m l t -> has_type m l t' -> t = t'.
Proof. intros (c & Hc & <-) (c' & Hc' & <-). congruence. Qed.

(** A transition of a worker keeps every cell and its typecode, and touches
    no cell but its counter. *)
Lemma step_has_type (a : WorkerArgs) (me : pid) (now : Q) (m : Shm) (s : pc)
    (l : loc) (t : typecode) :
  has_type m l t -> has_type (snd (fst (cpu_worker_step a me now m s))) l t.
Proof.
  intros H. destruct s; cbn; try exact H.
  - destruct (lock_free m (iterations_ref a)); cbn;
      [now apply has_type_with_owner | exact H].
  - now apply has_type_store_at.
  - now apply has_type_with_owner.
Qed.

Lemma step_frame (a : WorkerArgs) (me : pid) (now : Q) (m : Shm) (s : pc) (l : loc) :
  iterations_ref a <> l ->
  snd (fst (cpu_worker_step a me now m s)) !! l = m !! l.
Proof.
  intros H. destruct s; cbn; try reflexivity.
  - destruct (lock_free m (iterations_ref a)); cbn;
      [now apply lookup_with_owner_ne | reflexivity].
  - now apply lookup_store_at_ne.
  - now apply lookup_with_owner_ne.
Qed.

(** What a transition does to the value of a cell: nothing, except the
    write of line 38, which stores the value read plus one. *)
Lemma step_value (a : WorkerArgs) (me : pid) (now : Q) (m : Shm) (s : pc) (l : loc) :
  value_at (snd (fst (cpu_worker_step a me now m s))) l = value_at m l \/
  exists sb tmp c,
    s = WriteCtr sb tmp /\ l = iterations_ref a /\ m !! l = Some c /\
    value_at (snd (fst (cpu_worker_step a me now m s))) l = wrap (ctype c) (tmp + 1).
Proof.
  unfold value_at.
  destruct s; cbn; try (left; reflexivity).
  - left. destruct (lock_free m (iterations_ref a)); cbn; [|reflexivity].
    destruct (decide (iterations_ref a = l)) as [<-|Hne].
    + rewrite lookup_with_owner. now destruct (m !! iterations_ref a).
    + now rewrite lookup_with_owner_ne.
  - destruct (decide (iterations_ref a = l)) as [<-|Hne].
    + rewrite lookup_store_at. destruct (m !! iterations_ref a) as [c|] eqn:Hc.
      * right. exists start_busy, tmp, c. cbn. repeat split; reflexivity.
      * left. reflexivity.
    + left. now rewrite lookup_store_at_ne.
  - left. destruct (decide (iterations_ref a = l)) as [<-|Hne].
    + rewrite lookup_with_owner. now destruct (m !! iterations_ref a).
    + now rewrite lookup_with_owner_ne.
Qed.

(** With a clock that does not run backwards, [start_busy] is never ahead
    of the clock. *)
Lemma step_clock (a : WorkerArgs) (me : pid) (now before : Q) (m : Shm) (s : pc) :
  (before <= now)%Q ->
  started_before before s ->
  started_before now (fst (fst (cpu_worker_step a me now m s))).
Proof.
  intros Hle H.
  destruct s; cbn in *;
    repeat match goal with
           | |- context [if ?b then _ else _] => destruct b
           end;
    cbn; unfold after_busy;
    repeat match goal with
           | |- context [if ?b then _ else _] => destruct b
           end;
    cbn; trivial; try apply Qle_refl; eapply Qle_trans; eassumption.
Qed.

(** With [load = 0] the busy test fails at once, so the body of the busy
    loop is never entered and shared memory is left as it is. *)
Lemma step_load_0 (a : WorkerArgs) (me : pid) (now before : Q) (m : Shm) (s : pc) :
  load a = 0 ->
  (before <= now)%Q ->
  started_before before s ->
  outside_busy_body s ->
  outside_busy_body (fst (fst (cpu_worker_step a me now m s))) /\
  snd (fst (cpu_worker_step a me now m s)) = m.
Proof.
  intros Hl Hle Hsb Hout.
  destruct s; cbn in *; try contradiction.
  - now destruct (ltb now (end_time a)).
  - now destruct (stop_set a m).
  - easy.
  - rewrite (busy_test_load_0 a start_busy now Hl) by (eapply Qle_trans; eassumption).
    unfold after_busy. now destruct (ltb 0 (idle_time a)).
  - now destruct (stop_set a m).
  - easy.
  - easy.
Qed.

(** With [load = 100] the idle time is zero, so the idle phase is never
    entered and the worker never sleeps. *)
Lemma step_load_100 (a : WorkerArgs) (me : pid) (now : Q) (m : Shm) (s : pc) :
  load a = 100 ->
  outside_idle s ->
  outside_idle (fst (fst (cpu_worker_step a me now m s))) /\
  snd (cpu_worker_step a me now m s) = [].
Proof.
  intros Hl Hout.
  destruct s; cbn in *; try contradiction;
    rewrite ?(after_busy_load_100 a Hl);
    repeat match goal with
           | |- context [if ?b then _ else _] => destruct b
           end;
    cbn; auto.
Qed.

(** The lock of the counter: the transitions of its owner. *)
Lemma step_lock_self (a : WorkerArgs) (me : pid) (now : Q) (m : Shm) (s : pc) :
  is_Some (m !! iterations_ref a) ->
  lock_ok me m a s ->
  lock_ok me (snd (fst (cpu_worker_step a me now m s))) a
          (fst (fst (cpu_worker_step a me now m s))).
Proof.
  intros [c Hc] H.
  destruct s; cbn in *; unfold after_busy;
    repeat match goal with
           | |- context [if ?b then _ else _] => destruct b eqn:?
           end;
    cbn; try exact H; try (split; [exact H | reflexivity]).
  - rewrite lookup_with_owner, Hc. reflexivity.
  - destruct H as [H _]. rewrite lookup_store_at, Hc in *. exact H.
  - rewrite lookup_with_owner, Hc. cbn. discriminate.
Qed.

Lemma lock_ok_holds (p : pid) (m : Shm) (a : WorkerArgs) (s : pc) :
  lock_ok p m a s ->
  if holds_lock s then (m !! iterations_ref a) ≫= owner = Some p
  else (m !! iterations_ref a) ≫= owner <> Some p.
Proof. destruct s; cbn; tauto. Qed.

(** The lock of the counter: the transitions of another worker. *)
Lemma step_lock_other (a : WorkerArgs) (me : pid) (now : Q) (m : Shm) (s : pc)
    (q : pid) (a' : WorkerArgs) (s' : pc) :
  q <> me ->
  lock_ok me m a s ->
  lock_ok q m a' s' ->
  lock_ok q (snd (fst (cpu_worker_step a me now m s))) a' s'.
Proof.
  intros Hq Hme Hqk.
  destruct (decide (iterations_ref a = iterations_ref a')) as [E|Hne].
  2:{ pose proof (step_frame a me now m s _ Hne) as Hf.
      assert (Hv : value_at (snd (fst (cpu_worker_step a me now m s))) (iterations_ref a')
                   = value_at m (iterations_ref a'))
        by (unfold value_at; now rewrite Hf).
      destruct s'; cbn in *; rewrite ?Hf, ?Hv; exact Hqk. }
  assert (Hsame : snd (fst (cpu_worker_step a me now m s)) = m \/
                  (exists o, (snd (fst (cpu_worker_step a me now m s)) !! iterations_ref a')
                               ≫= owner = o /\ o <> Some q) /\
                  holds_lock s' = false).
  { pose proof (lock_ok_holds _ _ _ _ Hme) as Hm.
    pose proof (lock_ok_holds _ _ _ _ Hqk) as Hk.
    rewrite <- E in *.
    destruct s; cbn in *; auto.
    - destruct (lock_free m (iterations_ref a)) eqn:Hfree; cbn; [|now left].
      right. unfold lock_free in Hfree.
      destruct (m !! iterations_ref a) as [c|] eqn:Hc.
      + destruct (owner c) eqn:Ho; [discriminate|].
        destruct (holds_lock s'); [cbn in Hk; congruence|].
        split; [|reflexivity]. eexists. split; [reflexivity|].
        rewrite lookup_with_owner, Hc. cbn. congruence.
      + destruct (holds_lock s'); [cbn in Hk; congruence|].
        split; [|reflexivity]. eexists. split; [reflexivity|].
        unfold with_owner. rewrite Hc, Hc. cbn. discriminate.
    - right. destruct (holds_lock s'); [congruence|].
      split; [|reflexivity]. eexists. split; [reflexivity|].
      rewrite lookup_store_at.
      destruct (m !! iterations_ref a); cbn in *; congruence.
    - right. destruct (holds_lock s'); [congruence|].
      split; [|reflexivity]. eexists. split; [reflexivity|].
      rewrite lookup_with_owner.
      destruct (m !! iterations_ref a); cbn in *; congruence. }
  destruct Hsame as [-> | [(o & Ho & Hoq) Hh]]; [exact Hqk|].
  destruct s'; cbn in *; try discriminate; congruence.
Qed.

(** ** Invariants of the system *)

Lemma started_before_mono (before now : Q) (s : pc) :
  (before <= now)%Q -> started_before before s -> started_before now s.
Proof.
  intros Hle H. destruct s; cbn in *; trivial; eapply Qle_trans; eassumption.
Qed.

Lemma lock_ok_ext (p : pid) (m m' : Shm) (a : WorkerArgs) (s : pc) :
  m' !! iterations_ref a = m !! iterations_ref a ->
  lock_ok p m a s -> lock_ok p m' a s.
Proof.
  intros E H.
  assert (Hv : value_at m' (iterations_ref a) = value_at m (iterations_ref a))
    by (unfold value_at; now rewrite E).
  destruct s; cbn in *; rewrite ?E, ?Hv; exact H.
Qed.

(** The process table after the effects of an endpoint: a process is an old
    one, with its arguments and program point, or one just started. *)
Lemma procs_after_events (evs : list event) (ps : gmap pid Proc) (p : pid) (pr : Proc) :
  foldl apply_event ps evs !! p = Some pr ->
  (exists pr0, ps !! p = Some pr0 /\ args pr = args pr0 /\ at_pc pr = at_pc pr0) \/
  (exists q, In (EStart q) evs /\ proc_id q = p /\
             args pr = proc_args q /\ at_pc pr = OuterTime).
Proof.
  revert ps. induction evs as [|ev evs IH]; intros ps H; cbn in H.
  - left. now exists pr.
  - destruct (IH _ H) as [(pr0 & H0 & Ha & Hp) | (q & Hin & Hq)].
    2:{ right. exists q. split; [now right | exact Hq]. }
    destruct ev as [q | p0 | |]; cbn in H0.
    + destruct (decide (proc_id q = p)) as [E|Hne].
      * rewrite E, lookup_insert_eq in H0. injection H0 as <-.
        right. exists q. cbn in *. repeat split; auto.
      * rewrite lookup_insert_ne in H0 by exact Hne.
        left. now exists pr0.
    + destruct (decide (p0 = p)) as [->|Hne].
      * rewrite lookup_alter_eq in H0.
        destruct (ps !! p) as [pr1|]; [|discriminate]. injection H0 as <-.
        left. exists pr1. cbn in *. auto.
      * rewrite lookup_alter_ne in H0 by exact Hne. left. now exists pr0.
    + left. now exists pr0.
    + left. now exists pr0.
Qed.

Lemma spawn_args (n : nat) (a : WorkerArgs) (next : pid) (q : Process) :
  In q (spawn n a next) -> proc_args q = a.
Proof.
  revert next. induction n as [|n IH]; intros next; cbn; [contradiction|].
  intros [<- | H]; [reflexivity | now apply (IH (S next))].
Qed.


(** Allocation leaves the cells in use where they are. *)
Lemma new_loc_fresh (m : Shm) : m !! new_loc m = None.
Proof. apply not_elem_of_dom. unfold new_loc. apply is_fresh. Qed.

Lemma lookup_alloc (m : Shm) (c : Cell) (l : loc) :
  is_Some (m !! l) -> <[new_loc m := c]> m !! l = m !! l.
Proof.
  intros [c' H]. apply lookup_insert_ne. intros E.
  rewrite <- E, new_loc_fresh in H. discriminate.
Qed.

Lemma has_type_alloc (m : Shm) (c : Cell) (l : loc) (t : typecode) :
  has_type m l t -> has_type (<[new_loc m := c]> m) l t.
Proof.
  intros (c' & H & Ht). exists c'. split; [|exact Ht].
  rewrite lookup_alloc; [exact H | now exists c'].
Qed.

(** ** [start_cpu_stress] on valid parameters *)

Lemma valid_parameters (duration load : Z) :
  0 < duration -> 0 <= load <= 100 ->
  (duration <=? 0) || negb ((0 <=? load) && (load <=? 100)) = false.
Proof.
  intros Hd Hl. apply orb_false_iff. rewrite negb_false_iff, andb_true_iff.
  rewrite Z.leb_gt, !Z.leb_le. lia.
Qed.

Lemma start_total (e : Env) (t_end t_start : Q) (duration load : Z) (w : World)
    (d : Q) :
  stress_test_enabled e = true ->
  0 < duration -> 0 <= load <= 100 ->
  float_of_int duration = Some d ->
  let l_iter := new_loc (shm w) in
  let m1 := <[l_iter := Value TInt 0]> (shm w) in
  let l_stop := new_loc m1 in
  let t := float_add t_end d in
  let a := {| end_time := t; load := load; cycle_time := (1 # 10)%Q;
              iterations_ref := l_iter; stop_ref := l_stop |} in
  let ps := spawn (Z.to_nat (worker_count e)) a (next_pid w) in
  start_cpu_stress e t_end t_start duration load w
  = (Return {| start_message := "CPU stress test started";
               start_duration := duration;
               start_load := load;
               start_workers := worker_count e |},
     {| cpu_stress_processes := ps;
        global_iterations := Some l_iter;
        stop_flag := Some l_stop;
        cpu_stress_end_time := Some t;
        cpu_stress_status_data :=
          <["running" := VBool true]>
          (<["start_time" := VFloat t_start]>
          (<["duration" := VInt duration]>
          (<["end_time" := VFloat t]>
          (<["load" := VInt load]>
          (<["workers" := VInt (worker_count e)]> ∅)))));
        shm := <[l_stop := Value TByte 0]> m1;
        next_pid := (next_pid w + List.length ps)%nat |},
     (terminate_all (cpu_stress_processes w)
        ++ [ENew l_iter TInt; ENew l_stop TByte] ++ map EStart ps)%list).
Proof.
  intros He Hd Hl Hf. unfold start_cpu_stress.
  rewrite He, (valid_parameters duration load Hd Hl), Hf. cbn [negb].
  now destruct (cpu_stress_processes w).
Qed.

(** On valid parameters with a [duration] that no float can hold, the call
    ends on line 95. *)
Lemma start_overflow (e : Env) (t_end t_start : Q) (duration load : Z) (w : World) :
  stress_test_enabled e = true ->
  0 < duration -> 0 <= load <= 100 ->
  float_of_int duration = None ->
  let l_iter := new_loc (shm w) in
  let m1 := <[l_iter := Value TInt 0]> (shm w) in
  let l_stop := new_loc m1 in
  start_cpu_stress e t_end t_start duration load w
  = (Raise OverflowError,
     {| cpu_stress_processes := [];
        global_iterations := Some l_iter;
        stop_flag := Some l_stop;
        cpu_stress_end_time := cpu_stress_end_time w;
        cpu_stress_status_data := cpu_stress_status_data w;
        shm := <[l_stop := Value TByte 0]> m1;
        next_pid := next_pid w |},
     (terminate_all (cpu_stress_processes w)
        ++ [ENew l_iter TInt; ENew l_stop TByte])%list).
Proof.
  intros He Hd Hl Hf. unfold start_cpu_stress.
  rewrite He, (valid_parameters duration load Hd Hl), Hf. cbn [negb].
  now destruct (cpu_stress_processes w).
Qed.

(** Either [start_cpu_stress] raises and changes nothing, or its parameters
    are valid and the feature is enabled. *)
Lemma start_cases (e : Env) (t_end t_start : Q) (duration load : Z) (w : World) :
  (exists x, start_cpu_stress e t_end t_start duration load w = (Raise x, w, [])) \/
  (stress_test_enabled e = true /\ 0 < duration /\ 0 <= load <= 100).
Proof.
  unfold start_cpu_stress.
  destruct (stress_test_enabled e); cbn [negb]; [|left; eauto].
  destruct (Z.leb_spec duration 0); cbn [orb]; [left; eauto|].
  destruct (Z.leb_spec 0 load); cbn [andb negb]; [|left; eauto].
  destruct (Z.leb_spec load 100); cbn [andb negb]; [|left; eauto].
  right. repeat split; assumption.
Qed.

(** [start_cpu_stress] leaves every existing cell as it is. *)
Lemma start_keeps_cells (e : Env) (t_end t_start : Q) (duration load : Z) (w : World)
    (l : loc) (c : Cell) :
  shm w !! l = Some c ->
  shm (snd (fst (start_cpu_stress e t_end t_start duration load w))) !! l = Some c.
Proof.
  intros Hc.
  destruct (start_cases e t_end t_start duration load w)
    as [[x Hx] | (He & Hd & Hl)].
  { now rewrite Hx. }
  assert (Hl1 : new_loc (shm w) <> l).
  { intros E. rewrite <- E, new_loc_fresh in Hc. discriminate. }
  assert (Hc1 : <[new_loc (shm w) := Value TInt 0]> (shm w) !! l = Some c).
  { now rewrite lookup_insert_ne. }
  destruct (float_of_int duration) as [d|] eqn:Hf;
    [rewrite (start_total e t_end t_start duration load w d He Hd Hl Hf)
    |rewrite (start_overflow e t_end t_start duration load w He Hd Hl Hf)];
    cbn; (rewrite lookup_insert_ne; [exact Hc1|]);
    intros E; rewrite <- E, new_loc_fresh in Hc1; discriminate.
Qed.

Lemma alloc_distinct (m : Shm) (c : Cell) :
  new_loc (<[new_loc m := c]> m) <> new_loc m.
Proof.
  intros E. pose proof (new_loc_fresh (<[new_loc m := c]> m)) as H.
  rewrite E, lookup_insert_eq in H. discriminate.
Qed.

Lemma initial_invariant : invariant initial.
Proof.
  split; cbn; try (intros ? ? H; rewrite lookup_empty in H; discriminate);
    try discriminate.
  split; cbn; [now left | discriminate | discriminate].
Qed.

(** An endpoint that starts no process keeps the invariant if it keeps the
    globals consistent, the cells with their types and the counters
    untouched. *)
Lemma invariant_world_update (s : System) (w' : World) (now : Q) :
  invariant s ->
  (clock s <= now)%Q ->
  consistent w' ->
  global_iterations w' = global_iterations (world s) ->
  stop_flag w' = stop_flag (world s) ->
  (forall l t, has_type (shm (world s)) l t -> has_type (shm w') l t) ->
  (forall l, has_type (shm (world s)) l TInt -> shm w' !! l = shm (world s) !! l) ->
  invariant {| world := w'; procs := procs s; clock := now |}.
Proof.
  intros I Hle Hc Hg Hf Ht Hi. split; cbn.
  - exact Hc.
  - intros l Hl. rewrite Hg in Hl. apply Ht, (inv_counter s I l Hl).
  - intros l Hl. rewrite Hf in Hl. apply Ht, (inv_flag s I l Hl).
  - intros p pr Hp. destruct (inv_refs s I p pr Hp). split; now apply Ht.
  - intros p pr Hp. eapply started_before_mono; [exact Hle|].
    apply (inv_clock s I p pr Hp).
  - intros p pr Hp. eapply lock_ok_ext; [|apply (inv_lock s I p pr Hp)].
    apply Hi. apply (inv_refs s I p pr Hp).
  - apply (inv_load_0 s I).
  - apply (inv_load_100 s I).
Qed.

Lemma invariant_same_world (s : System) (now : Q) :
  invariant s -> (clock s <= now)%Q ->
  invariant {| world := world s; procs := procs s; clock := now |}.
Proof.
  intros I Hle. apply invariant_world_update; auto. apply (inv_consistent s I).
Qed.

Lemma stop_invariant (s : System) (e : Env) :
  invariant s -> invariant (exec s (CallStop e)).
Proof.
  intros I. cbn. unfold served.
  destruct (stress_test_enabled e) eqn:He.
  2:{ unfold stop_cpu_stress. rewrite He. cbn.
      apply invariant_same_world; [exact I | apply Qle_refl]. }
  rewrite (stop_total e (world s) He). cbn [fst snd].
  rewrite procs_after_joins.
  apply invariant_world_update; cbn; auto.
  - apply Qle_refl.
  - apply stopped_consistent; [apply lookup_insert_eq|]. cbn.
    apply (refs_distinct _ (inv_consistent s I)).
  - intros l t H. destruct (stop_flag (world s)); [|exact H].
    now apply has_type_store_at.
  - intros l H. destruct (stop_flag (world s)) as [sf|] eqn:Hsf; [|reflexivity].
    apply lookup_store_at_ne. intros ->.
    pose proof (has_type_inj _ _ _ _ H (inv_flag s I l Hsf)). discriminate.
Qed.

Lemma status_consistent (e : Env) (now : Q) (w : World) :
  consistent w ->
  let w' := snd (fst (stress_status e now w)) in
  consistent w' /\
  snd (stress_status e now w) = [] /\
  global_iterations w' = global_iterations w /\
  stop_flag w' = stop_flag w /\
  shm w' = shm w.
Proof.
  intros Hc. cbv zeta.
  destruct (stress_test_enabled e) eqn:He.
  2:{ unfold stress_status. rewrite He. cbn. auto. }
  destruct (status_total e now w He Hc)
    as (r & w' & Hs & _ & _ & _ & Hd & _ & Hg & Hf & _ & Hm & _).
  rewrite Hs. cbn [fst snd]. repeat split; auto.
  - rewrite Hd. destruct (geb now (deadline w)).
    + right. exists false. apply lookup_insert_eq.
    + apply (running_bool w Hc).
  - unfold running_now. rewrite Hd. destruct (geb now (deadline w)).
    + unfold dict_get. rewrite lookup_insert_eq. discriminate.
    + apply (running_end_time w Hc).
  - rewrite Hg, Hf. apply (refs_distinct w Hc).
Qed.

Lemma status_invariant (s : System) (e : Env) (now : Q) :
  (clock s <= now)%Q ->
  invariant s -> invariant (exec s (CallStatus e now)).
Proof.
  intros Hle I. cbn. unfold served.
  destruct (status_consistent e now (world s) (inv_consistent s I))
    as (Hc & Hev & Hg & Hf & Hm).
  rewrite Hev. cbn [foldl].
  apply invariant_world_update; auto.
  - intros l t. now rewrite Hm.
  - intros l _. now rewrite Hm.
Qed.

Lemma tick_invariant (s : System) (p : pid) (now : Q) :
  (clock s <= now)%Q ->
  invariant s -> invariant (exec s (Tick p now)).
Proof.
  intros Hle I. cbn.
  destruct (procs s !! p) as [pr|] eqn:Hp; [|exact I].
  destruct (alive pr); [|exact I].
  destruct (inv_refs s I p pr Hp) as [Hit Hst].
  pose proof (inv_lock s I p pr Hp) as Hlk.
  set (r := cpu_worker_step (args pr) p now (shm (world s)) (at_pc pr)).
  split; cbn.
  - destruct (inv_consistent s I) as [H1 H2 H3]. split; assumption.
  - intros l Hl. apply step_has_type, (inv_counter s I l Hl).
  - intros l Hl. apply step_has_type, (inv_flag s I l Hl).
  - intros q qr Hq. destruct (decide (p = q)) as [<-|Hne].
    + rewrite lookup_insert_eq in Hq. injection Hq as <-. cbn.
      split; now apply step_has_type.
    + rewrite lookup_insert_ne in Hq by exact Hne.
      destruct (inv_refs s I q qr Hq). split; now apply step_has_type.
  - intros q qr Hq. destruct (decide (p = q)) as [<-|Hne].
    + rewrite lookup_insert_eq in Hq. injection Hq as <-. cbn.
      eapply step_clock; [exact Hle | apply (inv_clock s I p pr Hp)].
    + rewrite lookup_insert_ne in Hq by exact Hne.
      eapply started_before_mono; [exact Hle | apply (inv_clock s I q qr Hq)].
  - intros q qr Hq. destruct (decide (p = q)) as [<-|Hne].
    + rewrite lookup_insert_eq in Hq. injection Hq as <-. cbn.
      apply step_lock_self; [|exact Hlk].
      destruct Hit as (c & Hc & _). now exists c.
    + rewrite lookup_insert_ne in Hq by exact Hne.
      apply step_lock_other; [congruence | exact Hlk | apply (inv_lock s I q qr Hq)].
  - intros q qr Hq. destruct (decide (p = q)) as [<-|Hne].
    + rewrite lookup_insert_eq in Hq. injection Hq as <-. cbn. intros Hl.
      eapply step_load_0; [exact Hl | exact Hle | |].
      * apply (inv_clock s I p pr Hp).
      * apply (inv_load_0 s I p pr Hp Hl).
    + rewrite lookup_insert_ne in Hq by exact Hne. apply (inv_load_0 s I q qr Hq).
  - intros q qr Hq. destruct (decide (p = q)) as [<-|Hne].
    + rewrite lookup_insert_eq in Hq. injection Hq as <-. cbn. intros Hl.
      eapply step_load_100; [exact Hl|]. apply (inv_load_100 s I p pr Hp Hl).
    + rewrite lookup_insert_ne in Hq by exact Hne. apply (inv_load_100 s I q qr Hq).
Qed.

Lemma started_in (l : list Process) (evs : list event) (ps : list Process) (q : Process) :
  (forall x, In x evs -> forall p, x <> EStart p) ->
  In (EStart q) (terminate_all l ++ evs ++ map EStart ps)%list -> In q ps.
Proof.
  intros Hev H. apply in_app_or in H as [H | H].
  - unfold terminate_all in H. apply in_map_iff in H as (x & Hx & _). discriminate.
  - apply in_app_or in H as [H | H].
    + now destruct (Hev _ H q).
    + apply in_map_iff in H as (x & [= ->] & Hx). exact Hx.
Qed.

Lemma start_invariant (s : System) (e : Env) (t_end t_start : Q) (duration load : Z) :
  (clock s <= t_end)%Q -> (t_end <= t_start)%Q ->
  invariant s -> invariant (exec s (CallStart e t_end t_start duration load)).
Proof.
  intros Hle1 Hle2 I.
  assert (Hle : (clock s <= t_start)%Q) by (eapply Qle_trans; eassumption).
  cbn. unfold served.
  destruct (start_cases e t_end t_start duration load (world s))
    as [[x Hx] | (He & Hd & Hl)].
  { rewrite Hx. cbn. now apply invariant_same_world. }
  destruct (float_of_int duration) as [d|] eqn:Hf.
  2:{ (* the call ends on line 95 *)
    rewrite (start_overflow e t_end t_start duration load (world s) He Hd Hl Hf).
    cbv zeta. cbn [fst snd].
    set (li := new_loc (shm (world s))).
    set (m1 := <[li := Value TInt 0]> (shm (world s))).
    set (ls := new_loc m1).
    assert (Hne : ls <> li) by apply alloc_distinct.
    assert (Hold : forall l, is_Some (shm (world s) !! l) ->
                     <[ls := Value TByte 0]> m1 !! l = shm (world s) !! l).
    { intros l Hl'. unfold ls. rewrite lookup_alloc.
      - unfold m1, li. now apply lookup_alloc.
      - unfold m1, li. now rewrite lookup_alloc. }
    assert (Hty : forall l t, has_type (shm (world s)) l t ->
                    has_type (<[ls := Value TByte 0]> m1) l t).
    { intros l t H. now apply has_type_alloc, has_type_alloc. }
    assert (Hold' : forall p pr,
               foldl apply_event (procs s)
                 (terminate_all (cpu_stress_processes (world s))
                    ++ [ENew li TInt; ENew ls TByte])%list !! p = Some pr ->
               exists pr0, procs s !! p = Some pr0 /\ args pr = args pr0 /\
                           at_pc pr = at_pc pr0).
    { intros p pr Hp.
      apply procs_after_events in Hp as [H0 | (q & Hin & _)]; [exact H0|].
      apply in_app_or in Hin as [Hin | [Hin | [Hin | []]]]; try discriminate.
      unfold terminate_all in Hin. apply in_map_iff in Hin as (x & Hx & _).
      discriminate. }
    split; cbn.
    - destruct (inv_consistent s I) as [H1 H2 _]. split; cbn.
      + exact H1.
      + exact H2.
      + intros l [= <-] [= E]. now apply Hne.
    - intros l [= <-]. exists (Value TInt 0). split; [|reflexivity].
      rewrite lookup_insert_ne by exact Hne. apply lookup_insert_eq.
    - intros l [= <-]. exists (Value TByte 0). split; [|reflexivity].
      apply lookup_insert_eq.
    - intros p pr Hp. apply Hold' in Hp as (pr0 & H0 & Ha & Hpc).
      rewrite Ha. destruct (inv_refs s I p pr0 H0). split; now apply Hty.
    - intros p pr Hp. apply Hold' in Hp as (pr0 & H0 & Ha & Hpc). rewrite Hpc.
      eapply started_before_mono; [exact Hle | apply (inv_clock s I p pr0 H0)].
    - intros p pr Hp. apply Hold' in Hp as (pr0 & H0 & Ha & Hpc). rewrite Hpc, Ha.
      eapply lock_ok_ext; [|apply (inv_lock s I p pr0 H0)].
      apply Hold. destruct (inv_refs s I p pr0 H0) as [(c & Hc & _) _]. now exists c.
    - intros p pr Hp. apply Hold' in Hp as (pr0 & H0 & Ha & Hpc). rewrite Hpc, Ha.
      apply (inv_load_0 s I p pr0 H0).
    - intros p pr Hp. apply Hold' in Hp as (pr0 & H0 & Ha & Hpc). rewrite Hpc, Ha.
      apply (inv_load_100 s I p pr0 H0). }
  rewrite (start_total e t_end t_start duration load (world s) d He Hd Hl Hf).
  cbv zeta. cbn [fst snd].
  set (li := new_loc (shm (world s))).
  set (m1 := <[li := Value TInt 0]> (shm (world s))).
  set (ls := new_loc m1).
  set (a := {| end_time := float_add t_end d |}).
  set (ps := spawn _ a _).
  assert (Hne : ls <> li) by apply alloc_distinct.
  assert (Hli : <[ls := Value TByte 0]> m1 !! li = Some (Value TInt 0)).
  { rewrite lookup_insert_ne by exact Hne. apply lookup_insert_eq. }
  assert (Hls : <[ls := Value TByte 0]> m1 !! ls = Some (Value TByte 0))
    by apply lookup_insert_eq.
  assert (Hold : forall l, is_Some (shm (world s) !! l) ->
                   <[ls := Value TByte 0]> m1 !! l = shm (world s) !! l).
  { intros l Hl'. unfold ls. rewrite lookup_alloc.
    - unfold m1, li. now apply lookup_alloc.
    - unfold m1, li. now rewrite lookup_alloc. }
  assert (Hty : forall l t, has_type (shm (world s)) l t ->
                  has_type (<[ls := Value TByte 0]> m1) l t).
  { intros l t H. now apply has_type_alloc, has_type_alloc. }
  assert (Hnew : forall q,
             In (EStart q)
                (terminate_all (cpu_stress_processes (world s))
                   ++ [ENew li TInt; ENew ls TByte] ++ map EStart ps)%list ->
             proc_args q = a).
  { intros q Hq. apply started_in in Hq.
    - now apply spawn_args in Hq.
    - intros x [<- | [<- | []]] p; discriminate. }
  split; cbn.
  - split; cbn.
    + right. exists true. apply lookup_insert_eq.
    + intros _. rewrite !lookup_insert_ne by done. rewrite lookup_insert_eq. eauto.
    + intros l [= <-] [= E]. now apply Hne.
  - intros l [= <-]. now exists (Value TInt 0).
  - intros l [= <-]. now exists (Value TByte 0).
  - intros p pr Hp.
    apply procs_after_events in Hp as [(pr0 & H0 & Ha & Hpc) | (q & Hin & Hid & Ha & Hpc)].
    + rewrite Ha. destruct (inv_refs s I p pr0 H0). split; now apply Hty.
    + rewrite Ha, (Hnew q Hin). cbn.
      split; [now exists (Value TInt 0) | now exists (Value TByte 0)].
  - intros p pr Hp.
    apply procs_after_events in Hp as [(pr0 & H0 & Ha & Hpc) | (q & Hin & Hid & Ha & Hpc)];
      rewrite Hpc; [|exact Logic.I].
    eapply started_before_mono; [exact Hle | apply (inv_clock s I p pr0 H0)].
  - intros p pr Hp.
    apply procs_after_events in Hp as [(pr0 & H0 & Ha & Hpc) | (q & Hin & Hid & Ha & Hpc)];
      rewrite Hpc, Ha.
    + eapply lock_ok_ext; [|apply (inv_lock s I p pr0 H0)].
      apply Hold. destruct (inv_refs s I p pr0 H0) as [(c & Hc & _) _]. now exists c.
    + rewrite (Hnew q Hin). cbn. fold li m1 ls. rewrite Hli. cbn. discriminate.
  - intros p pr Hp.
    apply procs_after_events in Hp as [(pr0 & H0 & Ha & Hpc) | (q & Hin & Hid & Ha & Hpc)];
      rewrite Hpc; [|intros _; exact Logic.I].
    rewrite Ha. apply (inv_load_0 s I p pr0 H0).
  - intros p pr Hp.
    apply procs_after_events in Hp as [(pr0 & H0 & Ha & Hpc) | (q & Hin & Hid & Ha & Hpc)];
      rewrite Hpc; [|intros _; exact Logic.I].
    rewrite Ha. apply (inv_load_100 s I p pr0 H0).
Qed.

Lemma exec_invariant (s : System) (a : action) :
  invariant s -> timely s a -> invariant (exec s a).
Proof.
  intros I Ht. destruct a as [p now | e t_end t_start duration load | e | e now].
  - now apply tick_invariant.
  - destruct Ht. now apply start_invariant.
  - now apply stop_invariant.
  - now apply status_invariant.
Qed.

Lemma reachable_invariant (s : System) : reachable s -> invariant s.
Proof.
  induction 1 as [|s a _ IH Ht].
  - apply initial_invariant.
  - now apply exec_invariant.
Qed.

(** In particular the globals are consistent in every state the program can
    be in, and [stress_status] never raises [KeyError]. *)
Lemma reachable_consistent (s : System) : reachable s -> consistent (world s).
Proof. intros H. apply inv_consistent, reachable_invariant, H. Qed.

Lemma reachable_status_returns (s : System) (e : Env) (now : Q) :
  reachable s -> stress_test_enabled e = true ->
  exists r, status_of e now s = Return r.
Proof.
  intros Hr He.
  destruct (status_total e now (world s) He (reachable_consistent s Hr))
    as (r & w' & Hs & _).
  exists r. unfold status_of. now rewrite Hs.
Qed.

(** ** The worker: duty cycle and exit *)

(** C6. For every worker of a reachable system (the clock never running
    backwards), [busy_time = cycle_time * (load / 100)] and [idle_time =
    cycle_time - busy_time]. With [load = 0] the busy time is zero, the
    worker is never inside the body of the busy loop, a transition of it
    leaves shared memory (hence the counter) as it is, and with a positive
    cycle time every cycle goes through the idle phase. With [load = 100]
    the idle time is zero, the worker is never in the idle phase and its
    transitions never sleep. *)
Theorem duty_cycle (s : System) (p : pid) (pr : Proc) (now : Q) :
  reachable s ->
  procs s !! p = Some pr ->
  (clock s <= now)%Q ->
  busy_time (args pr) = (cycle_time (args pr) * (inject_Z (load (args pr)) / 100))%Q /\
  idle_time (args pr) = (cycle_time (args pr) - busy_time (args pr))%Q /\
  (load (args pr) = 0 ->
     (busy_time (args pr) == 0)%Q /\
     outside_busy_body (at_pc pr) /\
     shm (world (exec s (Tick p now))) = shm (world s) /\
     ((0 < cycle_time (args pr))%Q -> after_busy (args pr) = IdleStop)) /\
  (load (args pr) = 100 ->
     (idle_time (args pr) == 0)%Q /\
     outside_idle (at_pc pr) /\
     after_busy (args pr) = OuterTime /\
     snd (cpu_worker_step (args pr) p now (shm (world s)) (at_pc pr)) = []).
Proof.
  intros Hr Hp Hle. pose proof (reachable_invariant s Hr) as I.
  split; [reflexivity|]. split; [reflexivity|]. split.
  - intros Hl. split; [now apply busy_time_load_0|].
    pose proof (inv_load_0 s I p pr Hp Hl) as Hout.
    split; [exact Hout|]. split.
    + cbn. rewrite Hp. destruct (alive pr); [|reflexivity]. cbn.
      eapply step_load_0; [exact Hl | exact Hle | | exact Hout].
      apply (inv_clock s I p pr Hp).
    + intros Hc. unfold after_busy.
      assert (E : ltb 0 (idle_time (args pr)) = true); [|now rewrite E].
      apply ltb_lt. now rewrite (idle_time_load_0 _ Hl).
  - intros Hl. split; [now apply idle_time_load_100|].
    pose proof (inv_load_100 s I p pr Hp Hl) as Hout.
    split; [exact Hout|]. split; [now apply after_busy_load_100|].
    now apply step_load_100.
Qed.

Lemma cpu_worker_exited (a : WorkerArgs) (me : pid) (clk : list Q) (m : Shm) :
  cpu_worker a me clk m Exited = (Exited, m, []).
Proof.
  induction clk as [|now clk IH]; cbn; [reflexivity|]. now rewrite IH.
Qed.

Lemma step_stop_set (a : WorkerArgs) (me : pid) (now : Q) (m : Shm) (s : pc) :
  stop_ref a <> iterations_ref a ->
  stop_set a (snd (fst (cpu_worker_step a me now m s))) = stop_set a m.
Proof.
  intros H. unfold stop_set, value_at. rewrite step_frame; [reflexivity|].
  congruence.
Qed.

(** Once the stop flag is set, every transition brings the exit nearer. *)
Lemma step_to_exit (a : WorkerArgs) (me : pid) (now : Q) (m : Shm) (s : pc) :
  stop_set a m = true ->
  (forall sb, s = Acquire sb -> lock_free m (iterations_ref a) = true) ->
  let s' := fst (fst (cpu_worker_step a me now m s)) in
  (steps_to_exit s' <= Nat.pred (steps_to_exit s))%nat /\
  (forall sb, s' <> Acquire sb).
Proof.
  intros Hs Hfree. cbv zeta.
  destruct s; cbn; rewrite ?Hs; unfold after_busy;
    try rewrite (Hfree _ eq_refl);
    repeat match goal with
           | |- context [if ?b then _ else _] => destruct b
           end;
    cbn; split; try lia; discriminate.
Qed.

Lemma worker_stops (a : WorkerArgs) (me : pid) (clk : list Q) (m : Shm) (s : pc) :
  stop_ref a <> iterations_ref a ->
  stop_set a m = true ->
  (forall sb, s = Acquire sb -> lock_free m (iterations_ref a) = true) ->
  (steps_to_exit s <= List.length clk)%nat ->
  fst (fst (cpu_worker a me clk m s)) = Exited.
Proof.
  intros Hne. revert m s. induction clk as [|now clk IH]; intros m s Hs Hfree Hlen.
  - cbn in *. destruct s; cbn in Hlen; try lia. reflexivity.
  - cbn [cpu_worker].
    destruct (cpu_worker_step a me now m s) as [[s1 m1] ev1] eqn:E1.
    destruct (cpu_worker a me clk m1 s1) as [[s2 m2] ev2] eqn:E2.
    cbn [fst].
    pose proof (step_to_exit a me now m s Hs Hfree) as [Hd Hacq].
    pose proof (step_stop_set a me now m s Hne) as Hs1.
    rewrite E1 in Hd, Hacq, Hs1. cbn [fst snd] in *.
    change s2 with (fst (fst (s2, m2, ev2))). rewrite <- E2.
    apply IH.
    + now rewrite Hs1.
    + intros sb ->. now destruct (Hacq sb).
    + cbn [List.length] in Hlen. lia.
Qed.

(** Once the clock is past the end time and past the busy phase, every
    transition brings the exit nearer. *)
Lemma worker_overdue (a : WorkerArgs) (me : pid) (clk : list Q) (m : Shm) (s : pc) :
  Forall (fun now => (end_time a <= now)%Q) clk ->
  busy_phase_over a s clk ->
  (forall sb, s = InnerStop sb \/ s = Acquire sb ->
     lock_free m (iterations_ref a) = true) ->
  (steps_past_deadline s <= List.length clk)%nat ->
  fst (fst (cpu_worker a me clk m s)) = Exited.
Proof.
  revert m s. induction clk as [|now clk IH]; intros m s Hend Hover Hfree Hlen.
  { cbn in *. destruct s; cbn in Hlen; try lia. reflexivity. }
  cbn [cpu_worker].
  destruct (cpu_worker_step a me now m s) as [[s1 m1] ev1] eqn:E1.
  destruct (cpu_worker a me clk m1 s1) as [[s2 m2] ev2] eqn:E2.
  cbn [fst].
  change s2 with (fst (fst (s2, m2, ev2))). rewrite <- E2.
  apply Forall_cons_iff in Hend as [Hnow Hend].
  cbn [List.length] in Hlen.
  assert (Hafter : after_busy a = IdleStop \/ after_busy a = OuterTime).
    { unfold after_busy. destruct (ltb 0 (idle_time a)); auto. }
    assert (Hgo : forall s',
               busy_phase_over a s' clk ->
               (forall sb, s' = InnerStop sb \/ s' = Acquire sb ->
                  lock_free m1 (iterations_ref a) = true) ->
               (steps_past_deadline s' <= List.length clk)%nat ->
               s1 = s' -> fst (fst (cpu_worker a me clk m1 s1)) = Exited).
    { intros s' H1 H2 H3 ->. now apply IH. }
    assert (Hab : (3 <= List.length clk)%nat ->
                  fst (fst (cpu_worker a me clk m1 (after_busy a))) = Exited).
    { intros H3. destruct Hafter as [E | E]; rewrite E; apply IH; auto;
        try exact Logic.I; try (cbn; lia); intros sb [H | H]; discriminate. }
    destruct s; cbn in E1, Hlen.
    - (* OuterTime *)
      apply ltb_ge in Hnow. rewrite Hnow in E1. injection E1 as <- <- <-.
      now rewrite cpu_worker_exited.
    - (* OuterStop *)
      destruct (stop_set a m); injection E1 as <- <- <-.
      + now rewrite cpu_worker_exited.
      + apply (Hgo BusyStart);
          [exact Hover | intros sb [H | H]; discriminate | cbn; lia | reflexivity].
    - (* BusyStart *)
      injection E1 as <- <- <-.
      apply (Hgo (InnerTime now));
        [exact Hover | intros sb [H | H]; discriminate | cbn; lia | reflexivity].
    - (* InnerTime *)
      cbn in Hover. apply Forall_cons_iff in Hover as [Hb _].
      apply ltb_ge in Hb. rewrite Hb in E1. injection E1 as <- <- <-.
      apply Hab. lia.
    - (* InnerStop *)
      cbn in Hover. apply Forall_cons_iff in Hover as [_ Hover].
      destruct (stop_set a m); injection E1 as <- <- <-.
      + apply Hab. lia.
      + apply (Hgo (Acquire start_busy));
          [exact Hover | | cbn; lia | reflexivity].
        intros sb _. apply (Hfree start_busy). now left.
    - (* Acquire *)
      cbn in Hover. apply Forall_cons_iff in Hover as [_ Hover].
      rewrite (Hfree start_busy) in E1 by now right. injection E1 as <- <- <-.
      apply (Hgo (ReadCtr start_busy));
        [exact Hover | intros sb [H | H]; discriminate | cbn; lia | reflexivity].
    - (* ReadCtr *)
      cbn in Hover. apply Forall_cons_iff in Hover as [_ Hover].
      injection E1 as <- <- <-.
      apply (Hgo (WriteCtr start_busy (value_at m (iterations_ref a))));
        [exact Hover | intros sb [H | H]; discriminate | cbn; lia | reflexivity].
    - (* WriteCtr *)
      cbn in Hover. apply Forall_cons_iff in Hover as [_ Hover].
      injection E1 as <- <- <-.
      apply (Hgo (Release start_busy));
        [exact Hover | intros sb [H | H]; discriminate | cbn; lia | reflexivity].
    - (* Release *)
      cbn in Hover. apply Forall_cons_iff in Hover as [_ Hover].
      injection E1 as <- <- <-.
      apply (Hgo (InnerTime start_busy));
        [exact Hover | intros sb [H | H]; discriminate | cbn; lia | reflexivity].
    - (* IdleStop *)
      destruct (stop_set a m); injection E1 as <- <- <-.
      + apply (Hgo OuterTime);
          [exact Logic.I | intros sb [H | H]; discriminate | cbn; lia | reflexivity].
      + apply (Hgo Sleep);
          [exact Logic.I | intros sb [H | H]; discriminate | cbn; lia | reflexivity].
    - (* Sleep *)
      injection E1 as <- <- <-.
      apply (Hgo OuterTime);
        [exact Logic.I | intros sb [H | H]; discriminate | cbn; lia | reflexivity].
    - (* Exited *)
      injection E1 as <- <- <-. now rewrite cpu_worker_exited.
Qed.

(** C7. A worker whose first clock reading is at or after [end_time] exits on
    that first transition: it never enters a cycle, leaves shared memory and
    the counter in it unchanged and never sleeps, whatever the later
    readings. More generally the loop test of line 32 exits as soon as the
    reading is at or after [end_time], or the stop flag is set. Once the
    stop flag is set a worker that is not kept waiting for the lock has
    exited within nine transitions, whatever the clock reads and wherever
    the worker is. And once the clock reads [end_time] or more, a worker
    that is anywhere in its loop and not kept waiting for the lock has
    exited within nine transitions, provided the readings are also past the
    busy phase it is in (the busy loop of line 35 tests the elapsed busy
    time, not the end time). *)
Theorem worker_exit (a : WorkerArgs) (me : pid) (now : Q) (clk : list Q) (m : Shm) :
  ((end_time a <= now)%Q ->
     cpu_worker a me (now :: clk) m OuterTime = (Exited, m, []) /\
     cpu_worker_step a me now m OuterTime = (Exited, m, [])) /\
  (stop_set a m = true ->
     cpu_worker_step a me now m OuterStop = (Exited, m, [])) /\
  (stop_set a m = true ->
     stop_ref a <> iterations_ref a ->
     forall s,
       (forall sb, s = Acquire sb -> lock_free m (iterations_ref a) = true) ->
       (9 <= List.length clk)%nat ->
       fst (fst (cpu_worker a me clk m s)) = Exited) /\
  (Forall (fun r => (end_time a <= r)%Q) clk ->
     forall s,
       busy_phase_over a s clk ->
       (forall sb, s = InnerStop sb \/ s = Acquire sb ->
          lock_free m (iterations_ref a) = true) ->
       (9 <= List.length clk)%nat ->
       fst (fst (cpu_worker a me clk m s)) = Exited).
Proof.
  split; [|split; [|split]].
  - intros H. apply ltb_ge in H. cbn. rewrite H, cpu_worker_exited. now split.
  - intros H. cbn. now rewrite H.
  - intros Hs Hne s Hfree Hlen. apply worker_stops; auto.
    destruct s; cbn; lia.
  - intros Hend s Hover Hfree Hlen. apply worker_overdue; auto.
    destruct s; cbn; lia.
Qed.

(** ** Starting over a running test *)



(** ** The shared counter *)

(** No update is lost: in a reachable system, whatever the interleaving, an
    action leaves the value of a counter as it is or stores that value plus
    one, reduced to the range of a C [int]. The endpoints never write a
    counter that exists. *)
Lemma counter_step (s : System) (a : action) (l : loc) :
  invariant s ->
  has_type (shm (world s)) l TInt ->
  value_at (shm (world (exec s a))) l = value_at (shm (world s)) l \/
  (value_at (shm (world (exec s a))) l = wrap TInt (value_at (shm (world s)) l + 1) /\
   exists p now, a = Tick p now).
Proof.
  intros I Hl. destruct a as [p now | e t_end t_start duration load | e | e now].
  - cbn. destruct (procs s !! p) as [pr|] eqn:Hp; [|now left].
    destruct (alive pr); [|now left]. cbn.
    destruct (step_value (args pr) p now (shm (world s)) (at_pc pr) l)
      as [H | (sb & tmp & c & Hpc & -> & Hc & Hv)]; [now left|].
    right. split; [|eauto]. rewrite Hv.
    pose proof (inv_lock s I p pr Hp) as Hlk. rewrite Hpc in Hlk.
    destruct Hlk as [_ ->].
    destruct Hl as (c' & Hc' & Ht). rewrite Hc in Hc'. injection Hc' as <-.
    now rewrite Ht.
  - left. cbn. destruct Hl as (c & Hc & _). unfold value_at.
    now rewrite (start_keeps_cells e t_end t_start duration load (world s) l c Hc), Hc.
  - left. cbn. unfold stop_cpu_stress.
    destruct (stress_test_enabled e); cbn; [|reflexivity].
    destruct (stop_flag (world s)) as [sf|] eqn:Hsf; [|reflexivity].
    apply value_at_store_at_ne. intros ->.
    pose proof (has_type_inj _ _ _ _ Hl (inv_flag s I l Hsf)). discriminate.
  - left. cbn.
    destruct (status_consistent e now (world s) (inv_consistent s I))
      as (_ & _ & _ & _ & Hm).
    now rewrite Hm.
Qed.

(** Below [INT_MAX] the counter does not decrease. *)
Lemma counter_monotone_below_max (s : System) (a : action) (l : loc) :
  reachable s ->
  has_type (shm (world s)) l TInt ->
  0 <= value_at (shm (world s)) l < INT_MAX ->
  value_at (shm (world s)) l <= value_at (shm (world (exec s a))) l
  <= value_at (shm (world s)) l + 1.
Proof.
  intros Hr Hl Hv.
  destruct (counter_step s a l (reachable_invariant s Hr) Hl) as [-> | [-> _]]; [lia|].
  rewrite wrap_small; [lia|]. unfold INT_MAX in Hv. cbn. lia.
Qed.

Lemma wrap_plus (t : typecode) (z k : Z) : wrap t (wrap t z + k) = wrap t (z + k).
Proof.
  unfold wrap. cbv zeta.
  assert (E : (z mod 2 ^ bits t + k) mod 2 ^ bits t = (z + k) mod 2 ^ bits t).
  { rewrite Zplus_mod_idemp_l. reflexivity. }
  assert (E' : (z mod 2 ^ bits t - 2 ^ bits t + k) mod 2 ^ bits t = (z + k) mod 2 ^ bits t).
  { replace (z mod 2 ^ bits t - 2 ^ bits t + k)
      with (z mod 2 ^ bits t + k + (-1) * 2 ^ bits t) by ring.
    rewrite Z.mod_add by (destruct t; discriminate). exact E. }
  destruct (z mod 2 ^ bits t <? 2 ^ bits t / 2); [now rewrite E | now rewrite E'].
Qed.

Lemma wrap_wrap (t : typecode) (z : Z) : wrap t (wrap t z) = wrap t z.
Proof.
  pose proof (wrap_plus t z 0) as H. now rewrite !Z.add_0_r in H.
Qed.

(** ** Running a worker alone *)

Lemma cpu_worker_app (a : WorkerArgs) (me : pid) (c1 c2 : list Q) (m : Shm) (s : pc) :
  cpu_worker a me (c1 ++ c2) m s
  = (fst (fst (cpu_worker a me c2 (snd (fst (cpu_worker a me c1 m s)))
                          (fst (fst (cpu_worker a me c1 m s))))),
     snd (fst (cpu_worker a me c2 (snd (fst (cpu_worker a me c1 m s)))
                          (fst (fst (cpu_worker a me c1 m s))))),
     (snd (cpu_worker a me c1 m s)
        ++ snd (cpu_worker a me c2 (snd (fst (cpu_worker a me c1 m s)))
                           (fst (fst (cpu_worker a me c1 m s)))))%list).
Proof.
  revert m s. induction c1 as [|now c1 IH]; intros m s; cbn [app cpu_worker].
  - cbn. now destruct (cpu_worker a me c2 m s) as [[? ?] ?].
  - destruct (cpu_worker_step a me now m s) as [[s1 m1] ev1].
    rewrite (IH m1 s1).
    destruct (cpu_worker a me c1 m1 s1) as [[s2 m2] ev2]. cbn.
    now rewrite app_assoc.
Qed.

(** One turn of the busy loop: six transitions that add one to the counter. *)
Lemma busy_loop_once (a : WorkerArgs) (me : pid) (now sb : Q) (m : Shm) (c : Cell) :
  ltb (now - sb)%Q (busy_time a) = true ->
  stop_set a m = false ->
  m !! iterations_ref a = Some c ->
  owner c = None ->
  cpu_worker a me (repeat now 6) m (InnerTime sb)
  = (InnerTime sb, <[iterations_ref a := set_value c (cval c + 1)]> m, []).
Proof.
  intros Hb Hs Hc Ho. cbn [repeat cpu_worker cpu_worker_step].
  rewrite Hb. cbn [cpu_worker_step]. rewrite Hs. cbn [cpu_worker_step].
  unfold lock_free. rewrite Hc, Ho. cbn [cpu_worker_step].
  unfold with_owner, store_at, value_at.
  rewrite Hc. rewrite !lookup_insert_eq. rewrite !insert_insert_eq.
  cbn. do 2 f_equal. f_equal.
  destruct c as [t v o]. cbn in *. now subst o.
Qed.

Lemma busy_loop (a : WorkerArgs) (me : pid) (now sb : Q) (n : nat) (m : Shm) (c : Cell) :
  ltb (now - sb)%Q (busy_time a) = true ->
  stop_ref a <> iterations_ref a ->
  stop_set a m = false ->
  m !! iterations_ref a = Some c ->
  owner c = None ->
  wrap (ctype c) (cval c) = cval c ->
  cpu_worker a me (repeat now (6 * n)) m (InnerTime sb)
  = (InnerTime sb,
     <[iterations_ref a := set_value c (cval c + Z.of_nat n)]> m,
     []).
Proof.
  intros Hb Hne. revert m c. induction n as [|n IH]; intros m c Hs Hc Ho Hw.
  - cbn. rewrite Z.add_0_r. do 2 f_equal. symmetry. apply insert_id.
    rewrite Hc. f_equal. destruct c as [t v o]. unfold set_value. cbn in *.
    now rewrite Hw.
  - replace (6 * S n)%nat with (6 + 6 * n)%nat by lia.
    rewrite repeat_app, cpu_worker_app.
    rewrite (busy_loop_once a me now sb m c Hb Hs Hc Ho). cbn [fst snd app].
    rewrite (IH _ (set_value c (cval c + 1))).
    + cbn [fst snd app]. rewrite !insert_insert_eq. do 2 f_equal. f_equal.
      unfold set_value. cbn [ctype cval owner]. f_equal.
      rewrite wrap_plus. f_equal. lia.
    + unfold stop_set, value_at in *. now rewrite lookup_insert_ne by congruence.
    + apply lookup_insert_eq.
    + exact Ho.
    + cbn. apply wrap_wrap.
Qed.

(** ** A worker inside the system *)

Lemma run_app (s : System) (l1 l2 : list action) :
  run s (l1 ++ l2) = run (run s l1) l2.
Proof. apply foldl_app. Qed.

(** The transitions of one live process, with nothing in between, are a run
    of [cpu_worker] on the shared memory. *)
Lemma run_ticks (p : pid) (clk : list Q) (s : System) (pr : Proc) :
  procs s !! p = Some pr ->
  alive pr = true ->
  world (run s (map (Tick p) clk))
  = with_shm (world s) (snd (fst (cpu_worker (args pr) p clk (shm (world s)) (at_pc pr)))) /\
  procs (run s (map (Tick p) clk)) !! p
  = Some {| args := args pr;
            at_pc := fst (fst (cpu_worker (args pr) p clk (shm (world s)) (at_pc pr)));
            alive := true |}.
Proof.
  revert s pr. induction clk as [|now clk IH]; intros s pr Hp Ha.
  - cbn. split.
    + now destruct (world s).
    + rewrite Hp. destruct pr. cbn in *. now subst.
  - cbn [map run foldl]. change (foldl exec ?x ?l) with (run x l).
    cbn [exec]. rewrite Hp, Ha. cbn [cpu_worker].
    destruct (cpu_worker_step (args pr) p now (shm (world s)) (at_pc pr))
      as [[s1 m1] ev1].
    cbn [fst snd].
    match goal with
    | |- context [run ?x _] => set (s' := x)
    end.
    destruct (IH s' {| args := args pr; at_pc := s1; alive := true |})
      as [Hw Hpr]; [apply lookup_insert_eq | reflexivity |].
    cbn [args at_pc] in Hw, Hpr. subst s'. cbn [world] in Hw, Hpr.
    change (shm (with_shm (world s) m1)) with m1 in Hw, Hpr.
    destruct (cpu_worker (args pr) p clk m1 s1) as [[s2 m2] ev2].
    cbn [fst snd] in *. split; [|exact Hpr]. rewrite Hw. reflexivity.
Qed.

Lemma reachable_ticks (p : pid) (now : Q) (k : nat) (s : System) :
  reachable s -> (clock s <= now)%Q ->
  reachable (run s (map (Tick p) (repeat now k))) /\
  (clock (run s (map (Tick p) (repeat now k))) <= now)%Q.
Proof.
  revert s. induction k as [|k IH]; intros s Hr Hle; [now split|].
  cbn [repeat map run foldl]. change (foldl exec ?x ?l) with (run x l).
  apply IH.
  - now apply reach_exec.
  - cbn. destruct (procs s !! p) as [pr|]; [|exact Hle].
    destruct (alive pr); [apply Qle_refl | exact Hle].
Qed.

(** ** The counter at the end of its range *)

Lemma long_run_facts :
  procs long_run !! 0%nat
  = Some {| args := long_args; at_pc := OuterTime; alive := true |} /\
  global_iterations (world long_run) = Some 0%nat /\
  shm (world long_run) !! 0%nat = Some (Value TInt 0) /\
  cpu_worker long_args 0%nat (repeat 0%Q 3) (shm (world long_run)) OuterTime
  = (InnerTime 0, shm (world long_run), []) /\
  ltb (0 - 0)%Q (busy_time long_args) = true /\
  stop_set long_args (shm (world long_run)) = false.
Proof. repeat split; vm_compute; reflexivity. Qed.

Lemma long_run_reachable : reachable long_run /\ (clock long_run <= 0)%Q.
Proof.
  split.
  - apply reach_exec; [apply reach_initial|]. cbn. split; apply Qle_refl.
  - apply Qle_refl.
Qed.

Lemma counted_succ (n : nat) : run (counted n) one_more = counted (S n).
Proof.
  unfold counted, one_more, counting. rewrite <- run_app. f_equal.
  replace (3 + 6 * S n)%nat with ((3 + 6 * n) + 6)%nat by lia.
  rewrite (repeat_app _ (3 + 6 * n) 6), map_app. reflexivity.
Qed.

(** After [n] turns of the busy loop the system is reachable and
    [stress_status] reports [n] reduced to the range of a C [int]. *)
Lemma counted_status (n : nat) :
  reachable (counted n) /\
  exists r, status_of one_core 0 (counted n) = Return r /\
            iterations r = wrap TInt (Z.of_nat n).
Proof.
  destruct long_run_facts as (Hp & Hg & Hc & H3 & Hb & Hs).
  destruct long_run_reachable as [Hr Hclk].
  assert (E : counted n = run long_run (map (Tick 0%nat) (repeat 0%Q (3 + 6 * n))))
    by reflexivity.
  assert (Hreach : reachable (counted n)).
  { rewrite E. now apply reachable_ticks. }
  split; [exact Hreach|].
  pose proof (inv_consistent _ (reachable_invariant _ Hreach)) as Hcons.
  destruct (status_total one_core 0 (world (counted n)) eq_refl Hcons)
    as (r & w' & Hst & _ & Hit & _).
  exists r. unfold status_of. rewrite Hst. split; [reflexivity|].
  rewrite Hit, E.
  destruct (run_ticks 0%nat (repeat 0%Q (3 + 6 * n)) long_run _ Hp eq_refl) as [Hw _].
  rewrite Hw. cbn [args at_pc].
  change (global_iterations (with_shm (world long_run) ?m))
    with (global_iterations (world long_run)).
  rewrite Hg.
  change (shm (with_shm (world long_run) ?m)) with m.
  rewrite (repeat_app _ 3 (6 * n)), cpu_worker_app, H3. cbn [fst snd].
  rewrite (busy_loop long_args 0%nat 0 0 n _ (Value TInt 0) Hb);
    [|discriminate|exact Hs|exact Hc|reflexivity|reflexivity].
  cbn [fst snd]. unfold value_at. change (iterations_ref long_args) with 0%nat.
  rewrite lookup_insert_eq. reflexivity.
Qed.

(** C8 fails at the end of the range of the counter. The state reached by
    [start_cpu_stress(duration=1000000, load=100)] and 2147483647 turns of
    the busy loop is reachable, and [stress_status] reports
    [iterations = 2147483647] in it; one more turn of the busy loop, six
    transitions of the worker, and it reports [iterations = -2147483648]:
    the counter has decreased. *)
Theorem counter_wraps_around :
  reachable (counted (Z.to_nat INT_MAX)) /\
  reachable (run (counted (Z.to_nat INT_MAX)) one_more) /\
  (exists r, status_of one_core 0 (counted (Z.to_nat INT_MAX)) = Return r /\
             iterations r = INT_MAX) /\
  (exists r, status_of one_core 0 (run (counted (Z.to_nat INT_MAX)) one_more)
             = Return r /\
             iterations r = INT_MIN).
Proof.
  assert (H : forall n, Z.of_nat n = INT_MAX ->
            reachable (counted n) /\
            reachable (run (counted n) one_more) /\
            (exists r, status_of one_core 0 (counted n) = Return r /\
                       iterations r = INT_MAX) /\
            (exists r, status_of one_core 0 (run (counted n) one_more) = Return r /\
                       iterations r = INT_MIN)).
  { intros n Hn. rewrite counted_succ.
    destruct (counted_status n) as (Hr & r & Hst & Hit).
    destruct (counted_status (S n)) as (Hr' & r' & Hst' & Hit').
    split; [exact Hr|]. split; [exact Hr'|]. split.
    - exists r. split; [exact Hst|]. now rewrite Hit, Hn.
    - exists r'. split; [exact Hst'|]. now rewrite Hit', Nat2Z.inj_succ, Hn. }
  apply H. apply Z2Nat.id. discriminate.
Qed.

(** * The properties on the scenarios *)

(** The state after a first start is consistent. *)
Lemma started_2_50_consistent : consistent started_2_50.
Proof.
  split.
  - right. exists true. vm_compute. reflexivity.
  - intros _. exists (VFloat 2). vm_compute. reflexivity.
  - intros l H1 H2. vm_compute in H1, H2. congruence.
Qed.

(** Scenarios C and D of the specification, a valid request, and a request
    whose duration no float can hold. *)
Lemma start_validation_witness :
  stress_test_enabled test_env = true /\
  start_cpu_stress test_env 0 0 0 50 initial_world
  = (Raise invalid_parameter, initial_world, []) /\
  start_cpu_stress test_env 0 0 3 150 initial_world
  = (Raise invalid_parameter, initial_world, []) /\
  (exists r w' evs,
     start_cpu_stress test_env 0 0 2 50 initial_world = (Return r, w', evs)) /\
  (exists w' evs,
     start_cpu_stress test_env 0 0 (10 ^ 400) 50 initial_world
     = (Raise OverflowError, w', evs)).
Proof.
  split; [reflexivity|]. split; [|split; [|split]].
  - apply (proj1 (start_validation test_env 0 0 0 50 initial_world eq_refl)). lia.
  - apply (proj1 (start_validation test_env 0 0 3 150 initial_world eq_refl)). lia.
  - apply (proj2 (start_validation test_env 0 0 2 50 initial_world eq_refl)).
    + lia.
    + apply Z.ltb_lt. vm_compute. reflexivity.
  - apply (proj2 (start_validation test_env 0 0 (10 ^ 400) 50 initial_world eq_refl)).
    + split; [apply Z.ltb_lt; vm_compute; reflexivity | lia].
    + apply Z.leb_le. vm_compute. reflexivity.
Defined.


(** The same query, for the counter. *)
Lemma status_iterations_witness :
  stress_test_enabled test_env = true /\
  consistent started_2_50 /\
  exists r w',
    stress_status test_env (1 # 10) started_2_50 = (Return r, w', []) /\
    (forall l c,
       global_iterations started_2_50 = Some l -> shm started_2_50 !! l = Some c ->
       iterations r = cval c) /\
    (global_iterations started_2_50 = None -> iterations r = 0).
Proof.
  split; [reflexivity|]. split; [exact started_2_50_consistent|].
  exact (status_iterations test_env (1 # 10) started_2_50 eq_refl
           started_2_50_consistent).
Defined.


(** Stopping the test of 2 seconds with its two workers: two joins, in
    order, the flag (cell 1) set and the counter (cell 0) as it was. *)
Lemma stop_effects_witness :
  stress_test_enabled test_env = true /\
  exists w',
    stop_cpu_stress test_env (world Requests.two_workers)
    = (Return stop_response, w', [EJoin 0%nat 1; EJoin 1%nat 1]) /\
    procs (exec Requests.two_workers (CallStop test_env)) = procs Requests.two_workers /\
    value_at (shm w') 1%nat = 1 /\
    shm w' !! 0%nat = shm (world Requests.two_workers) !! 0%nat /\
    cpu_stress_status_data w' !! "running" = Some (VBool false) /\
    cpu_stress_processes w' = [].
Proof.
  split; [reflexivity|].
  destruct (stop_effects test_env Requests.two_workers eq_refl)
    as (w' & Hs & _ & Hp & Hflag & Hother & Hrun & Hps & _).
  exists w'. split; [exact Hs|]. split; [exact Hp|]. split; [|split; [|split]].
  - apply Hflag; [reflexivity|]. eexists. vm_compute. reflexivity.
  - apply Hother. discriminate.
  - exact Hrun.
  - exact Hps.
Defined.

(** Stopping the long test twice. *)
Lemma stop_idempotent_witness :
  stress_test_enabled one_core = true /\
  exists w1,
    stop_cpu_stress one_core (world long_run)
    = (Return stop_response, w1, join_all (cpu_stress_processes (world long_run))) /\
    stop_cpu_stress one_core w1 = (Return stop_response, w1, []) /\
    running_now w1 = false /\
    (exists w0, stop_cpu_stress one_core initial_world = (Return stop_response, w0, [])) /\
    (forall now, exists r : StatusResponse,
       fst (fst (stress_status one_core now w1)) = Return r /\ running r = VBool false) /\
    (forall now,
       consistent (world long_run) -> running_now (world long_run) = false ->
       fst (fst (stress_status one_core now w1))
       = fst (fst (stress_status one_core now (world long_run)))).
Proof.
  split; [reflexivity|]. exact (stop_idempotent one_core (world long_run) eq_refl).
Defined.

(** The worker of the idle test ([load = 0]) and that of the long test
    ([load = 100]), each about to make its first transition at time 1. *)
Lemma duty_cycle_witness :
  (reachable idle_run /\
   procs idle_run !! 0%nat
   = Some {| args := idle_args; at_pc := OuterTime; alive := true |} /\
   (clock idle_run <= 1)%Q /\
   load idle_args = 0 /\
   (busy_time idle_args == 0)%Q /\
   shm (world (exec idle_run (Tick 0%nat 1))) = shm (world idle_run) /\
   after_busy idle_args = IdleStop) /\
  (reachable long_run /\
   procs long_run !! 0%nat
   = Some {| args := long_args; at_pc := OuterTime; alive := true |} /\
   (clock long_run <= 1)%Q /\
   load long_args = 100 /\
   (idle_time long_args == 0)%Q /\
   after_busy long_args = OuterTime /\
   snd (cpu_worker_step long_args 0%nat 1 (shm (world long_run)) OuterTime) = []).
Proof.
  assert (Hi : reachable idle_run).
  { apply reach_exec; [apply reach_initial|]. cbn. split; apply Qle_refl. }
  assert (Hl : reachable long_run).
  { apply reach_exec; [apply reach_initial|]. cbn. split; apply Qle_refl. }
  assert (Hpi : procs idle_run !! 0%nat
                = Some {| args := idle_args; at_pc := OuterTime; alive := true |})
    by (vm_compute; reflexivity).
  assert (Hpl : procs long_run !! 0%nat
                = Some {| args := long_args; at_pc := OuterTime; alive := true |})
    by (vm_compute; reflexivity).
  assert (Hci : (clock idle_run <= 1)%Q) by (vm_compute; discriminate).
  assert (Hcl : (clock long_run <= 1)%Q) by (vm_compute; discriminate).
  split.
  - destruct (duty_cycle idle_run 0%nat _ 1 Hi Hpi Hci) as (_ & _ & H0 & _).
    destruct (H0 eq_refl) as (Hb & _ & Hm & Ha).
    specialize (Ha eq_refl).
    repeat split; try assumption.
  - destruct (duty_cycle long_run 0%nat _ 1 Hl Hpl Hcl) as (_ & _ & _ & H100).
    destruct (H100 eq_refl) as (Hidle & _ & Ha & Hev).
    repeat split; assumption.
Defined.

(** A worker of the idle test first scheduled at time 3, after its end time
    2; the worker of the long test, stopped while it waits to enter the
    locked block; and that worker at the stop test of line 35 when the
    clock reaches the end time. *)
Lemma worker_exit_witness :
  (end_time idle_args <= 3)%Q /\
  cpu_worker idle_args 0%nat [3; 4; 5]%Q (shm (world idle_run)) OuterTime
  = (Exited, shm (world idle_run), []) /\
  stop_set long_args (shm (world long_run_stopped)) = true /\
  cpu_worker_step long_args 0%nat 3 (shm (world long_run_stopped)) OuterStop
  = (Exited, shm (world long_run_stopped), []) /\
  fst (fst (cpu_worker long_args 0%nat (repeat 0%Q 9)
              (shm (world long_run_stopped)) (Acquire 0)))
  = Exited /\
  stop_set long_args (shm (world long_run)) = false /\
  Forall (fun r => (end_time long_args <= r)%Q) (repeat 1000000%Q 9) /\
  busy_phase_over long_args (InnerStop 0) (repeat 1000000%Q 9) /\
  fst (fst (cpu_worker long_args 0%nat (repeat 1000000%Q 9)
              (shm (world long_run)) (InnerStop 0)))
  = Exited.
Proof.
  assert (H1 : (end_time idle_args <= 3)%Q) by (vm_compute; discriminate).
  assert (H2 : stop_set long_args (shm (world long_run_stopped)) = true)
    by (vm_compute; reflexivity).
  assert (H3 : Forall (fun r => (end_time long_args <= r)%Q) (repeat 1000000%Q 9)).
  { apply Forall_forall. intros r Hr. apply list_elem_of_In, repeat_spec in Hr.
    subst r. vm_compute. discriminate. }
  assert (H4 : busy_phase_over long_args (InnerStop 0) (repeat 1000000%Q 9)).
  { apply Forall_forall. intros r Hr. apply list_elem_of_In, repeat_spec in Hr.
    subst r. vm_compute. discriminate. }
  split; [exact H1|]. split; [|split; [exact H2|split; [|split]]].
  - apply (proj1 (worker_exit idle_args 0%nat 3 [4; 5]%Q (shm (world idle_run)))).
    exact H1.
  - apply (proj1 (proj2 (worker_exit long_args 0%nat 3 []
                           (shm (world long_run_stopped))))).
    exact H2.
  - apply (proj1 (proj2 (proj2 (worker_exit long_args 0%nat 0 (repeat 0%Q 9)
                                  (shm (world long_run_stopped)))))).
    + exact H2.
    + discriminate.
    + intros sb _. vm_compute. reflexivity.
    + cbn. lia.
  - split; [vm_compute; reflexivity|]. split; [exact H3|]. split; [exact H4|].
    apply (proj2 (proj2 (proj2 (worker_exit long_args 0%nat 0 (repeat 1000000%Q 9)
                                  (shm (world long_run)))))).
    + exact H3.
    + exact H4.
    + intros sb _. vm_compute. reflexivity.
    + cbn. lia.
Defined.


(** * Further properties of the endpoints *)

Import Requests.

(** ** Induction over the reachable states *)

(** A property of the globals holds in every reachable state if it holds
    initially and is kept by the three endpoints and by any change of the
    shared memory. *)
Lemma world_invariant (P : World -> Prop) :
  P initial_world ->
  (forall w m, P w -> P (with_shm w m)) ->
  (forall e t_end t_start duration load w,
     (t_end <= t_start)%Q -> P w ->
     P (snd (fst (start_cpu_stress e t_end t_start duration load w)))) ->
  (forall e w, P w -> P (snd (fst (stop_cpu_stress e w)))) ->
  (forall e now w, P w -> P (snd (fst (stress_status e now w)))) ->
  forall s, reachable s -> P (world s).
Proof.
  intros H0 Hm Hstart Hstop Hstatus s Hr.
  induction Hr as [|s a _ IH Ht]; [exact H0|].
  destruct a as [p now | e t_end t_start duration load | e | e now]; cbn.
  - destruct (procs s !! p) as [pr|]; [|exact IH].
    destruct (alive pr); [|exact IH]. cbn. now apply Hm.
  - destruct Ht as [_ Ht]. now apply Hstart.
  - now apply Hstop.
  - now apply Hstatus.
Qed.

(** A property of the arguments and program point of a worker holds for
    every process of every reachable state if it holds at the entry of
    [cpu_worker] and is kept by its transitions. *)
Lemma proc_invariant (P : WorkerArgs -> pc -> Prop) :
  (forall a, P a OuterTime) ->
  (forall a me now m s, P a s -> P a (fst (fst (cpu_worker_step a me now m s)))) ->
  forall s, reachable s ->
  forall p pr, procs s !! p = Some pr -> P (args pr) (at_pc pr).
Proof.
  intros H0 Hstep s Hr.
  induction Hr as [|s a _ IH Ht]; intros p pr Hp.
  { cbn in Hp. rewrite lookup_empty in Hp. discriminate. }
  assert (Hev : forall evs,
            foldl apply_event (procs s) evs !! p = Some pr -> P (args pr) (at_pc pr)).
  { intros evs H.
    apply procs_after_events in H as [(pr0 & H0' & Ha & Hpc) | (q & _ & _ & Ha & Hpc)].
    - rewrite Ha, Hpc. now apply (IH p).
    - rewrite Hpc. apply H0. }
  destruct a as [q now | e t_end t_start duration load | e | e now]; cbn in Hp.
  - destruct (procs s !! q) as [qr|] eqn:Hq; [|now apply (IH p)].
    destruct (alive qr); [|now apply (IH p)]. cbn in Hp.
    destruct (decide (q = p)) as [->|Hne].
    + rewrite lookup_insert_eq in Hp. injection Hp as <-. cbn.
      apply Hstep. now apply (IH p).
    + rewrite lookup_insert_ne in Hp by exact Hne. now apply (IH p).
  - now apply (Hev _ Hp).
  - now apply (Hev _ Hp).
  - now apply (Hev _ Hp).
Qed.

(** ** [stress_status] asked twice, and over time *)

Lemma max0_mono (x y : Q) : (x <= y)%Q -> (max0 x <= max0 y)%Q.
Proof.
  intros H. unfold max0.
  destruct (ltb 0 x) eqn:Ex, (ltb 0 y) eqn:Ey.
  - exact H.
  - apply ltb_lt in Ex. apply ltb_ge in Ey.
    exfalso. apply (Qlt_irrefl 0). eapply Qlt_le_trans; [exact Ex|].
    eapply Qle_trans; eassumption.
  - apply Qlt_le_weak, ltb_lt, Ey.
  - apply Qle_refl.
Qed.

Lemma int_mono (x y : Q) : (0 <= x)%Q -> (x <= y)%Q -> int x <= int y.
Proof.
  intros Hx Hxy. rewrite (int_floor x Hx), (int_floor y).
  - now apply Qfloor_resp_le.
  - eapply Qle_trans; eassumption.
Qed.

(** X1. Asking [stress_status] again with the same clock reading gives the
    same outcome and changes nothing more: whatever the flag, the state and
    the reading, the second call returns what the first returned and leaves
    the world the first left. *)
Theorem status_twice (e : Env) (now : Q) (w : World) :
  stress_status e now (snd (fst (stress_status e now w)))
  = (fst (fst (stress_status e now w)), snd (fst (stress_status e now w)), []).
Proof.
  unfold stress_status.
  destruct (stress_test_enabled e) eqn:He; cbn [negb]; [|reflexivity].
  set (d := cpu_stress_status_data w).
  destruct (truthy (dict_get d "running" (VBool false))) eqn:Hrun.
  - destruct (d !! "end_time") as [v|] eqn:Hv.
    2:{ cbn. fold d. now rewrite Hrun, Hv. }
    assert (Hd : dict_get d "end_time" (VInt 0) = v) by (unfold dict_get; now rewrite Hv).
    rewrite Hd. cbn [fst snd cpu_stress_status_data global_iterations shm].
    destruct (geb now (num v)) eqn:Hg.
    + assert (E1 : dict_get (<["running" := VBool false]> d) "running" (VBool false)
                   = VBool false) by (unfold dict_get; now rewrite lookup_insert_eq).
      assert (E2 : dict_get (<["running" := VBool false]> d) "end_time" (VInt 0) = v).
      { unfold dict_get. now rewrite lookup_insert_ne, Hv. }
      rewrite E1, E2, Hg. cbn [truthy]. rewrite insert_insert_eq, E1.
      assert (E3 : max0 (num v - now)%Q = 0%Q).
      { unfold max0. assert (E : ltb 0 (num v - now)%Q = false); [|now rewrite E].
        apply ltb_ge. apply geb_le in Hg.
        rewrite <- (Qplus_opp_r now). apply Qplus_le_compat; [exact Hg | apply Qle_refl]. }
      rewrite E3. reflexivity.
    + rewrite Hrun, Hv, Hd, Hg. reflexivity.
  - cbn [fst snd cpu_stress_status_data global_iterations shm].
    destruct (geb now (num (dict_get d "end_time" (VInt 0)))) eqn:Hg.
    + assert (E1 : dict_get (<["running" := VBool false]> d) "running" (VBool false)
                   = VBool false) by (unfold dict_get; now rewrite lookup_insert_eq).
      assert (E2 : dict_get (<["running" := VBool false]> d) "end_time" (VInt 0)
                   = dict_get d "end_time" (VInt 0)).
      { unfold dict_get. now rewrite lookup_insert_ne. }
      rewrite E1, E2, Hg. cbn [truthy]. now rewrite insert_insert_eq, E1.
    + rewrite Hrun, Hg. reflexivity.
Qed.

(** What [stress_status] computes when it returns. *)
Lemma status_returns (e : Env) (now : Q) (w w' : World) (r : StatusResponse)
    (evs : list event) :
  stress_status e now w = (Return r, w', evs) ->
  remaining_seconds r
  = (if running_now w then int (max0 (deadline w - now)%Q) else 0) /\
  iterations r = current_count w.
Proof.
  unfold stress_status, running_now, deadline, current_count.
  destruct (stress_test_enabled e); cbn [negb]; [|discriminate].
  destruct (truthy (dict_get (cpu_stress_status_data w) "running" (VBool false))).
  - destruct (cpu_stress_status_data w !! "end_time") as [v|] eqn:Hv; [|discriminate].
    intros [= <- <- <-]. cbn. unfold dict_get. rewrite Hv. now split.
  - intros [= <- <- <-]. now split.
Qed.

(** Anything but a start leaves the end time where it is and can only turn
    [running] off. *)
Lemma exec_quiet (s : System) (a : action) :
  is_start a = false ->
  cpu_stress_status_data (world (exec s a)) !! "end_time"
  = cpu_stress_status_data (world s) !! "end_time" /\
  (running_now (world (exec s a)) = true -> running_now (world s) = true).
Proof.
  intros Ha. destruct a as [p now | | e | e now]; try discriminate; cbn.
  - destruct (procs s !! p) as [pr|]; [|now split].
    destruct (alive pr); now split.
  - unfold stop_cpu_stress. destruct (stress_test_enabled e); cbn; [|now split].
    split; [now rewrite lookup_insert_ne|].
    unfold running_now, dict_get. cbn. rewrite lookup_insert_eq. discriminate.
  - unfold stress_status. destruct (stress_test_enabled e); cbn [negb]; [|now split].
    destruct (truthy (dict_get (cpu_stress_status_data (world s)) "running" (VBool false)))
      eqn:Hrun.
    + destruct (cpu_stress_status_data (world s) !! "end_time") as [v|] eqn:Hv;
        [|cbn; now split].
      cbn. destruct (geb now _); [|now split].
      split; [now rewrite lookup_insert_ne|].
      unfold running_now, dict_get. cbn. rewrite lookup_insert_eq. discriminate.
    + cbn. destruct (geb now _); [|now split].
      split; [now rewrite lookup_insert_ne|].
      unfold running_now, dict_get. cbn. rewrite lookup_insert_eq. discriminate.
Qed.

Lemma run_quiet (sched : list action) (s : System) :
  Forall (fun a => is_start a = false) sched ->
  cpu_stress_status_data (world (run s sched)) !! "end_time"
  = cpu_stress_status_data (world s) !! "end_time" /\
  (running_now (world (run s sched)) = true -> running_now (world s) = true).
Proof.
  intros Hf. revert s. induction Hf as [|a sched Ha _ IH]; intros s; [now split|].
  cbn. change (foldl exec ?x ?l) with (run x l).
  destruct (IH (exec s a)) as [IH1 IH2]. destruct (exec_quiet s a Ha) as [H1 H2].
  split; [now rewrite IH1 | auto].
Qed.

(** X2. The remaining time never grows: between two status queries that
    return, the second at a later clock reading, with any transitions of the
    workers, stops and further queries in between but no start, the second
    [remaining_seconds] is at most the first, and both are non-negative. *)
Theorem remaining_never_grows (s : System) (e1 e2 : Env) (sched : list action)
    (now1 now2 : Q) (r1 r2 : StatusResponse) :
  Forall (fun a => is_start a = false) sched ->
  (now1 <= now2)%Q ->
  status_of e1 now1 s = Return r1 ->
  status_of e2 now2 (run s sched) = Return r2 ->
  0 <= remaining_seconds r2 <= remaining_seconds r1.
Proof.
  intros Hf Hle H1 H2. unfold status_of in *.
  destruct (stress_status e1 now1 (world s)) as [[o1 w1] ev1] eqn:E1.
  destruct (stress_status e2 now2 (world (run s sched))) as [[o2 w2] ev2] eqn:E2.
  cbn in H1, H2. subst o1 o2.
  destruct (status_returns _ _ _ _ _ _ E1) as [-> _].
  destruct (status_returns _ _ _ _ _ _ E2) as [-> _].
  destruct (run_quiet sched s Hf) as [Hend Hrun].
  assert (Hd : deadline (world (run s sched)) = deadline (world s)).
  { unfold deadline, dict_get. now rewrite Hend. }
  destruct (running_now (world (run s sched))) eqn:R2.
  - rewrite (Hrun eq_refl), Hd. split.
    + apply int_nonneg, max0_nonneg.
    + apply int_mono; [apply max0_nonneg|]. apply max0_mono.
      apply Qplus_le_compat; [apply Qle_refl|]. now apply Qopp_le_compat.
  - split; [lia|]. destruct (running_now (world s)); [|lia].
    apply int_nonneg, max0_nonneg.
Qed.

(** The module while no test has been started. *)
Lemma exec_never_started (s : System) (a : action) :
  starts_nothing a ->
  global_iterations (world s) = None /\
  (cpu_stress_status_data (world s) !! "running" = None \/
   cpu_stress_status_data (world s) !! "running" = Some (VBool false)) ->
  global_iterations (world (exec s a)) = None /\
  (cpu_stress_status_data (world (exec s a)) !! "running" = None \/
   cpu_stress_status_data (world (exec s a)) !! "running" = Some (VBool false)).
Proof.
  intros Ha [Hg Hd].
  destruct a as [p now | e t_end t_start duration load | e | e now]; cbn in *.
  - destruct (procs s !! p) as [pr|]; [|now split].
    destruct (alive pr); now split.
  - destruct (start_cases e t_end t_start duration load (world s))
      as [[x Hx] | (He & Hdur & Hl)].
    + rewrite Hx. now split.
    + exfalso. rewrite He in Ha. destruct Ha as [Ha | Ha]; [discriminate | lia].
  - unfold stop_cpu_stress. destruct (stress_test_enabled e); cbn; [|now split].
    split; [exact Hg|]. right. apply lookup_insert_eq.
  - unfold stress_status. destruct (stress_test_enabled e); cbn [negb]; [|now split].
    assert (Hrun : truthy (dict_get (cpu_stress_status_data (world s)) "running"
                             (VBool false)) = false).
    { unfold dict_get. destruct Hd as [-> | ->]; reflexivity. }
    rewrite Hrun. cbn. split; [exact Hg|].
    destruct (geb now _); [|exact Hd]. right. apply lookup_insert_eq.
Qed.

(** X3. Until a call of [start_cpu_stress] passes the gate and the
    validation, whatever else is requested (stops, status queries, starts
    that are refused), [stress_status] answers [running = False],
    [remaining_seconds = 0] and [iterations = 0] at every clock reading. *)
Theorem nothing_before_start (sched : list action) (e : Env) (now : Q) :
  Forall starts_nothing sched ->
  stress_test_enabled e = true ->
  status_of e now (run initial sched) = Return nothing_to_report.
Proof.
  intros Hf He.
  assert (H : global_iterations (world (run initial sched)) = None /\
              (cpu_stress_status_data (world (run initial sched)) !! "running" = None \/
               cpu_stress_status_data (world (run initial sched)) !! "running"
               = Some (VBool false))).
  { assert (H0 : global_iterations (world initial) = None /\
                 (cpu_stress_status_data (world initial) !! "running" = None \/
                  cpu_stress_status_data (world initial) !! "running"
                  = Some (VBool false))) by (split; [reflexivity | now left]).
    revert H0. generalize initial.
    induction Hf as [|a sched Ha _ IH]; intros s H0; [exact H0|].
    cbn. apply IH. now apply exec_never_started. }
  destruct H as [Hg Hd]. unfold status_of, stress_status. rewrite He. cbn [negb].
  assert (Hrun : truthy (dict_get (cpu_stress_status_data (world (run initial sched)))
                           "running" (VBool false)) = false).
  { unfold dict_get. destruct Hd as [-> | ->]; reflexivity. }
  rewrite Hrun, Hg. cbn. unfold nothing_to_report. do 2 f_equal.
  destruct (geb now _).
  - unfold dict_get. now rewrite lookup_insert_eq.
  - unfold dict_get. destruct Hd as [-> | ->]; reflexivity.
Qed.

(** X4. [stop_cpu_stress] does not reset the count: in a consistent state
    the status query that follows a stop answers [running = False],
    [remaining_seconds = 0], however far the end time is, and [iterations]
    equal to the value the counter had before the stop. *)
Theorem stop_keeps_count (e : Env) (now : Q) (w : World) :
  stress_test_enabled e = true ->
  consistent w ->
  fst (fst (stress_status e now (snd (fst (stop_cpu_stress e w)))))
  = Return {| running := VBool false;
              remaining_seconds := 0;
              iterations := current_count w |}.
Proof.
  intros He Hc. rewrite (stop_total e w He). cbn [fst snd].
  set (w1 := {| cpu_stress_processes := [] |}).
  assert (Hst : stopped w1) by apply lookup_insert_eq.
  destruct (stress_status e now w1) as [[o w2] evs] eqn:E.
  destruct (status_when_stopped e now w1 Hst) as [_ H].
  destruct (H He) as (r & Hr & Hrun & Hrem). rewrite E in Hr. cbn in Hr. subst o.
  destruct (status_returns _ _ _ _ _ _ E) as [_ Hit]. cbn [fst].
  destruct r as [a b c]. cbn in *. subst a b. do 2 f_equal.
  rewrite Hit. unfold current_count. cbn.
  destruct (global_iterations w) as [l|] eqn:Hl; [|reflexivity].
  destruct (stop_flag w) as [sf|] eqn:Hsf; [|reflexivity].
  apply value_at_store_at_ne. intros ->. now apply (refs_distinct w Hc l).
Qed.

(** ** The globals *)

(** X5. The globals keep one of three shapes in every reachable state.
    Before any call of [start_cpu_stress] got past the validation there is
    no end time, no counter, no stop flag and no entry but ["running"] in
    the status dictionary. After such calls that all ended with the
    [OverflowError] of line 95 there is a counter and a stop flag, two
    objects, and still no end time and no entry but ["running"]. Once a test
    was started the global [cpu_stress_end_time] and the ["end_time"] entry
    agree, all the entries written by [start_cpu_stress] are there with
    [0 < duration < 2 ^ 1024 - 2 ^ 970] and [0 <= load <= 100], the end time
    is the float sum of a clock reading no later than [start_time] and the
    duration, and the counter and the stop flag are two objects. *)
Theorem globals_shape (s : System) :
  reachable s ->
  never_started (world s) \/ start_failed (world s) \/ started (world s).
Proof.
  apply (world_invariant
           (fun w => never_started w \/ start_failed w \/ started w)).
  - left. unfold never_started. cbn. repeat split; auto.
  - intros w m H. exact H.
  - intros e t_end t_start duration load w Hle H.
    destruct (start_cases e t_end t_start duration load w)
      as [[x Hx] | (He & Hd & Hl)].
    { now rewrite Hx. }
    assert (Hne : new_loc (shm w)
                  <> new_loc (<[new_loc (shm w) := Value TInt 0]> (shm w))).
    { intros E. symmetry in E. revert E. apply alloc_distinct. }
    pose proof (float_of_int_overflow duration) as Ho.
    rewrite (Z.abs_eq duration) in Ho by lia.
    destruct (float_of_int duration) as [d|] eqn:Hf.
    + rewrite (start_total e t_end t_start duration load w d He Hd Hl Hf).
      cbn [fst snd].
      right. right. unfold started. cbn.
      exists (float_add t_end d), t_start, duration, load, (worker_count e).
      eexists _, _. exists t_end, d.
      assert (Hsmall : duration < 2 ^ 1024 - 2 ^ 970).
      { destruct (Z.lt_ge_cases duration (2 ^ 1024 - 2 ^ 970)) as [|Hge];
          [assumption|]. apply Ho in Hge. discriminate. }
      repeat split; try reflexivity; try assumption; try apply Hl.
    + rewrite (start_overflow e t_end t_start duration load w He Hd Hl Hf).
      cbn [fst snd]. right.
      destruct H as [(H1 & H2 & H3 & H4) | [(H1 & H2 & H4)
                    | (t & ts & dur & ld & n & li & ls & t0 & d & H)]].
      * left. unfold start_failed. cbn. split; [exact H1|]. split; [eauto|exact H4].
      * left. unfold start_failed. cbn. split; [exact H1|]. split; [eauto|exact H4].
      * right. eexists t, ts, dur, ld, n, _, _, t0, d. cbn.
        destruct H as (? & ? & ? & ? & ? & ? & ? & ? & ? & ? & ? & _).
        repeat split; try eassumption; try lia; try reflexivity.
  - intros e w H. unfold stop_cpu_stress.
    destruct (stress_test_enabled e); cbn [negb fst snd]; [|exact H].
    destruct H as [(H1 & H2 & H3 & H4) | [(H1 & H2 & H4)
                  | (t & ts & dur & ld & n & li & ls & t0 & d & H)]].
    + left. repeat split; cbn; auto.
      intros k Hk. rewrite lookup_insert_ne by congruence. now apply H4.
    + right. left. repeat split; cbn; auto.
      intros k Hk. rewrite lookup_insert_ne by congruence. now apply H4.
    + right. right. exists t, ts, dur, ld, n, li, ls, t0, d. cbn.
      rewrite !lookup_insert_ne by done. exact H.
  - intros e now w H.
    assert (Hd : forall w',
               cpu_stress_processes w' = cpu_stress_processes w ->
               global_iterations w' = global_iterations w ->
               stop_flag w' = stop_flag w ->
               cpu_stress_end_time w' = cpu_stress_end_time w ->
               cpu_stress_status_data w'
               = <["running" := VBool false]> (cpu_stress_status_data w) ->
               never_started w' \/ start_failed w' \/ started w').
    { intros w' _ Hg Hf He' Hdict.
      destruct H as [(H1 & H2 & H3 & H4) | [(H1 & H2 & H4)
                    | (t & ts & dur & ld & n & li & ls & t0 & d & H)]].
      - left. unfold never_started. rewrite Hg, Hf, He', Hdict. repeat split; auto.
        intros k Hk. rewrite lookup_insert_ne by congruence. now apply H4.
      - right. left. unfold start_failed. rewrite Hg, Hf, He', Hdict.
        repeat split; auto.
        intros k Hk. rewrite lookup_insert_ne by congruence. now apply H4.
      - right. right. exists t, ts, dur, ld, n, li, ls, t0, d.
        rewrite Hg, Hf, He', Hdict.
        rewrite !lookup_insert_ne by done. exact H. }
    unfold stress_status.
    destruct (stress_test_enabled e); cbn [negb fst snd]; [|exact H].
    destruct (truthy _).
    + destruct (cpu_stress_status_data w !! "end_time"); [|exact H].
      cbn [fst snd]. destruct (geb now _); [now apply Hd | now destruct w].
    + cbn [fst snd]. destruct (geb now _); [now apply Hd | now destruct w].
Qed.

(** ** The lock and the counter *)

(** X6. Mutual exclusion: in every reachable state two different processes
    bound to the same counter are never both inside the block of line 37
    (between taking the lock and releasing it). *)
Theorem lock_exclusive (s : System) (p q : pid) (pr qr : Proc) :
  reachable s ->
  procs s !! p = Some pr ->
  procs s !! q = Some qr ->
  p <> q ->
  iterations_ref (args pr) = iterations_ref (args qr) ->
  holds_lock (at_pc pr) = true ->
  holds_lock (at_pc qr) = false.
Proof.
  intros Hr Hp Hq Hne Href Hh.
  pose proof (reachable_invariant s Hr) as I.
  pose proof (lock_ok_holds _ _ _ _ (inv_lock s I p pr Hp)) as Lp.
  pose proof (lock_ok_holds _ _ _ _ (inv_lock s I q qr Hq)) as Lq.
  rewrite Hh in Lp. destruct (holds_lock (at_pc qr)); [|reflexivity].
  rewrite <- Href in Lq. congruence.
Qed.

(** X7. No update of a counter is lost and nothing else writes it: in a
    reachable state an action leaves the value of a counter as it is, unless
    it is the write of line 38 by a worker bound to that counter, which then
    stores exactly the current value plus one, reduced to the range of a C
    [int]. *)
Theorem increments_are_exact (s : System) (a : action) (l : loc) :
  reachable s ->
  has_type (shm (world s)) l TInt ->
  value_at (shm (world (exec s a))) l = value_at (shm (world s)) l \/
  (value_at (shm (world (exec s a))) l = wrap TInt (value_at (shm (world s)) l + 1) /\
   exists p now pr sb,
     a = Tick p now /\ procs s !! p = Some pr /\ alive pr = true /\
     iterations_ref (args pr) = l /\
     at_pc pr = WriteCtr sb (value_at (shm (world s)) l)).
Proof.
  intros Hr Hl. pose proof (reachable_invariant s Hr) as I.
  destruct a as [p now | e t_end t_start duration load | e | e now].
  - cbn. destruct (procs s !! p) as [pr|] eqn:Hp; [|now left].
    destruct (alive pr) eqn:Ha; [|now left]. cbn.
    destruct (step_value (args pr) p now (shm (world s)) (at_pc pr) l)
      as [H | (sb & tmp & c & Hpc & E & Hc & Hv)]; [now left|].
    right. pose proof (inv_lock s I p pr Hp) as Hlk. rewrite Hpc in Hlk.
    destruct Hlk as [_ Htmp]. rewrite <- E in Htmp. split.
    + rewrite Hv, Htmp. destruct Hl as (c' & Hc' & Ht).
      rewrite Hc in Hc'. injection Hc' as <-. now rewrite Ht.
    + exists p, now, pr, sb. repeat split; auto. now rewrite Hpc, Htmp.
  - destruct (counter_step s (CallStart e t_end t_start duration load) l I Hl)
      as [H | [_ (p & now & E)]]; [now left | discriminate].
  - destruct (counter_step s (CallStop e) l I Hl)
      as [H | [_ (p & now & E)]]; [now left | discriminate].
  - destruct (counter_step s (CallStatus e now) l I Hl)
      as [H | [_ (p & now' & E)]]; [now left | discriminate].
Qed.

(** X8. A stop flag is written by [stop_cpu_stress] only, and only with
    [True]: in a reachable state an action leaves the value of a flag as it
    is, unless it is a stop that passes the gate while the flag is the
    current one, which stores 1. Workers never write a flag and nothing
    clears one: a flag that is set stays set. *)
Theorem stop_flag_stays_set (s : System) (a : action) (l : loc) :
  reachable s ->
  has_type (shm (world s)) l TByte ->
  (value_at (shm (world (exec s a))) l = value_at (shm (world s)) l \/
   (value_at (shm (world (exec s a))) l = 1 /\
    exists e, a = CallStop e /\ stress_test_enabled e = true /\
              stop_flag (world s) = Some l)) /\
  (value_at (shm (world s)) l <> 0 -> value_at (shm (world (exec s a))) l <> 0).
Proof.
  intros Hr Hl. pose proof (reachable_invariant s Hr) as I.
  assert (H : value_at (shm (world (exec s a))) l = value_at (shm (world s)) l \/
              (value_at (shm (world (exec s a))) l = 1 /\
               exists e, a = CallStop e /\ stress_test_enabled e = true /\
                         stop_flag (world s) = Some l)).
  { destruct a as [p now | e t_end t_start duration load | e | e now].
    - left. cbn. destruct (procs s !! p) as [pr|] eqn:Hp; [|reflexivity].
      destruct (alive pr); [|reflexivity]. cbn.
      unfold value_at. rewrite step_frame; [reflexivity|].
      intros E. destruct (inv_refs s I p pr Hp) as [Hit _]. rewrite E in Hit.
      pose proof (has_type_inj _ _ _ _ Hit Hl). discriminate.
    - left. cbn. destruct Hl as (c & Hc & _). unfold value_at.
      now rewrite (start_keeps_cells e t_end t_start duration load (world s) l c Hc), Hc.
    - cbn. unfold stop_cpu_stress.
      destruct (stress_test_enabled e) eqn:He; cbn; [|now left].
      destruct (stop_flag (world s)) as [sf|] eqn:Hsf; [|now left].
      destruct (decide (sf = l)) as [->|Hne].
      + right. split; [|now exists e]. destruct Hl as (c & Hc & Ht).
        rewrite (value_at_store_at _ _ _ c Hc). apply wrap_one.
      + left. now apply value_at_store_at_ne.
    - left. cbn.
      destruct (status_consistent e now (world s) (inv_consistent s I))
        as (_ & _ & _ & _ & Hm).
      now rewrite Hm. }
  split; [exact H|]. intros Hv. destruct H as [-> | [-> _]]; [exact Hv | discriminate].
Qed.

(** ** The workers that are started *)

Lemma status_no_events (e : Env) (now : Q) (w : World) :
  snd (stress_status e now w) = [].
Proof.
  unfold stress_status. destruct (stress_test_enabled e); [|reflexivity].
  cbn [negb]. destruct (truthy _); [|reflexivity].
  now destruct (cpu_stress_status_data w !! "end_time").
Qed.

Lemma stop_starts_nothing (e : Env) (w : World) (q : Process) :
  ~ In (EStart q) (snd (stop_cpu_stress e w)).
Proof.
  unfold stop_cpu_stress. destruct (stress_test_enabled e); cbn; [|tauto].
  unfold join_all. intros H. apply in_map_iff in H as (x & Hx & _). discriminate.
Qed.

(** The processes [start_cpu_stress] starts: validated parameters, a cycle of
    a tenth of a second, the new counter and the new flag. *)
Lemma start_events_args (e : Env) (t_end t_start : Q) (duration load : Z)
    (w : World) (q : Process) :
  In (EStart q) (snd (start_cpu_stress e t_end t_start duration load w)) ->
  0 < duration /\ 0 <= load <= 100 /\
  exists d,
    float_of_int duration = Some d /\
    proc_args q
    = {| end_time := float_add t_end d; load := load;
         cycle_time := (1 # 10)%Q;
         iterations_ref := new_loc (shm w);
         stop_ref := new_loc (<[new_loc (shm w) := Value TInt 0]> (shm w)) |}.
Proof.
  intros H.
  destruct (start_cases e t_end t_start duration load w)
    as [[x Hx] | (He & Hd & Hl)].
  { rewrite Hx in H. destruct H. }
  destruct (float_of_int duration) as [d|] eqn:Hf.
  - rewrite (start_total e t_end t_start duration load w d He Hd Hl Hf) in H.
    cbn [snd] in H. apply started_in in H.
    + apply spawn_args in H. eauto.
    + intros x [<- | [<- | []]] p; discriminate.
  - rewrite (start_overflow e t_end t_start duration load w He Hd Hl Hf) in H.
    cbn [snd] in H. exfalso.
    apply in_app_or in H as [H | [H | [H | []]]]; try discriminate.
    unfold terminate_all in H. apply in_map_iff in H as (x & Hx & _). discriminate.
Qed.

(** A property of the arguments of a worker holds for every process of every
    reachable state if it holds for the processes that [start_cpu_stress]
    starts. *)
Lemma args_invariant (P : WorkerArgs -> Prop) :
  (forall e t_end t_start duration load w q,
     In (EStart q) (snd (start_cpu_stress e t_end t_start duration load w)) ->
     P (proc_args q)) ->
  forall s, reachable s ->
  forall p pr, procs s !! p = Some pr -> P (args pr).
Proof.
  intros Hstart s Hr.
  induction Hr as [|s a _ IH Ht]; intros p pr Hp.
  { cbn in Hp. rewrite lookup_empty in Hp. discriminate. }
  destruct a as [q now | e t_end t_start duration load | e | e now]; cbn in Hp.
  - destruct (procs s !! q) as [qr|] eqn:Hq; [|now apply (IH p)].
    destruct (alive qr); [|now apply (IH p)]. cbn in Hp.
    destruct (decide (q = p)) as [->|Hne].
    + rewrite lookup_insert_eq in Hp. injection Hp as <-. cbn. now apply (IH p).
    + rewrite lookup_insert_ne in Hp by exact Hne. now apply (IH p).
  - apply procs_after_events in Hp as [(pr0 & H0 & Ha & _) | (q & Hin & _ & Ha & _)].
    + rewrite Ha. now apply (IH p).
    + rewrite Ha. eapply Hstart, Hin.
  - apply procs_after_events in Hp as [(pr0 & H0 & Ha & _) | (q & Hin & _)].
    + rewrite Ha. now apply (IH p).
    + now destruct (stop_starts_nothing e (world s) q).
  - rewrite status_no_events in Hp. cbn in Hp. now apply (IH p).
Qed.

Lemma duty_bounds (a : WorkerArgs) :
  0 <= load a <= 100 ->
  (0 <= cycle_time a)%Q ->
  (0 <= busy_time a <= cycle_time a)%Q /\
  (0 <= idle_time a <= cycle_time a)%Q /\
  (busy_time a + idle_time a == cycle_time a)%Q.
Proof.
  intros [Hl0 Hl1] Hc. unfold idle_time, busy_time.
  set (f := (inject_Z (load a) / 100)%Q).
  assert (Hf : (0 <= f <= 1)%Q).
  { unfold f. rewrite Zle_Qle in Hl0, Hl1.
    change (inject_Z 0) with 0%Q in Hl0. change (inject_Z 100) with 100%Q in Hl1.
    split.
    - apply Qle_shift_div_l; [reflexivity|]. lra.
    - apply Qle_shift_div_r; [reflexivity|]. lra. }
  assert (H0 : (0 <= cycle_time a * f)%Q) by (apply Qmult_le_0_compat; tauto).
  assert (H1 : (cycle_time a * f <= cycle_time a)%Q).
  { rewrite <- (Qmult_1_r (cycle_time a)) at 2.
    rewrite (Qmult_comm (cycle_time a) f), (Qmult_comm (cycle_time a) 1).
    apply Qmult_le_compat_r; tauto. }
  repeat split; lra.
Qed.

(** X9. Every worker of every reachable state was started with validated
    parameters: [0 <= load <= 100] and a cycle of 0.1 s, a counter and a
    stop flag that are two objects; so its busy time and its idle time both
    lie between 0 and 0.1 s and add up to 0.1 s. *)
Theorem worker_times_bounded (s : System) (p : pid) (pr : Proc) :
  reachable s ->
  procs s !! p = Some pr ->
  0 <= load (args pr) <= 100 /\
  cycle_time (args pr) = (1 # 10)%Q /\
  stop_ref (args pr) <> iterations_ref (args pr) /\
  (0 <= busy_time (args pr) <= 1 # 10)%Q /\
  (0 <= idle_time (args pr) <= 1 # 10)%Q /\
  (busy_time (args pr) + idle_time (args pr) == 1 # 10)%Q.
Proof.
  intros Hr Hp.
  assert (H : 0 <= load (args pr) <= 100 /\ cycle_time (args pr) = (1 # 10)%Q /\
              stop_ref (args pr) <> iterations_ref (args pr)).
  { revert s Hr p pr Hp.
    apply (args_invariant (fun a => 0 <= load a <= 100 /\ cycle_time a = (1 # 10)%Q /\
                                    stop_ref a <> iterations_ref a)).
    intros e t_end t_start duration load w q Hq.
    destruct (start_events_args _ _ _ _ _ _ _ Hq) as (_ & Hl & d & _ & ->). cbn.
    repeat split; try lia. apply alloc_distinct. }
  destruct H as (Hl & Hc & Hne).
  destruct (duty_bounds (args pr) Hl) as (Hb & Hi & Hsum).
  { rewrite Hc. discriminate. }
  rewrite Hc in Hb, Hi, Hsum. repeat split; tauto.
Qed.

(** X10. [time.sleep] is only ever called with a positive duration, the idle
    time: in every reachable state a transition of a worker sleeps for
    [idle_time] if the worker is at line 40 and not at all otherwise, and a
    worker that has reached the idle phase has a positive idle time. *)
Theorem sleeps_idle_time (s : System) (p : pid) (pr : Proc) (now : Q) :
  reachable s ->
  procs s !! p = Some pr ->
  (at_pc pr = Sleep \/ at_pc pr = IdleStop -> (0 < idle_time (args pr))%Q) /\
  (at_pc pr = Sleep ->
     snd (cpu_worker_step (args pr) p now (shm (world s)) (at_pc pr))
     = [WSleep (idle_time (args pr))]) /\
  (at_pc pr <> Sleep ->
     snd (cpu_worker_step (args pr) p now (shm (world s)) (at_pc pr)) = []).
Proof.
  intros Hr Hp. split; [|split].
  - revert s Hr p pr Hp.
    apply (proc_invariant (fun a s => s = Sleep \/ s = IdleStop -> (0 < idle_time a)%Q)).
    + intros a [H | H]; discriminate.
    + intros a me now' m s H.
      assert (Ha : after_busy a = Sleep \/ after_busy a = IdleStop ->
                   (0 < idle_time a)%Q).
      { unfold after_busy. destruct (ltb 0 (idle_time a)) eqn:E.
        - intros _. now apply ltb_lt.
        - intros [? | ?]; discriminate. }
      destruct s; cbn;
        repeat match goal with
               | |- context [if ?b then _ else _] => destruct b
               end;
        cbn; try exact Ha; try (intros [? | ?]; discriminate).
      * intros _. apply H. now right.
  - intros ->. reflexivity.
  - intros Hne. destruct (at_pc pr); cbn; try reflexivity;
      repeat match goal with
             | |- context [if ?b then _ else _] => destruct b
             end; try reflexivity.
    now destruct Hne.
Qed.

(** ** A test with [load = 0] *)

Lemma status_keeps_entries (e : Env) (now : Q) (w : World) (k : string) :
  k <> "running" ->
  cpu_stress_status_data (snd (fst (stress_status e now w))) !! k
  = cpu_stress_status_data w !! k.
Proof.
  intros Hk. unfold stress_status.
  destruct (stress_test_enabled e); cbn [negb]; [|reflexivity].
  destruct (truthy _).
  - destruct (cpu_stress_status_data w !! "end_time"); [|reflexivity].
    cbn. destruct (geb now _); [|reflexivity]. now rewrite lookup_insert_ne.
  - cbn. destruct (geb now _); [|reflexivity]. now rewrite lookup_insert_ne.
Qed.

(** While the current test has [load = 0], its counter holds 0 and every
    process bound to it was started with [load = 0]. *)
Lemma load_0_run (s : System) :
  reachable s ->
  forall li,
    global_iterations (world s) = Some li ->
    cpu_stress_status_data (world s) !! "load" = Some (VInt 0) ->
    value_at (shm (world s)) li = 0 /\
    forall p pr, procs s !! p = Some pr ->
                 iterations_ref (args pr) = li -> load (args pr) = 0.
Proof.
  induction 1 as [|s a Hr IH Ht]; [discriminate|].
  pose proof (reachable_invariant s Hr) as I.
  destruct a as [q now | e t_end t_start duration load | e | e now].
  - cbn. destruct (procs s !! q) as [qr|] eqn:Hq; [|exact IH].
    destruct (alive qr); [|exact IH]. cbn.
    intros li Hg Hload. destruct (IH li Hg Hload) as [Hv Hargs]. split.
    + destruct (decide (iterations_ref (args qr) = li)) as [E|Hne].
      * destruct (step_load_0 (args qr) q now (clock s) (shm (world s)) (at_pc qr))
          as [_ ->]; auto.
        -- now apply (Hargs q).
        -- apply (inv_clock s I q qr Hq).
        -- apply (inv_load_0 s I q qr Hq). now apply (Hargs q).
      * unfold value_at in *. now rewrite step_frame.
    + intros p pr Hp. destruct (decide (q = p)) as [->|Hne].
      * rewrite lookup_insert_eq in Hp. injection Hp as <-. cbn. now apply (Hargs p).
      * rewrite lookup_insert_ne in Hp by exact Hne. now apply (Hargs p).
  - cbn. unfold served.
    destruct (start_cases e t_end t_start duration load (world s))
      as [[x Hx] | (He & Hd & Hl)].
    { rewrite Hx. exact IH. }
    destruct (float_of_int duration) as [d|] eqn:Hf.
    2:{ (* the call ends on line 95: a new counter, bound to no process *)
      intros li Hg Hload. split.
      - revert Hg.
        rewrite (start_overflow e t_end t_start duration load (world s) He Hd Hl Hf).
        cbn. intros [= <-]. unfold value_at.
        rewrite lookup_insert_ne by apply alloc_distinct.
        now rewrite lookup_insert_eq.
      - intros p pr Hp Href. exfalso.
        apply procs_after_events in Hp
          as [(pr0 & H0 & Ha & _) | (q & Hin & _ & Ha & _)].
        + revert Hg.
          rewrite (start_overflow e t_end t_start duration load (world s) He Hd Hl Hf).
          cbn. intros [= <-].
          destruct (inv_refs s I p pr0 H0) as [(c & Hc & _) _].
          rewrite <- Ha, Href, new_loc_fresh in Hc. discriminate.
        + destruct (start_events_args _ _ _ _ _ _ _ Hin) as (_ & _ & d & E & _).
          congruence. }
    intros li Hg Hload. split.
    + revert Hg Hload.
      rewrite (start_total e t_end t_start duration load (world s) d He Hd Hl Hf).
      cbn. intros [= <-] _. unfold value_at.
      rewrite lookup_insert_ne by apply alloc_distinct.
      now rewrite lookup_insert_eq.
    + intros p pr Hp Href.
      apply procs_after_events in Hp as [(pr0 & H0 & Ha & _) | (q & Hin & _ & Ha & _)].
      * exfalso. revert Hg.
        rewrite (start_total e t_end t_start duration load (world s) d He Hd Hl Hf).
        cbn. intros [= <-].
        destruct (inv_refs s I p pr0 H0) as [(c & Hc & _) _].
        rewrite <- Ha, Href, new_loc_fresh in Hc. discriminate.
      * destruct (start_events_args _ _ _ _ _ _ _ Hin) as (_ & _ & d' & _ & E).
        rewrite Ha, E. cbn. revert Hload.
        rewrite (start_total e t_end t_start duration load (world s) d He Hd Hl Hf).
        cbn. rewrite !lookup_insert_ne by done. rewrite lookup_insert_eq.
        now intros [= ->].
  - cbn. unfold served, stop_cpu_stress.
    destruct (stress_test_enabled e); cbn; [|exact IH].
    rewrite procs_after_joins. intros li Hg Hload.
    rewrite lookup_insert_ne in Hload by done.
    destruct (IH li Hg Hload) as [Hv Hargs]. split; [|exact Hargs].
    destruct (stop_flag (world s)) as [sf|] eqn:Hsf; [|exact Hv].
    rewrite value_at_store_at_ne; [exact Hv|].
    intros ->. now apply (refs_distinct _ (inv_consistent s I) li).
  - cbn. unfold served. rewrite status_no_events. cbn [foldl].
    destruct (status_consistent e now (world s) (inv_consistent s I))
      as (_ & _ & Hg' & _ & Hm).
    intros li Hg Hload. rewrite Hg' in Hg.
    rewrite status_keeps_entries in Hload by done. rewrite Hm.
    now apply IH.
Qed.

(** X11. A test started with [load = 0] counts nothing: in every reachable
    state whose status dictionary records [load = 0], whatever the workers
    of this and of earlier tests have done, [stress_status] answers
    [iterations = 0]. *)
Theorem idle_test_counts_nothing (s : System) (e : Env) (now : Q) :
  reachable s ->
  stress_test_enabled e = true ->
  cpu_stress_status_data (world s) !! "load" = Some (VInt 0) ->
  exists r, status_of e now s = Return r /\ iterations r = 0.
Proof.
  intros Hr He Hload.
  destruct (status_total e now (world s) He (reachable_consistent s Hr))
    as (r & w' & Hs & _ & Hit & _).
  exists r. unfold status_of. rewrite Hs. split; [reflexivity|]. rewrite Hit.
  destruct (global_iterations (world s)) as [li|] eqn:Hg; [|reflexivity].
  now destruct (load_0_run s Hr li Hg Hload).
Qed.

(** ** A worker after the stop flag is set *)

(** Outside the locked block a stopped worker changes the counter no more. *)
Lemma stopped_worker_settled (a : WorkerArgs) (me : pid) (clk : list Q) (m : Shm) (s : pc) :
  stop_set a m = true ->
  stop_ref a <> iterations_ref a ->
  increment_pending s = false ->
  value_at (snd (fst (cpu_worker a me clk m s))) (iterations_ref a)
  = value_at m (iterations_ref a).
Proof.
  intros Hs Hne. revert m s Hs. induction clk as [|now clk IH]; intros m s Hs Hp.
  { reflexivity. }
  cbn [cpu_worker].
  destruct (cpu_worker_step a me now m s) as [[s1 m1] ev1] eqn:E1.
  destruct (cpu_worker a me clk m1 s1) as [[s2 m2] ev2] eqn:E2. cbn [fst snd].
  assert (Hs1 : stop_set a m1 = true).
  { pose proof (step_stop_set a me now m s Hne) as H. rewrite E1 in H. cbn in H.
    now rewrite H. }
  assert (Hp1 : increment_pending s1 = false).
  { assert (H : s1 = fst (fst (cpu_worker_step a me now m s))) by now rewrite E1.
    rewrite H. destruct s; cbn in *; try discriminate; rewrite ?Hs; unfold after_busy;
      repeat match goal with
             | |- context [if ?b then _ else _] => destruct b
             end; reflexivity. }
  assert (Hv1 : value_at m1 (iterations_ref a) = value_at m (iterations_ref a)).
  { destruct (step_value a me now m s (iterations_ref a))
      as [H | (sb & tmp & c & Hpc & _)].
    - now rewrite E1 in H.
    - rewrite Hpc in Hp. discriminate. }
  specialize (IH m1 s1 Hs1 Hp1). rewrite E2 in IH. cbn in IH. now rewrite IH.
Qed.

(** X12. Once the stop flag is set, a worker left to run on its own adds at
    most one to its counter: exactly one if it had already passed the stop
    test of line 35 and goes through the locked block, none if it was
    anywhere else (or is kept waiting for the lock). *)
Theorem stop_lets_one_increment_land (a : WorkerArgs) (me : pid) (clk : list Q)
    (m : Shm) (s : pc) :
  stop_set a m = true ->
  stop_ref a <> iterations_ref a ->
  has_type m (iterations_ref a) TInt ->
  lock_ok me m a s ->
  value_at (snd (fst (cpu_worker a me clk m s))) (iterations_ref a)
  = value_at m (iterations_ref a) \/
  (increment_pending s = true /\
   value_at (snd (fst (cpu_worker a me clk m s))) (iterations_ref a)
   = wrap TInt (value_at m (iterations_ref a) + 1)).
Proof.
  intros Hs Hne. revert m s Hs.
  induction clk as [|now clk IH]; intros m s Hs Ht Hlk; [now left|].
  destruct (increment_pending s) eqn:Hp.
  2:{ left. now apply stopped_worker_settled. }
  cbn [cpu_worker].
  destruct (cpu_worker_step a me now m s) as [[s1 m1] ev1] eqn:E1.
  destruct (cpu_worker a me clk m1 s1) as [[s2 m2] ev2] eqn:E2. cbn [fst snd].
  assert (Hs1 : stop_set a m1 = true).
  { pose proof (step_stop_set a me now m s Hne) as H. rewrite E1 in H. cbn in H.
    now rewrite H. }
  assert (Ht1 : has_type m1 (iterations_ref a) TInt).
  { pose proof (step_has_type a me now m s _ _ Ht) as H. now rewrite E1 in H. }
  assert (Hlk1 : lock_ok me m1 a s1).
  { assert (Hc : is_Some (m !! iterations_ref a))
      by (destruct Ht as (c & Hc & _); now exists c).
    pose proof (step_lock_self a me now m s Hc Hlk) as H. now rewrite E1 in H. }
  assert (Hrun : m2 = snd (fst (cpu_worker a me clk m1 s1))) by now rewrite E2.
  destruct s as [ | | | | | sb | sb | sb tmp | | | | ]; try discriminate; cbn in E1.
  - (* Acquire *)
    destruct (lock_free m (iterations_ref a)) eqn:Hfree; injection E1 as <- <- <-.
    + destruct (IH _ _ Hs1 Ht1 Hlk1) as [H | [_ H]]; rewrite <- Hrun in H.
      * left. rewrite H. unfold value_at. rewrite lookup_with_owner.
        now destruct (m !! iterations_ref a).
      * right. split; [reflexivity|]. rewrite H. do 2 f_equal.
        unfold value_at. rewrite lookup_with_owner.
        now destruct (m !! iterations_ref a).
    + destruct (IH _ _ Hs1 Ht1 Hlk1) as [H | [_ H]]; rewrite <- Hrun in H;
        [now left | now right].
  - (* ReadCtr *)
    injection E1 as <- <- <-.
    destruct (IH _ _ Hs1 Ht1 Hlk1) as [H | [_ H]]; rewrite <- Hrun in H;
      [now left | now right].
  - (* WriteCtr *)
    injection E1 as <- <- <-. right. split; [reflexivity|].
    rewrite Hrun, stopped_worker_settled by auto.
    destruct Hlk as [_ ->]. destruct Ht as (c & Hc & Hty).
    rewrite (value_at_store_at _ _ _ c Hc). now rewrite Hty.
Qed.

(** ** The status right after a start *)


(** ** The feature flag *)

Lemma lower_ascii_t (c : ascii) :
  lower_ascii c = "t"%char <-> c = "t"%char \/ c = "T"%char.
Proof.
  destruct c as [[] [] [] [] [] [] [] []]; vm_compute; split; intros H;
    try discriminate H; try (destruct H as [H | H]; discriminate H); auto.
Qed.

Lemma lower_ascii_r (c : ascii) :
  lower_ascii c = "r"%char <-> c = "r"%char \/ c = "R"%char.
Proof.
  destruct c as [[] [] [] [] [] [] [] []]; vm_compute; split; intros H;
    try discriminate H; try (destruct H as [H | H]; discriminate H); auto.
Qed.

Lemma lower_ascii_u (c : ascii) :
  lower_ascii c = "u"%char <-> c = "u"%char \/ c = "U"%char.
Proof.
  destruct c as [[] [] [] [] [] [] [] []]; vm_compute; split; intros H;
    try discriminate H; try (destruct H as [H | H]; discriminate H); auto.
Qed.

Lemma lower_ascii_e (c : ascii) :
  lower_ascii c = "e"%char <-> c = "e"%char \/ c = "E"%char.
Proof.
  destruct c as [[] [] [] [] [] [] [] []]; vm_compute; split; intros H;
    try discriminate H; try (destruct H as [H | H]; discriminate H); auto.
Qed.

Lemma lower_true (s : string) :
  lower s = "true" <->
  exists c1 c2 c3 c4,
    s = String c1 (String c2 (String c3 (String c4 EmptyString))) /\
    (c1 = "t" \/ c1 = "T")%char /\ (c2 = "r" \/ c2 = "R")%char /\
    (c3 = "u" \/ c3 = "U")%char /\ (c4 = "e" \/ c4 = "E")%char.
Proof.
  split.
  - destruct s as [|c1 [|c2 [|c3 [|c4 [|c5 s]]]]]; cbn; try discriminate.
    intros [= H1 H2 H3 H4]. exists c1, c2, c3, c4. split; [reflexivity|].
    now rewrite <- lower_ascii_t, <- lower_ascii_r, <- lower_ascii_u, <- lower_ascii_e.
  - intros (c1 & c2 & c3 & c4 & -> & H1 & H2 & H3 & H4). cbn.
    apply lower_ascii_t in H1. apply lower_ascii_r in H2.
    apply lower_ascii_u in H3. apply lower_ascii_e in H4.
    now rewrite H1, H2, H3, H4.
Qed.

(** X14. The feature flag opens the three endpoints exactly when the variable
    [STRESS_TEST_FLAG] is set to the four letters of [true] in any mix of
    upper and lower case (no surrounding blank, no other spelling); the home
    page is handed the same flag; and when the flag is closed each of the
    three endpoints raises the 403 error, changes nothing and starts, stops
    or joins no process. *)
Theorem feature_gate (e : Env) :
  (stress_test_enabled e = true <->
   exists c1 c2 c3 c4,
     STRESS_TEST_FLAG e
     = Some (String c1 (String c2 (String c3 (String c4 EmptyString)))) /\
     (c1 = "t" \/ c1 = "T")%char /\ (c2 = "r" \/ c2 = "R")%char /\
     (c3 = "u" \/ c3 = "U")%char /\ (c4 = "e" \/ c4 = "E")%char) /\
  Home.context_stress_test_enabled (Home.home e) = stress_test_enabled e /\
  (stress_test_enabled e = false ->
   forall (w : World) (t_end t_start now : Q) (duration load : Z),
     start_cpu_stress e t_end t_start duration load w = (Raise disabled, w, []) /\
     stop_cpu_stress e w = (Raise disabled, w, []) /\
     stress_status e now w = (Raise disabled, w, [])).
Proof.
  split; [|split].
  - unfold stress_test_enabled. rewrite String.eqb_eq, lower_true.
    destruct (STRESS_TEST_FLAG e) as [s|]; cbn.
    + split.
      * intros (c1 & c2 & c3 & c4 & -> & H). now exists c1, c2, c3, c4.
      * intros (c1 & c2 & c3 & c4 & [= ->] & H). now exists c1, c2, c3, c4.
    + split.
      * intros (c1 & c2 & c3 & c4 & H & _). discriminate.
      * intros (c1 & c2 & c3 & c4 & H & _). discriminate.
  - reflexivity.
  - intros He w t_end t_start now duration load.
    unfold start_cpu_stress, stop_cpu_stress, stress_status. now rewrite He.
Qed.

(** * Properties of the weather endpoint *)

Import Weather.

Lemma bind_err {A B : Type} (m : res A) (k : A -> res B) (y : raised) :
  bind m k = Err y -> m = Err y \/ exists a, m = Ok a /\ k a = Err y.
Proof. destruct m as [a|x]; cbn; intros H; [right; eauto | left; congruence]. Qed.

Lemma get_err (v : json) (k : string) (dflt : json) (y : raised) :
  get v k dflt = Err y -> y = AttributeError.
Proof. destruct v; cbn; congruence. Qed.

Lemma subscript_0_err (v : json) (y : raised) :
  subscript_0 v = Err y -> y = IndexError \/ y = KeyError0 \/ y = TypeError.
Proof.
  destruct v as [| | | | [|c s] | [|x l] | d]; cbn; intros [= <-]; auto.
Qed.

Lemma float_err (pf : string -> option pyfloat) (v : json) (y : raised) :
  float pf v = Err y -> y = ValueError \/ y = Exn OverflowError \/ y = TypeError.
Proof.
  destruct v; cbn; try (intros [= <-]; now auto).
  - destruct (float_of_int z); intros [= <-]; auto.
  - destruct (pf s); intros [= <-]; auto.
Qed.

(** The dictionary of lines 63-69 never fails with an [HTTPException] or
    with a [KeyError] for a text key. *)
Lemma weather_data_err (pf : string -> option pyfloat) (place : string)
    (current nearest_area : json) (y : raised) :
  weather_data pf place current nearest_area = Err y ->
  y = AttributeError \/ y = IndexError \/ y = KeyError0 \/ y = TypeError \/
  y = ValueError \/ y = Exn OverflowError.
Proof.
  unfold weather_data. intros H.
  repeat match goal with
         | H : bind _ _ = Err _ |- _ =>
             apply bind_err in H; destruct H as [H | (? & _ & H)]
         | H : get _ _ _ = Err _ |- _ => apply get_err in H; subst; tauto
         | H : subscript_0 _ = Err _ |- _ => apply subscript_0_err in H; intuition
         | H : float _ _ = Err _ |- _ => apply float_err in H; intuition
         | H : Ok _ = Err _ |- _ => discriminate H
         end.
Qed.

(** When the [try] block fails with a caught exception. *)
Lemma try_block_caught (data : json) :
  (exists x, condition_and_area data = Err x /\
             ((exists k, x = Exn (KeyError k)) \/ x = KeyError0 \/ x = IndexError))
  <-> malformed data.
Proof.
  unfold malformed. destruct data as [| | | | | | d];
    try (split; [intros (x & [= <-] & [[k Hk] | [Hk | Hk]]); discriminate
                | intros (d & Hd & _); discriminate]).
  transitivity
    (match d !! "current_condition" with
     | None | Some (JList []) | Some (JStr EmptyString) | Some (JDict _) => True
     | Some (JList (_ :: _)) | Some (JStr (String _ _)) =>
         exists d', d !! "nearest_area" = Some (JDict d') /\ d' <> ∅
     | Some _ => False
     end).
  2:{ split; [intros H; exists d; now split | intros (d0 & [= <-] & H); exact H]. }
  unfold condition_and_area. cbn [subscript get bind].
  assert (Harea :
    forall current : json,
      (exists x,
         (nearest_area <-
            (if truthy (default JNone (d !! "nearest_area"))
             then areas <- match d !! "nearest_area" with
                           | Some x => Ok x
                           | None => Err (Exn (KeyError "nearest_area"))
                           end ;; subscript_0 areas
             else Ok (JDict ∅)) ;; Ok (current, nearest_area)) = Err x /\
         ((exists k, x = Exn (KeyError k)) \/ x = KeyError0 \/ x = IndexError))
      <-> exists d', d !! "nearest_area" = Some (JDict d') /\ d' <> ∅).
  { intros current.
    assert (Hno : forall r : res (json * json),
               (forall x, r = Err x -> x = TypeError) ->
               forall na : option json, (forall d', na <> Some (JDict d')) ->
               (exists x, r = Err x /\
                  ((exists k, x = Exn (KeyError k)) \/ x = KeyError0 \/ x = IndexError))
               <-> exists d', na = Some (JDict d') /\ d' <> ∅).
    { intros r Hr na Hna. split.
      - intros (x & H & [[k Hk] | [Hk | Hk]]); apply Hr in H; congruence.
      - intros (d' & H & _). now destruct (Hna d'). }
    destruct (d !! "nearest_area") as [[| b | z | q | [|c s] | [|x l] | d']|] eqn:Hna;
      cbn;
      [ apply Hno; [intros ? [=] | discriminate]
      | destruct b; cbn; apply Hno; (intros ? [=]; auto) || discriminate
      | destruct (z =? 0); cbn; apply Hno; (intros ? [=]; auto) || discriminate
      | destruct q as [q|]; [destruct (Qeq_bool q 0)|]; cbn; apply Hno;
          (intros ? [=]; auto) || discriminate
      | apply Hno; [intros ? [=] | discriminate]
      | apply Hno; [intros ? [=] | discriminate]
      | apply Hno; [intros ? [=] | discriminate]
      | apply Hno; [intros ? [=] | discriminate]
      |
      | apply Hno; [intros ? [=] | discriminate] ].
    destruct (bool_decide (d' = ∅)) eqn:Hd; cbn.
    - apply bool_decide_eq_true in Hd. split.
      + intros (x & H & _). discriminate.
      + intros (d0 & [= <-] & Hne). contradiction.
    - apply bool_decide_eq_false in Hd. split.
      + intros _. now exists d'.
      + intros _. eexists. split; [reflexivity|]. auto. }
  destruct (d !! "current_condition") as [cc|] eqn:Hcc; cbn [bind].
  2:{ split; [intros _; exact I | intros _]. eexists. split; [reflexivity|]. eauto. }
  destruct cc as [| b | z | q | [|c s] | [|x l] | d']; cbn [subscript_0 bind];
    try (split; [intros (x & [= <-] & [[k Hk] | [Hk | Hk]]); discriminate
                | intros []]);
    try (split; [intros _; exact I | intros _; eexists; split; [reflexivity|]; auto]);
    apply Harea.
Qed.

Lemma subscript_err (v : json) (k : string) (y : raised) :
  subscript v k = Err y -> y = Exn (KeyError k) \/ y = TypeError.
Proof.
  destruct v; cbn; try (intros [= <-]; now auto).
  destruct (d !! k); intros [= <-]; auto.
Qed.

(** The [try] block raises nothing but what its subscripts and its [get]
    raise. *)
Lemma try_block_err (data : json) (y : raised) :
  condition_and_area data = Err y ->
  (exists k, y = Exn (KeyError k)) \/ y = KeyError0 \/ y = IndexError \/
  y = TypeError \/ y = AttributeError.
Proof.
  unfold condition_and_area. intros H.
  repeat match goal with
         | H : bind _ _ = Err _ |- _ =>
             apply bind_err in H; destruct H as [H | (? & _ & H)]
         | H : (if ?b then _ else _) = Err _ |- _ => destruct b
         | H : get _ _ _ = Err _ |- _ => apply get_err in H; subst; tauto
         | H : subscript _ _ = Err _ |- _ =>
             apply subscript_err in H; destruct H as [-> | ->]; eauto
         | H : subscript_0 _ = Err _ |- _ => apply subscript_0_err in H; intuition
         | H : Ok _ = Err _ |- _ => discriminate H
         end.
Qed.

(** [weather] on an answer with status 200 and a JSON body. *)
Lemma weather_200 (pf : string -> option pyfloat) (requests_get : string -> res Response)
    (place : string) (r : Response) (data : json) :
  requests_get (url place) = Ok r ->
  status_code r = 200 ->
  json_body r = Some data ->
  weather pf requests_get place
  = match condition_and_area data with
    | Err (Exn (KeyError _)) | Err KeyError0 | Err IndexError => Err unexpected_format
    | Err x => Err x
    | Ok (current, nearest_area) =>
        content <- weather_data pf place current nearest_area ;;
        json_response content
    end.
Proof.
  intros Hg Hs Hb. unfold weather. rewrite Hg. cbn [bind]. now rewrite Hs, Hb.
Qed.

(** Nor does building the content and rendering it. *)
Lemma content_err (pf : string -> option pyfloat) (place : string)
    (current nearest_area : json) (y : raised) :
  (content <- weather_data pf place current nearest_area ;; json_response content)
  = Err y ->
  y = AttributeError \/ y = IndexError \/ y = KeyError0 \/ y = TypeError \/
  y = ValueError \/ y = Exn OverflowError \/ y = UnicodeEncodeError.
Proof.
  intros H. apply bind_err in H. destruct H as [H | (content & _ & H)].
  - apply weather_data_err in H. tauto.
  - unfold json_response in H.
    destruct (negb _); [injection H as <-; tauto|].
    destruct (negb _); [injection H as <-; tauto | discriminate H].
Qed.

(** X15. The HTTP errors of [weather], for an answer [r] of wttr.in. The
    endpoint raises an [HTTPException] in two cases only: the answer has a
    status other than 200, which is passed on with the detail
    ["Weather data not found"] whatever the body; or the status is 200 and
    the decoded body is a dictionary whose ["current_condition"] is absent,
    an empty list, an empty text or a dictionary, or whose ["nearest_area"]
    is a non-empty dictionary, which gives status 500 and the detail
    ["Unexpected response format from weather service"]. No [KeyError] for a
    text key ever leaves the endpoint. *)
Theorem weather_http_errors (pf : string -> option pyfloat)
    (requests_get : string -> res Response) (place : string) (r : Response)
    (code : Z) (detail : string) :
  requests_get (url place) = Ok r ->
  (weather pf requests_get place = Err (Exn (HTTPException code detail)) <->
   (status_code r <> 200 /\ code = status_code r /\
    detail = "Weather data not found") \/
   (status_code r = 200 /\ code = 500 /\
    detail = "Unexpected response format from weather service" /\
    exists data, json_body r = Some data /\ malformed data)) /\
  (forall k, weather pf requests_get place <> Err (Exn (KeyError k))).
Proof.
  intros Hg.
  destruct (Z.eq_dec (status_code r) 200) as [Hs | Hs].
  2:{ assert (E : weather pf requests_get place = Err (not_found (status_code r))).
      { unfold weather. rewrite Hg. cbn [bind].
        destruct (Z.eqb_spec (status_code r) 200); [contradiction | reflexivity]. }
      rewrite E. unfold not_found. split.
      - split.
        + intros [= <- <-]. now left.
        + intros [(_ & -> & ->) | (H & _)]; [reflexivity | contradiction].
      - discriminate. }
  destruct (json_body r) as [data|] eqn:Hb.
  2:{ assert (E : weather pf requests_get place = Err JSONDecodeError).
      { unfold weather. rewrite Hg. cbn [bind]. now rewrite Hs, Hb. }
      rewrite E. split; [|discriminate]. split; [discriminate|].
      intros [(H & _) | (_ & _ & _ & data & H & _)]; [contradiction | discriminate]. }
  rewrite (weather_200 pf requests_get place r data Hg Hs Hb).
  destruct (condition_and_area data) as [[current nearest_area] | x] eqn:Hca.
  - split.
    + split.
      * intros H. apply content_err in H. intuition discriminate.
      * intros [(H & _) | (_ & _ & _ & data' & [= <-] & Hm)]; [contradiction|].
        apply try_block_caught in Hm. destruct Hm as (x & Hx & _).
        rewrite Hca in Hx. discriminate.
    + intros k H. apply content_err in H. intuition discriminate.
  - pose proof (try_block_err data x Hca) as Hx.
    assert (Hm : ((exists k, x = Exn (KeyError k)) \/ x = KeyError0 \/ x = IndexError)
                 <-> malformed data).
    { rewrite <- try_block_caught. split.
      - intros H. now exists x.
      - intros (x' & Hx' & H). rewrite Hca in Hx'. now injection Hx' as <-. }
    destruct Hx as [[k ->] | [-> | [-> | [-> | ->]]]]; unfold unexpected_format.
    + split; [|discriminate]. split.
      * intros [= <- <-]. right. repeat split; auto. exists data. split; [reflexivity|].
        apply Hm. eauto.
      * intros [(H & _) | (_ & -> & -> & _)]; [contradiction | reflexivity].
    + split; [|discriminate]. split.
      * intros [= <- <-]. right. repeat split; auto. exists data. split; [reflexivity|].
        apply Hm. auto.
      * intros [(H & _) | (_ & -> & -> & _)]; [contradiction | reflexivity].
    + split; [|discriminate]. split.
      * intros [= <- <-]. right. repeat split; auto. exists data. split; [reflexivity|].
        apply Hm. auto.
      * intros [(H & _) | (_ & -> & -> & _)]; [contradiction | reflexivity].
    + split; [|discriminate]. split; [discriminate|].
      intros [(H & _) | (_ & _ & _ & data' & [= <-] & Hmal)]; [contradiction|].
      apply Hm in Hmal. destruct Hmal as [[k Hk] | [Hk | Hk]]; discriminate.
    + split; [|discriminate]. split; [discriminate|].
      intros [(H & _) | (_ & _ & _ & data' & [= <-] & Hmal)]; [contradiction|].
      apply Hm in Hmal. destruct Hmal as [[k Hk] | [Hk | Hk]]; discriminate.
Qed.

Lemma float_zero (pf : string -> option pyfloat) :
  float pf (JInt 0) = Ok (Finite 0).
Proof. reflexivity. Qed.

(** The values computed from an area, when the area is a dictionary. *)
Lemma weather_data_of_dicts (pf : string -> option pyfloat) (place : string)
    (c a : gmap string json) :
  weather_data pf place (JDict c) (JDict a)
  = (name <- subscript_0 (default (JList [JDict ∅]) (a !! "areaName")) ;;
     loc <- get name "value" (JStr place) ;;
     desc <- subscript_0 (default (JList [JDict ∅]) (c !! "weatherDesc")) ;;
     text <- get desc "value" JNone ;;
     la <- float pf (default (JInt 0) (a !! "latitude")) ;;
     lo <- float pf (default (JInt 0) (a !! "longitude")) ;;
     Ok {| location := loc; temperature := default JNone (c !! "temp_C");
           description := text; lat := la; lon := lo |}).
Proof. reflexivity. Qed.

(** X16. Without a usable ["nearest_area"] the endpoint falls back on what
    was asked: when the status is 200, the body a dictionary whose
    ["current_condition"] is a non-empty list and whose ["nearest_area"] is
    absent or falsy (null, [[]], [{}], empty text, 0, false), every answer
    the endpoint returns has the requested place as [location] and
    [lat = lon = 0.0]. When that first condition is a dictionary without
    ["weatherDesc"], the content is the place, its ["temp_C"] ([None] if
    absent) and no description, and the endpoint returns it unless the
    rendering of line 70 refuses it: with [ValueError] if the temperature
    holds a float that is not finite, else with [UnicodeEncodeError] if the
    place or the temperature holds a surrogate. *)
Theorem weather_without_area (pf : string -> option pyfloat)
    (requests_get : string -> res Response) (place : string) (r : Response)
    (d : gmap string json) (current : json) (rest : list json) :
  requests_get (url place) = Ok r ->
  status_code r = 200 ->
  json_body r = Some (JDict d) ->
  d !! "current_condition" = Some (JList (current :: rest)) ->
  (forall area, d !! "nearest_area" = Some area -> truthy area = false) ->
  (forall w, weather pf requests_get place = Ok w ->
     location w = JStr place /\ lat w = Finite 0 /\ lon w = Finite 0) /\
  (forall c, current = JDict c -> c !! "weatherDesc" = None ->
     weather pf requests_get place
     = if negb (finite (default JNone (c !! "temp_C")))
       then Err ValueError
       else if negb (encodable place
                     && encodable_json (default JNone (c !! "temp_C")))
       then Err UnicodeEncodeError
       else Ok {| location := JStr place;
                  temperature := default JNone (c !! "temp_C");
                  description := JNone;
                  lat := Finite 0; lon := Finite 0 |}).
Proof.
  intros Hg Hs Hb Hcc Hna.
  rewrite (weather_200 pf requests_get place r (JDict d) Hg Hs Hb).
  assert (E : condition_and_area (JDict d) = Ok (current, JDict ∅)).
  { unfold condition_and_area. cbn [subscript get bind]. rewrite Hcc. cbn [bind subscript_0].
    assert (Ht : truthy (default JNone (d !! "nearest_area")) = false).
    { destruct (d !! "nearest_area") as [area|]; [now apply Hna | reflexivity]. }
    now rewrite Ht. }
  rewrite E. split.
  - intros w. unfold weather_data.
    cbn [get bind]. rewrite !lookup_empty. cbn [default subscript_0 bind get].
    rewrite lookup_empty. cbn [default]. rewrite float_zero.
    destruct (get current "temp_C" JNone) as [temp|]; cbn [bind]; [|discriminate].
    destruct (get current "weatherDesc" (JList [JDict ∅])) as [descs|]; cbn [bind];
      [|discriminate].
    destruct (subscript_0 descs) as [desc|]; cbn [bind]; [|discriminate].
    destruct (get desc "value" JNone) as [text|]; cbn [bind]; [|discriminate].
    unfold json_response. destruct (negb _); [discriminate|].
    destruct (negb _); [discriminate|]. intros [= <-]. cbn. auto.
  - intros c -> Hwd. rewrite weather_data_of_dicts, Hwd, !lookup_empty.
    cbn [default subscript_0 bind get]. rewrite !lookup_empty. cbn [default].
    rewrite float_zero. cbn [bind]. unfold json_response.
    cbn [location temperature description lat lon finite finite_float
         encodable_json andb].
    now rewrite !andb_true_r.
Qed.

(** X17. On an answer of the shape wttr.in gives (status 200; a first
    current condition and a first nearest area that are dictionaries; a
    first area name and a first description that are dictionaries; latitude
    and longitude that [float] turns into finite numbers) the endpoint
    builds the name of that area, or the requested place if the name has no
    ["value"], the ["temp_C"] and the description ["value"] as they are
    ([None] if absent), and the two coordinates converted by [float]; it
    returns them unless the rendering of line 70 refuses them: with
    [ValueError] if the name, the temperature or the description holds a
    float that is not finite, else with [UnicodeEncodeError] if one of them
    holds a surrogate. *)
Theorem weather_extracts (pf : string -> option pyfloat)
    (requests_get : string -> res Response) (place : string) (r : Response)
    (d c a n wd : gmap string json) (rest1 rest2 rest3 rest4 : list json)
    (la lo : json) (x y : Q) :
  requests_get (url place) = Ok r ->
  status_code r = 200 ->
  json_body r = Some (JDict d) ->
  d !! "current_condition" = Some (JList (JDict c :: rest1)) ->
  d !! "nearest_area" = Some (JList (JDict a :: rest2)) ->
  a !! "areaName" = Some (JList (JDict n :: rest3)) ->
  c !! "weatherDesc" = Some (JList (JDict wd :: rest4)) ->
  a !! "latitude" = Some la -> float pf la = Ok (Finite x) ->
  a !! "longitude" = Some lo -> float pf lo = Ok (Finite y) ->
  weather pf requests_get place
  = if negb (finite (default (JStr place) (n !! "value"))
             && finite (default JNone (c !! "temp_C"))
             && finite (default JNone (wd !! "value")))
    then Err ValueError
    else if negb (encodable_json (default (JStr place) (n !! "value"))
                  && encodable_json (default JNone (c !! "temp_C"))
                  && encodable_json (default JNone (wd !! "value")))
    then Err UnicodeEncodeError
    else Ok {| location := default (JStr place) (n !! "value");
               temperature := default JNone (c !! "temp_C");
               description := default JNone (wd !! "value");
               lat := Finite x; lon := Finite y |}.
Proof.
  intros Hg Hs Hb Hcc Hna Han Hwd Hla Hx Hlo Hy.
  rewrite (weather_200 pf requests_get place r (JDict d) Hg Hs Hb).
  assert (E : condition_and_area (JDict d) = Ok (JDict c, JDict a)).
  { unfold condition_and_area. cbn [subscript get bind].
    now rewrite Hcc, Hna. }
  rewrite E, weather_data_of_dicts, Han, Hwd, Hla, Hlo.
  cbn [default from_option id subscript_0 bind get]. rewrite Hx, Hy.
  cbn [bind]. unfold json_response.
  cbn [location temperature description lat lon finite_float].
  now rewrite !andb_true_r.
Qed.

(** X18. What escapes the [try] block. With status 200: a body that is not
    JSON ends the endpoint with the decoding error, and a JSON body that is
    not a dictionary with [TypeError], neither turned into an
    [HTTPException]. On a body whose first current condition and first
    nearest area are dictionaries, an empty ["areaName"] list, or else an
    empty ["weatherDesc"] list, ends it with [IndexError]; and with neither
    entry present, a latitude text that [float] refuses ends it with
    [ValueError], a null latitude with [TypeError], and a latitude text that
    [float] turns into [inf] or [nan], the longitude being convertible, with
    the [ValueError] of the rendering of line 70. *)
Theorem weather_uncaught_errors (pf : string -> option pyfloat)
    (requests_get : string -> res Response) (place : string) (r : Response) :
  requests_get (url place) = Ok r ->
  status_code r = 200 ->
  (json_body r = None -> weather pf requests_get place = Err JSONDecodeError) /\
  (forall data, json_body r = Some data -> (forall d, data <> JDict d) ->
     weather pf requests_get place = Err TypeError) /\
  (forall d c a rest1 rest2,
     json_body r = Some (JDict d) ->
     d !! "current_condition" = Some (JList (JDict c :: rest1)) ->
     d !! "nearest_area" = Some (JList (JDict a :: rest2)) ->
     (a !! "areaName" = Some (JList []) ->
        weather pf requests_get place = Err IndexError) /\
     (a !! "areaName" = None -> c !! "weatherDesc" = Some (JList []) ->
        weather pf requests_get place = Err IndexError) /\
     (a !! "areaName" = None -> c !! "weatherDesc" = None ->
      forall s, a !! "latitude" = Some (JStr s) -> pf s = None ->
        weather pf requests_get place = Err ValueError) /\
     (a !! "areaName" = None -> c !! "weatherDesc" = None ->
      a !! "latitude" = Some JNone ->
        weather pf requests_get place = Err TypeError) /\
     (a !! "areaName" = None -> c !! "weatherDesc" = None ->
      forall s y, a !! "latitude" = Some (JStr s) -> pf s = Some NonFinite ->
        float pf (default (JInt 0) (a !! "longitude")) = Ok y ->
        weather pf requests_get place = Err ValueError)).
Proof.
  intros Hg Hs. split; [|split].
  - intros Hb. unfold weather. rewrite Hg. cbn [bind]. now rewrite Hs, Hb.
  - intros data Hb Hd. rewrite (weather_200 pf requests_get place r data Hg Hs Hb).
    destruct data; try reflexivity. now destruct (Hd d).
  - intros d c a rest1 rest2 Hb Hcc Hna.
    rewrite (weather_200 pf requests_get place r (JDict d) Hg Hs Hb).
    assert (E : condition_and_area (JDict d) = Ok (JDict c, JDict a)).
    { unfold condition_and_area. cbn [subscript get bind]. now rewrite Hcc, Hna. }
    rewrite E, weather_data_of_dicts. repeat split.
    + intros ->. reflexivity.
    + intros -> ->. reflexivity.
    + intros -> -> s -> Hpf. cbn. now rewrite Hpf.
    + intros -> -> ->. reflexivity.
    + intros -> -> s y -> Hpf Hy. rewrite Hy.
      cbn [default from_option id subscript_0 bind get float]. rewrite Hpf.
      cbn [bind]. unfold json_response. cbn [lat finite_float].
      now rewrite andb_false_r.
Qed.

(** * The further properties on the scenarios *)

Lemma two_workers_reachable : reachable two_workers /\ (clock two_workers <= 0)%Q.
Proof.
  split.
  - apply reach_exec; [apply reach_initial|]. cbn. split; apply Qle_refl.
  - apply Qle_refl.
Qed.

Lemma idle_run_reachable : reachable idle_run /\ (clock idle_run <= 0)%Q.
Proof.
  split.
  - apply reach_exec; [apply reach_initial|]. cbn. split; apply Qle_refl.
  - apply Qle_refl.
Qed.

(** The test of 2 seconds queried at 0.1 s, then, after a transition of a
    worker and another query, at 1.5 s: 1 second left, then 0. *)
Lemma remaining_never_grows_witness :
  Forall (fun a => is_start a = false)
         [Tick 0%nat (1 # 2); CallStatus Scenario.test_env 1] /\
  (1 # 10 <= 3 # 2)%Q /\
  status_of Scenario.test_env (1 # 10) two_workers
  = Return {| running := VBool true; remaining_seconds := 1; iterations := 0 |} /\
  status_of Scenario.test_env (3 # 2)
            (run two_workers [Tick 0%nat (1 # 2); CallStatus Scenario.test_env 1])
  = Return {| running := VBool true; remaining_seconds := 0; iterations := 0 |} /\
  0 <= 0 <= 1.
Proof.
  assert (Hf : Forall (fun a => is_start a = false)
                      [Tick 0%nat (1 # 2); CallStatus Scenario.test_env 1])
    by (repeat constructor).
  assert (Hle : (1 # 10 <= 3 # 2)%Q) by (vm_compute; discriminate).
  assert (H1 : status_of Scenario.test_env (1 # 10) two_workers
               = Return {| running := VBool true; remaining_seconds := 1;
                           iterations := 0 |}) by (vm_compute; reflexivity).
  assert (H2 : status_of Scenario.test_env (3 # 2)
                 (run two_workers [Tick 0%nat (1 # 2); CallStatus Scenario.test_env 1])
               = Return {| running := VBool true; remaining_seconds := 0;
                           iterations := 0 |}) by (vm_compute; reflexivity).
  repeat split; try assumption;
    apply (remaining_never_grows two_workers _ _ _ _ _ _ _ Hf Hle H1 H2).
Defined.

(** A stop, a start with [duration = 0], a query and a start with
    [load = 150] on a fresh module. *)
Lemma nothing_before_start_witness :
  Forall starts_nothing
         [CallStop Scenario.test_env; CallStart Scenario.test_env 0 0 0 50;
          CallStatus Scenario.test_env 5; CallStart Scenario.test_env 5 5 3 150] /\
  stress_test_enabled Scenario.test_env = true /\
  status_of Scenario.test_env 6
            (run initial
               [CallStop Scenario.test_env; CallStart Scenario.test_env 0 0 0 50;
                CallStatus Scenario.test_env 5; CallStart Scenario.test_env 5 5 3 150])
  = Return nothing_to_report.
Proof.
  assert (Hf : Forall starts_nothing
                 [CallStop Scenario.test_env; CallStart Scenario.test_env 0 0 0 50;
                  CallStatus Scenario.test_env 5;
                  CallStart Scenario.test_env 5 5 3 150]).
  { repeat constructor; cbn; lia. }
  split; [exact Hf|]. split; [reflexivity|].
  apply (nothing_before_start _ Scenario.test_env 6 Hf eq_refl).
Defined.

(** The test of 2 seconds, stopped and queried at time 1. *)
Lemma stop_keeps_count_witness :
  stress_test_enabled Scenario.test_env = true /\
  consistent Scenario.started_2_50 /\
  fst (fst (stress_status Scenario.test_env 1
              (snd (fst (stop_cpu_stress Scenario.test_env Scenario.started_2_50)))))
  = Return {| running := VBool false;
              remaining_seconds := 0;
              iterations := current_count Scenario.started_2_50 |}.
Proof.
  split; [reflexivity|]. split; [exact started_2_50_consistent|].
  apply (stop_keeps_count Scenario.test_env 1 Scenario.started_2_50 eq_refl
           started_2_50_consistent).
Defined.

(** A fresh module after a start whose duration no float can hold: a
    counter and a flag, and no test recorded. *)
Lemma globals_shape_witness :
  reachable (exec initial (CallStart Scenario.test_env 0 0 (10 ^ 400) 50)) /\
  start_failed (world (exec initial (CallStart Scenario.test_env 0 0 (10 ^ 400) 50))).
Proof.
  assert (Hr : reachable (exec initial (CallStart Scenario.test_env 0 0 (10 ^ 400) 50))).
  { apply reach_exec; [apply reach_initial|]. cbn. split; apply Qle_refl. }
  split; [exact Hr|].
  destruct (globals_shape _ Hr) as [(_ & H & _) | [H | (t & ts & dur & ld & n & li & ls
                                   & t0 & d & H & _)]].
  - vm_compute in H. discriminate H.
  - exact H.
  - vm_compute in H. discriminate H.
Defined.

(** The first worker inside the locked block, the second at the entry. *)
Lemma lock_exclusive_witness :
  reachable (run two_workers in_locked_block) /\
  exists pr qr,
    procs (run two_workers in_locked_block) !! 0%nat = Some pr /\
    procs (run two_workers in_locked_block) !! 1%nat = Some qr /\
    0%nat <> 1%nat /\
    iterations_ref (args pr) = iterations_ref (args qr) /\
    holds_lock (at_pc pr) = true /\
    holds_lock (at_pc qr) = false.
Proof.
  assert (Hr : reachable (run two_workers in_locked_block)).
  { apply reachable_ticks; apply two_workers_reachable. }
  split; [exact Hr|].
  eexists _, _.
  assert (Hp : procs (run two_workers in_locked_block) !! 0%nat
               = Some {| args := {| end_time := 2; load := 50; cycle_time := 1 # 10;
                                    iterations_ref := 0%nat; stop_ref := 1%nat |};
                         at_pc := ReadCtr 0; alive := true |})
    by (vm_compute; reflexivity).
  assert (Hq : procs (run two_workers in_locked_block) !! 1%nat
               = Some {| args := {| end_time := 2; load := 50; cycle_time := 1 # 10;
                                    iterations_ref := 0%nat; stop_ref := 1%nat |};
                         at_pc := OuterTime; alive := true |})
    by (vm_compute; reflexivity).
  split; [exact Hp|]. split; [exact Hq|]. split; [discriminate|].
  split; [reflexivity|]. split; [reflexivity|].
  apply (lock_exclusive _ 0%nat 1%nat _ _ Hr Hp Hq); [discriminate | reflexivity ..].
Defined.

(** The transition after the first worker has read the counter: its write. *)
Lemma increments_are_exact_witness :
  reachable (run two_workers (in_locked_block ++ [Tick 0%nat 0])) /\
  has_type (shm (world (run two_workers (in_locked_block ++ [Tick 0%nat 0]))))
           0%nat TInt /\
  value_at (shm (world (exec (run two_workers (in_locked_block ++ [Tick 0%nat 0]))
                             (Tick 0%nat 0)))) 0%nat
  = 1.
Proof.
  assert (Hr : reachable (run two_workers (in_locked_block ++ [Tick 0%nat 0]))).
  { change (in_locked_block ++ [Tick 0%nat 0])%list
      with (map (Tick 0%nat) (repeat 0%Q 7)).
    apply reachable_ticks; apply two_workers_reachable. }
  assert (Ht : has_type (shm (world (run two_workers
                                       (in_locked_block ++ [Tick 0%nat 0]))))
                        0%nat TInt).
  { eexists. split; vm_compute; reflexivity. }
  split; [exact Hr|]. split; [exact Ht|].
  destruct (increments_are_exact _ (Tick 0%nat 0) 0%nat Hr Ht) as [H | [H _]].
  - vm_compute in H. discriminate H.
  - rewrite H. vm_compute. reflexivity.
Defined.

(** Stopping the long test sets its flag, cell 1. *)
Lemma stop_flag_stays_set_witness :
  reachable long_run /\
  has_type (shm (world long_run)) 1%nat TByte /\
  value_at (shm (world (exec long_run (CallStop one_core)))) 1%nat = 1.
Proof.
  assert (Hr : reachable long_run) by apply long_run_reachable.
  assert (Ht : has_type (shm (world long_run)) 1%nat TByte).
  { eexists. split; vm_compute; reflexivity. }
  split; [exact Hr|]. split; [exact Ht|].
  destruct (stop_flag_stays_set long_run (CallStop one_core) 1%nat Hr Ht)
    as [[H | [H _]] _].
  - vm_compute in H. discriminate H.
  - exact H.
Defined.

(** The first worker of the test of 2 seconds at half load. *)
Lemma worker_times_bounded_witness :
  reachable two_workers /\
  exists pr,
    procs two_workers !! 0%nat = Some pr /\
    load (args pr) = 50 /\
    (busy_time (args pr) + idle_time (args pr) == 1 # 10)%Q.
Proof.
  assert (Hr : reachable two_workers) by apply two_workers_reachable.
  assert (Hp : procs two_workers !! 0%nat
               = Some {| args := {| end_time := 2; load := 50; cycle_time := 1 # 10;
                                    iterations_ref := 0%nat; stop_ref := 1%nat |};
                         at_pc := OuterTime; alive := true |})
    by (vm_compute; reflexivity).
  split; [exact Hr|]. eexists. split; [exact Hp|]. split; [reflexivity|].
  apply (worker_times_bounded two_workers 0%nat _ Hr Hp).
Defined.

(** The idle worker of the test at [load = 0], after five transitions at
    time 0, is at line 40 and sleeps a whole cycle. *)
Lemma sleeps_idle_time_witness :
  reachable (run idle_run (map (Tick 0%nat) (repeat 0%Q 5))) /\
  exists pr,
    procs (run idle_run (map (Tick 0%nat) (repeat 0%Q 5))) !! 0%nat = Some pr /\
    at_pc pr = Sleep /\
    snd (cpu_worker_step (args pr) 0%nat 0
           (shm (world (run idle_run (map (Tick 0%nat) (repeat 0%Q 5))))) (at_pc pr))
    = [WSleep (idle_time (args pr))].
Proof.
  assert (Hr : reachable (run idle_run (map (Tick 0%nat) (repeat 0%Q 5)))).
  { apply reachable_ticks; apply idle_run_reachable. }
  assert (Hp : procs (run idle_run (map (Tick 0%nat) (repeat 0%Q 5))) !! 0%nat
               = Some {| args := idle_args; at_pc := Sleep; alive := true |})
    by (vm_compute; reflexivity).
  split; [exact Hr|]. eexists. split; [exact Hp|]. split; [reflexivity|].
  apply (sleeps_idle_time _ 0%nat _ 0 Hr Hp). reflexivity.
Defined.

(** The test at [load = 0], queried at time 1. *)
Lemma idle_test_counts_nothing_witness :
  reachable idle_run /\
  stress_test_enabled one_core = true /\
  cpu_stress_status_data (world idle_run) !! "load" = Some (VInt 0) /\
  exists r, status_of one_core 1 idle_run = Return r /\ iterations r = 0.
Proof.
  assert (Hr : reachable idle_run) by apply idle_run_reachable.
  assert (Hl : cpu_stress_status_data (world idle_run) !! "load" = Some (VInt 0))
    by (vm_compute; reflexivity).
  split; [exact Hr|]. split; [reflexivity|]. split; [exact Hl|].
  apply (idle_test_counts_nothing idle_run one_core 1 Hr eq_refl Hl).
Defined.

(** The worker of the long test, about to take the lock when the test is
    stopped, and left to run for nine transitions: its increment lands. *)
Lemma stop_lets_one_increment_land_witness :
  stop_set long_args (shm (world long_run_stopped)) = true /\
  stop_ref long_args <> iterations_ref long_args /\
  has_type (shm (world long_run_stopped)) (iterations_ref long_args) TInt /\
  lock_ok 0%nat (shm (world long_run_stopped)) long_args (Acquire 0) /\
  value_at (snd (fst (cpu_worker long_args 0%nat (repeat 0%Q 9)
                        (shm (world long_run_stopped)) (Acquire 0))))
           (iterations_ref long_args)
  = 1.
Proof.
  assert (Hs : stop_set long_args (shm (world long_run_stopped)) = true)
    by (vm_compute; reflexivity).
  assert (Hne : stop_ref long_args <> iterations_ref long_args) by discriminate.
  assert (Ht : has_type (shm (world long_run_stopped)) (iterations_ref long_args) TInt).
  { eexists. split; vm_compute; reflexivity. }
  assert (Hlk : lock_ok 0%nat (shm (world long_run_stopped)) long_args (Acquire 0)).
  { vm_compute. intuition discriminate. }
  split; [exact Hs|]. split; [exact Hne|]. split; [exact Ht|]. split; [exact Hlk|].
  destruct (stop_lets_one_increment_land long_args 0%nat (repeat 0%Q 9) _ _
              Hs Hne Ht Hlk) as [H | [_ H]].
  - vm_compute in H. discriminate H.
  - rewrite H. vm_compute. reflexivity.
Defined.


(** wttr.in answers 404: the status is passed on. *)
Lemma weather_http_errors_witness :
  (fun _ : string => Ok {| status_code := 404; json_body := None |}) (url "Nowhere")
  = Ok {| status_code := 404; json_body := None |} /\
  weather dummy_float (fun _ => Ok {| status_code := 404; json_body := None |})
          "Nowhere"
  = Err (Exn (HTTPException 404 "Weather data not found")).
Proof.
  split; [reflexivity|].
  apply (weather_http_errors dummy_float
           (fun _ => Ok {| status_code := 404; json_body := None |}) "Nowhere"
           {| status_code := 404; json_body := None |} 404 "Weather data not found"
           eq_refl).
  left. repeat split. discriminate.
Defined.

(** An answer with a temperature and nothing else. *)
Lemma weather_without_area_witness :
  status_code {| status_code := 200;
                 json_body := Some (JDict (<["current_condition" :=
                   JList [JDict (<["temp_C" := JStr "20"]> ∅)]]> ∅)) |} = 200 /\
  weather dummy_float
          (fun _ => Ok {| status_code := 200;
                          json_body := Some (JDict (<["current_condition" :=
                            JList [JDict (<["temp_C" := JStr "20"]> ∅)]]> ∅)) |})
          "Paris"
  = Ok {| location := JStr "Paris"; temperature := JStr "20"; description := JNone;
          lat := Finite 0; lon := Finite 0 |}.
Proof.
  split; [reflexivity|].
  assert (Hna : forall area,
             (<["current_condition" :=
                  JList [JDict (<["temp_C" := JStr "20"]> ∅)]]> ∅ : gmap string json)
               !! "nearest_area" = Some area ->
             truthy area = false).
  { intros area H. vm_compute in H. discriminate H. }
  assert (Hcc : (<["current_condition" :=
                     JList [JDict (<["temp_C" := JStr "20"]> ∅)]]> ∅
                   : gmap string json) !! "current_condition"
                = Some (JList [JDict (<["temp_C" := JStr "20"]> ∅)]))
    by apply lookup_insert_eq.
  assert (Hwd : (<["temp_C" := JStr "20"]> ∅ : gmap string json) !! "weatherDesc"
                = None) by (vm_compute; reflexivity).
  destruct (weather_without_area dummy_float
              (fun _ => Ok {| status_code := 200;
                              json_body := Some (JDict (<["current_condition" :=
                                JList [JDict (<["temp_C" := JStr "20"]> ∅)]]> ∅)) |})
              "Paris" _ _ (JDict (<["temp_C" := JStr "20"]> ∅)) []
              eq_refl eq_refl eq_refl Hcc Hna) as [_ H].
  rewrite (H (<["temp_C" := JStr "20"]> ∅) eq_refl Hwd). vm_compute. reflexivity.
Defined.

(** The answer of the test-suite: TestCity, 20, Sunny, 40.0, -74.0. *)
Lemma weather_extracts_witness :
  dummy_get (url "TestCity") = Ok {| status_code := 200; json_body := Some dummy_data |} /\
  weather dummy_float dummy_get "TestCity"
  = Ok {| location := JStr "TestCity"; temperature := JStr "20";
          description := JStr "Sunny"; lat := Finite 40; lon := Finite (-74) |}.
Proof.
  split; [reflexivity|].
  erewrite (weather_extracts dummy_float dummy_get "TestCity"
              {| status_code := 200; json_body := Some dummy_data |}
              _
              (<["temp_C" := JStr "20"]>
                 (<["weatherDesc" := JList [JDict (<["value" := JStr "Sunny"]> ∅)]]> ∅))
              (<["areaName" := JList [JDict (<["value" := JStr "TestCity"]> ∅)]]>
                 (<["latitude" := JStr "40.0"]> (<["longitude" := JStr "-74.0"]> ∅)))
              (<["value" := JStr "TestCity"]> ∅)
              (<["value" := JStr "Sunny"]> ∅)
              [] [] [] [] (JStr "40.0") (JStr "-74.0") 40 (-74));
    try (vm_compute; reflexivity).
Defined.

(** An answer of status 200 whose body is the JSON list [[]]. *)
Lemma weather_uncaught_errors_witness :
  status_code {| status_code := 200; json_body := Some (JList []) |} = 200 /\
  weather dummy_float
          (fun _ => Ok {| status_code := 200; json_body := Some (JList []) |}) "Paris"
  = Err TypeError.
Proof.
  split; [reflexivity|].
  destruct (weather_uncaught_errors dummy_float
              (fun _ => Ok {| status_code := 200; json_body := Some (JList []) |})
              "Paris" _ eq_refl eq_refl) as (_ & H & _).
  apply (H (JList []) eq_refl). discriminate.
Defined.
